(** * Screener document downloader: discovery, filtering and fetch pipeline

    A shallow embedding of [screener_app.py].  The browser session is an
    external capability: every scan receives the list of anchors the page
    shows at that moment.  The HTTP client and the file system are modelled
    by an explicit world that records every request that was issued.

    Texts are sequences of Latin-1 characters (code points 0 to 255), with
    the classes that Python gives them: the white space of [str.strip] and
    [\s] includes NEL and the no-break space, and [\w] the letters and
    numbers above 127.  Paths are byte strings, as the file system has
    them: a text that goes into a file name is encoded in UTF-8. *)

From Stdlib Require Import ZArith Ascii String List Bool Lia Sorted Permutation.
From Stdlib Require Import Numbers.DecimalString.
From Stdlib Require Numbers.DecimalZ.
From stdpp Require Import base gmap sets list strings.

Open Scope Z_scope.

(* ===================================================================== *)
(** ** Text                                                               *)
(* ===================================================================== *)

(** Python [str] values. String literals are read through the coercion. *)
Abbreviation str := (list ascii).

Definition lit (s : string) : str := String.list_ascii_of_string s.
Coercion lit : string >-> list.

Module Text.

Definition code (c : ascii) : Z := Z.of_N (N_of_ascii c).

Definition between (a b : Z) (c : ascii) : bool :=
  (a <=? code c) && (code c <=? b).

(** [str.isspace], which is also [\s]: TAB..CR, FS..US, the blank, NEL
    (133) and the no-break space (160). *)
Definition is_space (c : ascii) : bool :=
  between 9 13 c || between 28 31 c || (code c =? 32)
  || (code c =? 133) || (code c =? 160).

(** [\d] *)
Definition is_digit (c : ascii) : bool := between 48 57 c.

Definition is_upper (c : ascii) : bool := between 65 90 c.
Definition is_lower (c : ascii) : bool := between 97 122 c.

(** [[A-Za-z]] *)
Definition is_alpha (c : ascii) : bool := is_upper c || is_lower c.

(** The letters and numbers above 127, as [str.isalnum] has them: the
    ordinal indicators, the micro sign, the superscripts 1 to 3, the three
    fractions, and the letters from 192 on but for the two operators. *)
Definition is_latin_alnum (c : ascii) : bool :=
  (code c =? 170) || (code c =? 178) || (code c =? 179) || (code c =? 181)
  || (code c =? 185) || (code c =? 186) || between 188 190 c
  || between 192 214 c || between 216 246 c || between 248 255 c.

(** [\w] *)
Definition is_word (c : ascii) : bool :=
  is_alpha c || is_digit c || (code c =? 95) || is_latin_alnum c.

Definition is_char (x : ascii) (c : ascii) : bool :=
  if decide (x = c) then true else false.

(** The capital and the small letters above 127 that have a partner 32
    places away. *)
Definition is_latin_upper (c : ascii) : bool :=
  between 192 214 c || between 216 222 c.
Definition is_latin_lower (c : ascii) : bool :=
  between 224 246 c || between 248 254 c.

Definition lower_char (c : ascii) : ascii :=
  if is_upper c || is_latin_upper c then ascii_of_N (N_of_ascii c + 32)
  else c.

(** [c.upper()], as code points: the sharp s becomes "SS", and the
    capitals of the y with diaeresis and of the micro sign lie beyond 255. *)
Definition upper_char (c : ascii) : list Z :=
  if is_lower c || is_latin_lower c then [code c - 32]
  else if code c =? 223 then [83; 83]
  else if code c =? 255 then [376]
  else if code c =? 181 then [924]
  else [code c].

(** [s.lower()], and [s.upper()] as code points *)
Definition lower (s : str) : str := map lower_char s.
Definition upper (s : str) : list Z := concat (map upper_char s).

(** The bytes of a text in a file name: UTF-8, for code points below
    65536. *)
Definition byte (z : Z) : ascii := ascii_of_N (Z.to_N z).

Definition utf8_char (p : Z) : str :=
  if p <? 128 then [byte p]
  else if p <? 2048 then [byte (192 + p / 64); byte (128 + p mod 64)]
  else [byte (224 + p / 4096); byte (128 + (p / 64) mod 64);
        byte (128 + p mod 64)].

Definition fsencode (points : list Z) : str := concat (map utf8_char points).

Fixpoint lstrip (s : str) : str :=
  match s with
  | c :: s' => if is_space c then lstrip s' else s
  | [] => []
  end.

Definition rstrip (s : str) : str := rev (lstrip (rev s)).

(** [s.strip()] *)
Definition strip (s : str) : str := rstrip (lstrip s).

Fixpoint starts_with (p s : str) : bool :=
  match p, s with
  | [], _ => true
  | a :: p', b :: s' => if decide (a = b) then starts_with p' s' else false
  | _ :: _, [] => false
  end.

(** [p in s] *)
Fixpoint contains (p s : str) : bool :=
  starts_with p s ||
  match s with
  | [] => false
  | _ :: s' => contains p s'
  end.

(** [p] occurs in [s], as a proposition. *)
Definition occurs_in (p s : str) : Prop :=
  exists pre post, s = pre ++ p ++ post.

(** Truthiness of a string. *)
Definition nonempty (s : str) : bool :=
  match s with [] => false | _ => true end.

(** [a < b] on strings: lexicographic on character codes. *)
Fixpoint ltb (a b : str) : bool :=
  match a, b with
  | _, [] => false
  | [], _ :: _ => true
  | x :: a', y :: b' =>
      if code x <? code y then true
      else if code y <? code x then false
      else ltb a' b'
  end.

Definition digit_val (c : ascii) : Z := code c - 48.

(** [int(s)] for a string of decimal digits. *)
Definition int (s : str) : Z :=
  fold_left (fun acc c => 10 * acc + digit_val c) s 0.

Definition digit_char (d : Z) : ascii := ascii_of_N (Z.to_N (48 + d)).

(** The [w] low decimal digits of [z], most significant first: what
    [f"{z:0wd}"] prints when [0 <= z < 10^w]. *)
Fixpoint fixed_digits (w : nat) (z : Z) : str :=
  match w with
  | O => []
  | S w' => fixed_digits w' (z / 10) ++ [digit_char (z mod 10)]
  end.

(** [str(z)] *)
Definition of_int (z : Z) : str :=
  lit (NilZero.string_of_int (Z.to_int z)).

End Text.

(* ===================================================================== *)
(** ** Regular expressions                                                *)
(* ===================================================================== *)

(** Every pattern of the program is a sequence of character classes, each
    with a greedy repetition range and possibly a capture group.  The
    matcher below is the backtracking matcher of [re]: an item first takes
    the longest run it can and gives characters back one at a time. *)

Module Re.

Record item := Item {
  cls : ascii -> bool;
  lo : nat;
  hi : option nat;
  grp : bool
}.

Definition pattern := list item.

(** Length of the longest prefix of [s] made of [p] characters, at most
    [cap] of them. *)
Fixpoint run (p : ascii -> bool) (cap : option nat) (s : str) : nat :=
  match cap, s with
  | Some O, _ => O
  | _, [] => O
  | _, c :: s' =>
      if p c then S (run p (Nat.pred <$> cap) s') else O
  end.

(** First success among [k (lo + d)], [k (lo + d - 1)], ..., [k lo]. *)
Fixpoint first_down {R} (k : nat -> option R) (lo d : nat) : option R :=
  match k (lo + d)%nat with
  | Some r => Some r
  | None =>
      match d with
      | O => None
      | S d' => first_down k lo d'
      end
  end.

(** Match [its] at the start of [s]: the length matched and the captured
    groups, in order. *)
Fixpoint match_here (its : pattern) (s : str) : option (nat * list str) :=
  match its with
  | [] => Some (O, [])
  | it :: its' =>
      let m := run (cls it) (hi it) s in
      if (m <? lo it)%nat then None
      else
        first_down
          (fun n =>
             match match_here its' (drop n s) with
             | Some (len, caps) =>
                 Some ((n + len)%nat,
                       if grp it then take n s :: caps else caps)
             | None => None
             end)
          (lo it) (m - lo it)
  end.

(** [re.search]: the match at the leftmost position that has one, as the
    whole matched text ([group()]) and the groups ([groups()]). *)
Fixpoint search (its : pattern) (s : str) : option (str * list str) :=
  match match_here its s with
  | Some (len, caps) => Some (take len s, caps)
  | None =>
      match s with
      | [] => None
      | _ :: s' => search its s'
      end
  end.

(** What it means for a text to match a pattern, with its groups: the
    text splits into one run per item, each run within the item's class
    and repetition range. *)
Inductive matches : pattern -> str -> list str -> Prop :=
| matches_nil : matches [] [] []
| matches_cons it its w ws caps :
    Forall (fun c => cls it c = true) w ->
    (lo it <= length w)%nat ->
    (forall h, hi it = Some h -> (length w <= h)%nat) ->
    matches its ws caps ->
    matches (it :: its) (w ++ ws) (if grp it then w :: caps else caps).

(** [s] has an occurrence of the pattern. *)
Definition occurs (its : pattern) (s : str) : Prop :=
  exists pre w post caps, s = pre ++ w ++ post /\ matches its w caps.

Definition one (p : ascii -> bool) : item := Item p 1 (Some 1%nat) false.
Definition chr (c : ascii) : item := one (Text.is_char c).
Definition exactly (n : nat) (p : ascii -> bool) : item :=
  Item p n (Some n) false.
Definition plus (p : ascii -> bool) : item := Item p 1 None false.
Definition group (it : item) : item :=
  Item (cls it) (lo it) (hi it) true.

Definition literal (s : str) : pattern := map chr s.

(** [r"20\d{2}"] *)
Definition year_re : pattern :=
  literal "20" ++ [exactly 2 Text.is_digit].

(** [r"(\d{1,2})\s+([A-Za-z]{3})\s+(\d{4})"] *)
Definition day_month_year_re : pattern :=
  [ group (Item Text.is_digit 1 (Some 2%nat) false);
    plus Text.is_space;
    group (exactly 3 Text.is_alpha);
    plus Text.is_space;
    group (exactly 4 Text.is_digit) ].

(** [r"([A-Za-z]{3})\s+(\d{4})"] *)
Definition month_year_re : pattern :=
  [ group (exactly 3 Text.is_alpha);
    plus Text.is_space;
    group (exactly 4 Text.is_digit) ].

(** [r"from\s+(\w+)"] *)
Definition from_re : pattern :=
  literal "from" ++ [plus Text.is_space; group (plus Text.is_word)].

End Re.

(** The texts the four patterns stand for, written out. *)

Module Shape.

Definition all (p : ascii -> bool) (w : str) : Prop :=
  Forall (fun c => p c = true) w.

(** A run of one or more characters of a class. *)
Definition some (p : ascii -> bool) (w : str) : Prop :=
  all p w /\ w <> [].

(** [w] is the occurrence of a [P] text in [s] that starts first. *)
Definition first (P : str -> Prop) (w s : str) : Prop :=
  exists pre post,
    s = pre ++ w ++ post /\ P w
    /\ forall pre' w' post',
         s = pre' ++ w' ++ post' -> P w' ->
         (length pre <= length pre')%nat.

(** A text of two or more characters with no blank at either end. *)
Definition solid (w : str) : Prop :=
  exists c m d,
    w = c :: m ++ [d]
    /\ Text.is_space c = false /\ Text.is_space d = false.

(** Four digits, the first two being "20". *)
Definition year20 (w : str) : Prop :=
  exists a b,
    w = lit "20" ++ [a; b]
    /\ Text.is_digit a = true /\ Text.is_digit b = true.

(** One or two digits, blanks, three letters, blanks, four digits. *)
Definition day_month_year (day ms yr w : str) : Prop :=
  exists ws1 ws2,
    w = day ++ ws1 ++ ms ++ ws2 ++ yr
    /\ all Text.is_digit day /\ (1 <= length day <= 2)%nat
    /\ some Text.is_space ws1
    /\ all Text.is_alpha ms /\ length ms = 3%nat
    /\ some Text.is_space ws2
    /\ all Text.is_digit yr /\ length yr = 4%nat.

(** Three letters, blanks, four digits. *)
Definition month_year (ms yr w : str) : Prop :=
  exists ws,
    w = ms ++ ws ++ yr
    /\ all Text.is_alpha ms /\ length ms = 3%nat
    /\ some Text.is_space ws
    /\ all Text.is_digit yr /\ length yr = 4%nat.

(** "from", blanks, and a word. *)
Definition from_token (tok w : str) : Prop :=
  exists ws,
    w = lit "from" ++ ws ++ tok
    /\ some Text.is_space ws /\ some Text.is_word tok.

(** A text that does not go on with a word character. *)
Definition word_ends (post : str) : Prop :=
  match post with
  | [] => True
  | c :: _ => Text.is_word c = false
  end.

(** [tok] is the whole word after the first "from" of [s] that blanks and
    a word follow. *)
Definition token_after_from (tok s : str) : Prop :=
  exists pre w post,
    s = pre ++ w ++ post /\ from_token tok w /\ word_ends post
    /\ forall pre' w' post' tok',
         s = pre' ++ w' ++ post' -> from_token tok' w' ->
         (length pre <= length pre')%nat.

(** Some day, month and year. *)
Definition dated (w : str) : Prop :=
  exists day ms yr, day_month_year day ms yr w.

(** Some month and year. *)
Definition month_dated (w : str) : Prop :=
  exists ms yr, month_year ms yr w.

(** A text that has no month and year. *)
Definition undated (t : str) : Prop :=
  forall w, month_dated w -> ~ Text.occurs_in w t.

End Shape.

(* ===================================================================== *)
(** ** Exceptions                                                         *)
(* ===================================================================== *)

Inductive exn :=
| ValueError | TypeError | OverflowError | KeyError
| RequestException | HTTPError | OSError.

Inductive result (A : Type) :=
| Ok (a : A)
| Raise (e : exn).
Arguments Ok {A} a.
Arguments Raise {A} e.

(* ===================================================================== *)
(** ** Dates                                                              *)
(* ===================================================================== *)

Module Calendar.

(** A naive [datetime]: calendar day and microseconds since midnight. *)
Record datetime := DateTime {
  year : Z;
  month : Z;
  day : Z;
  usec : Z
}.

Definition MINYEAR : Z := 1.
Definition MAXYEAR : Z := 9999.
Definition MAXORDINAL : Z := 3652059.

Definition is_leap (y : Z) : bool :=
  (y mod 4 =? 0) && (negb (y mod 100 =? 0) || (y mod 400 =? 0)).

Definition days_in_month (y m : Z) : Z :=
  if m =? 2 then (if is_leap y then 29 else 28)
  else if (m =? 4) || (m =? 6) || (m =? 9) || (m =? 11) then 30
  else 31.

Definition days_before_year (y : Z) : Z :=
  let p := y - 1 in p * 365 + p / 4 - p / 100 + p / 400.

Definition days_before_month_table : list Z :=
  [0; 0; 31; 59; 90; 120; 151; 181; 212; 243; 273; 304; 334].

Definition days_in_month_table : list Z :=
  [0; 31; 28; 31; 30; 31; 30; 31; 31; 30; 31; 30; 31].

Definition days_before_month (y m : Z) : Z :=
  nth (Z.to_nat m) days_before_month_table 0
  + (if (2 <? m) && is_leap y then 1 else 0).

Definition ymd2ord (y m d : Z) : Z :=
  days_before_year y + days_before_month y m + d.

Definition toordinal (t : datetime) : Z :=
  ymd2ord (year t) (month t) (day t).

(** [datetime(y, m, d)]; [ValueError] on a date that does not exist. *)
Definition mk_datetime (y m d : Z) : result datetime :=
  if (MINYEAR <=? y) && (y <=? MAXYEAR)
     && (1 <=? m) && (m <=? 12)
     && (1 <=? d) && (d <=? days_in_month y m)
  then Ok (DateTime y m d 0)
  else Raise ValueError.

Definition DI400Y : Z := 146097.
Definition DI100Y : Z := 36524.
Definition DI4Y : Z := 1461.

(** [date.fromordinal] *)
Definition ord2ymd (n0 : Z) : Z * Z * Z :=
  let n := n0 - 1 in
  let n400 := n / DI400Y in
  let n := n mod DI400Y in
  let y := n400 * 400 + 1 in
  let n100 := n / DI100Y in
  let n := n mod DI100Y in
  let n4 := n / DI4Y in
  let n := n mod DI4Y in
  let n1 := n / 365 in
  let n := n mod 365 in
  let y := y + n100 * 100 + n4 * 4 + n1 in
  if (n1 =? 4) || (n100 =? 4) then (y - 1, 12, 31)
  else
    let leapyear := (n1 =? 3) && (negb (n4 =? 24) || (n100 =? 3)) in
    let m := Z.shiftr (n + 50) 5 in
    let preceding :=
      nth (Z.to_nat m) days_before_month_table 0
      + (if (2 <? m) && leapyear then 1 else 0) in
    if n <? preceding then
      let m' := m - 1 in
      let preceding' :=
        preceding
        - (nth (Z.to_nat m') days_in_month_table 0
           + (if (m' =? 2) && leapyear then 1 else 0)) in
      (y, m', n - preceding' + 1)
    else (y, m, n - preceding + 1).

Definition MAX_DELTA_DAYS : Z := 999999999.

(** [t - timedelta(days=n)] *)
Definition minus_days (t : datetime) (n : Z) : result datetime :=
  if MAX_DELTA_DAYS <? Z.abs n then Raise OverflowError
  else
    let o := toordinal t - n in
    if (0 <? o) && (o <=? MAXORDINAL) then
      let '(y, m, d) := ord2ymd o in Ok (DateTime y m d (usec t))
    else Raise OverflowError.

(** [a < b] *)
Definition ltb (a b : datetime) : bool :=
  if year a <? year b then true else if year b <? year a then false else
  if month a <? month b then true else if month b <? month a then false else
  if day a <? day b then true else if day b <? day a then false else
  usec a <? usec b.

(** The literal [months] dictionary of the scans. *)
Definition months : list (str * Z) :=
  [ (lit "jan", 1); (lit "feb", 2); (lit "mar", 3); (lit "apr", 4);
    (lit "may", 5); (lit "jun", 6); (lit "jul", 7); (lit "aug", 8);
    (lit "sep", 9); (lit "oct", 10); (lit "nov", 11); (lit "dec", 12) ].

Fixpoint dict_get (d : list (str * Z)) (k : str) : option Z :=
  match d with
  | [] => None
  | (k', v) :: d' => if decide (k' = k) then Some v else dict_get d' k
  end.

(** [months.get(ms.lower()[:3])] *)
Definition month_of (ms : str) : option Z :=
  dict_get months (take 3 (Text.lower ms)).

(** [t.strftime("%Y-%m")]: the C library prints the year as a plain
    number, with no zeros before it ("999-08" for August 999), and the
    month on two digits. *)
Definition strftime_Ym (t : datetime) : str :=
  Text.of_int (year t) ++ lit "-" ++ Text.fixed_digits 2 (month t).

(** [t.strftime("%Y-%m-%d")] *)
Definition strftime_Ymd (t : datetime) : str :=
  strftime_Ym t ++ lit "-" ++ Text.fixed_digits 2 (day t).

End Calendar.

(* ===================================================================== *)
(** ** Sorting                                                            *)
(* ===================================================================== *)

(** [l.sort(key=..., reverse=True)]: descending and stable, so entries with
    equal keys keep the order they had. *)

Module Sort.

Section Desc.
Context {A : Type} (lt : A -> A -> bool).

Fixpoint insert_desc (x : A) (l : list A) : list A :=
  match l with
  | [] => [x]
  | y :: l' => if lt x y then y :: insert_desc x l' else x :: l
  end.

Definition sort_desc (l : list A) : list A :=
  foldr insert_desc [] l.

(** [a] may stand before [b] in a descending list. *)
Definition not_below (a b : A) : Prop := lt a b = false.

(** [a] and [b] have equal keys. *)
Definition tie (a b : A) : bool := negb (lt a b) && negb (lt b a).
End Desc.

End Sort.

(* ===================================================================== *)
(** ** The rendered page                                                  *)
(* ===================================================================== *)

(** What a scan reads from one anchor of [driver.find_elements(By.TAG_NAME,
    "a")]. *)
Record Link := {
  (** [link.text] *)
  l_text : str;
  (** [link.get_attribute("href")], [None] when the anchor has none *)
  l_href : option str;
  (** [link.get_attribute("aria-label")] *)
  l_aria : option str;
  (** texts of the elements reached by [".."], ["../.."], ["../../.."], ...;
      looking above the last one raises *)
  l_ancestors : list str;
  (** header texts of the enclosing table, [None] when the anchor is not in
      a table (the lookup raises) *)
  l_headers : option (list str);
  (** position of the anchor's cell among the [td] cells of its row *)
  l_cell : option nat
}.

(** [x or ""] on an attribute. *)
Definition or_empty (x : option str) : str := default [] x.

(** [None if num == 0 else datetime.now() - timedelta(days=num * 365)] *)
Definition cutoff_date (now : Calendar.datetime) (num : Z)
  : result (option Calendar.datetime) :=
  if num =? 0 then Ok None
  else
    match Calendar.minus_days now (num * 365) with
    | Ok c => Ok (Some c)
    | Raise e => Raise e
    end.

(** [l[:num] if num and num > 0 else l] *)
Definition limit {A} (num : Z) (l : list A) : list A :=
  if negb (num =? 0) && (0 <? num) then take (Z.to_nat num) l else l.

(** Keep the first entry of every target: [if href not in seen] followed by
    [seen.add(href)]. *)
Fixpoint dedup_by {A} (key : A -> str) (seen : gset str) (l : list A)
    : list A :=
  match l with
  | [] => []
  | x :: l' =>
      if bool_decide (key x ∈ seen) then dedup_by key seen l'
      else x :: dedup_by key (seen ∪ {[key x]}) l'
  end.

(** [cutoff and d < cutoff] *)
Definition before_cutoff (cutoff : option Calendar.datetime)
    (d : Calendar.datetime) : bool :=
  match cutoff with
  | Some c => Calendar.ltb d c
  | None => false
  end.

(* ===================================================================== *)
(** ** Annual reports                                                     *)
(* ===================================================================== *)

Module Annual.

Record report := Report { year : Z; url : str }.

(** [annual_cutoff_date and datetime(year, 12, 31) < annual_cutoff_date] *)
Definition too_old (annual_cutoff_date : option Calendar.datetime)
    (year : Z) : result bool :=
  match annual_cutoff_date with
  | None => Ok false
  | Some c =>
      match Calendar.mk_datetime year 12 31 with
      | Ok d => Ok (Calendar.ltb d c)
      | Raise e => Raise e
      end
  end.

(** One iteration of the scan loop; an exception leaves the lists as they
    are ([except: continue]). *)
Definition step (annual_cutoff_date : option Calendar.datetime)
    (st : list report * gset str) (link : Link) : list report * gset str :=
  let '(annual_reports, seen) := st in
  let text := Text.strip (l_text link) in
  let href := l_href link in
  match Re.search Re.year_re text, href with
  | Some (ym, _), Some href =>
      if Text.contains "financial year" (Text.lower text)
         && Text.contains "from" (Text.lower text)
         && Text.nonempty href
         && negb (bool_decide (href ∈ seen))
      then
        let year := Text.int ym in
        match too_old annual_cutoff_date year with
        | Ok false =>
            (annual_reports ++ [Report year href], seen ∪ {[href]})
        | _ => st
        end
      else st
  | _, _ => st
  end.

Definition scan (annual_cutoff_date : option Calendar.datetime)
    (all_links : list Link) : list report :=
  fst (fold_left (step annual_cutoff_date) all_links ([], ∅)).

(** The stages that the loop interleaves, taken one at a time: what the
    text and the target alone decide, ... *)
Definition classify (link : Link) : option report :=
  let text := Text.strip (l_text link) in
  match Re.search Re.year_re text, l_href link with
  | Some (ym, _), Some href =>
      if Text.contains "financial year" (Text.lower text)
         && Text.contains "from" (Text.lower text)
         && Text.nonempty href
      then Some (Report (Text.int ym) href)
      else None
  | _, _ => None
  end.

(** ... the date window, ... *)
Definition recent (annual_cutoff_date : option Calendar.datetime)
    (r : report) : bool :=
  match too_old annual_cutoff_date (year r) with
  | Ok false => true
  | _ => false
  end.

Definition recency_filter (annual_cutoff_date : option Calendar.datetime)
    (l : list report) : list report :=
  List.filter (recent annual_cutoff_date) l.

(** ... and the [seen] set. *)
Definition dedup (l : list report) : list report := dedup_by url ∅ l.

(** [annual_reports.sort(key=lambda x: x["year"], reverse=True)] *)
Definition ranked (annual_cutoff_date : option Calendar.datetime)
    (all_links : list Link) : list report :=
  Sort.sort_desc (fun a b => year a <? year b)
    (scan annual_cutoff_date all_links).

End Annual.

(* ===================================================================== *)
(** ** Credit ratings                                                     *)
(* ===================================================================== *)

Module Credit.

Record rating := Rating { date : Calendar.datetime; url : str; agency : str }.

(** [am.group(1) if am else "unknown"] for
    [am = re.search(r"from\s+(\w+)", text.lower())] *)
Definition agency_of (text : str) : str :=
  match Re.search Re.from_re (Text.lower text) with
  | Some (_, ag :: _) => ag
  | _ => lit "unknown"
  end.

Definition step (credit_cutoff_date : option Calendar.datetime)
    (st : list rating * gset str) (link : Link) : list rating * gset str :=
  let '(ratings, seen) := st in
  let text := Text.strip (l_text link) in
  let href := or_empty (l_href link) in
  if (Text.contains "rating update" (Text.lower text)
      || Text.contains "rating" (Text.lower text))
     && Text.contains "from" (Text.lower text)
     && Text.nonempty href
     && negb (bool_decide (href ∈ seen))
  then
    match Re.search Re.day_month_year_re text with
    | Some (_, [day; ms; yr]) =>
        match Calendar.month_of ms with
        | Some mo =>
            match Calendar.mk_datetime (Text.int yr) mo (Text.int day) with
            | Ok rd =>
                if before_cutoff credit_cutoff_date rd then st
                else (ratings ++ [Rating rd href (agency_of text)],
                      seen ∪ {[href]})
            | Raise _ => st
            end
        | None => st
        end
    | _ => st
    end
  else st.

Definition scan (credit_cutoff_date : option Calendar.datetime)
    (all_links : list Link) : list rating :=
  fst (fold_left (step credit_cutoff_date) all_links ([], ∅)).

(** The stages that the loop interleaves, taken one at a time. *)
Definition classify (link : Link) : option rating :=
  let text := Text.strip (l_text link) in
  let href := or_empty (l_href link) in
  if (Text.contains "rating update" (Text.lower text)
      || Text.contains "rating" (Text.lower text))
     && Text.contains "from" (Text.lower text)
     && Text.nonempty href
  then
    match Re.search Re.day_month_year_re text with
    | Some (_, [day; ms; yr]) =>
        match Calendar.month_of ms with
        | Some mo =>
            match Calendar.mk_datetime (Text.int yr) mo (Text.int day) with
            | Ok rd => Some (Rating rd href (agency_of text))
            | Raise _ => None
            end
        | None => None
        end
    | _ => None
    end
  else None.

Definition recency_filter (credit_cutoff_date : option Calendar.datetime)
    (l : list rating) : list rating :=
  List.filter (fun r => negb (before_cutoff credit_cutoff_date (date r))) l.

Definition dedup (l : list rating) : list rating := dedup_by url ∅ l.

(** [ratings.sort(key=lambda x: x["date"], reverse=True)] *)
Definition ranked (credit_cutoff_date : option Calendar.datetime)
    (all_links : list Link) : list rating :=
  Sort.sort_desc (fun a b => Calendar.ltb (date a) (date b))
    (scan credit_cutoff_date all_links).

End Credit.

(* ===================================================================== *)
(** ** Transcripts and presentations                                      *)
(* ===================================================================== *)

Module Concall.

Record bucket := Bucket {
  date : Calendar.datetime;
  display : str;
  transcript : option str;
  ppt : option str
}.

(** The loop over [["..", "../..", "../../.."]]: the first level whose
    text has a month and a year decides; a level that cannot be reached
    is passed over. *)
Fixpoint context_date (levels : list (option str)) : option (str * str) :=
  match levels with
  | [] => None
  | Some t :: rest =>
      match Re.search Re.month_year_re t with
      | Some (_, [ms; yr]) => Some (ms, yr)
      | _ => context_date rest
      end
  | None :: rest => context_date rest
  end.

Definition levels (link : Link) : list (option str) :=
  [l_ancestors link !! 0%nat; l_ancestors link !! 1%nat;
   l_ancestors link !! 2%nat].

(** What an accepted anchor contributes: the bucket key, the bucket's
    date and display text, whether it is the transcript, and its target. *)
Record sighting := Sighting {
  s_key : str;
  s_date : Calendar.datetime;
  s_display : str;
  s_is_t : bool;
  s_is_p : bool;
  s_href : str
}.

Definition classify (link : Link) : option sighting :=
  let text := Text.lower (Text.strip (l_text link)) in
  let href := or_empty (l_href link) in
  let is_t := bool_decide (text = lit "transcript") in
  let is_p := bool_decide (text = lit "ppt") in
  if (is_t || is_p) && Text.nonempty href then
    match context_date (levels link) with
    | Some (ms, yr) =>
        let date_found := ms ++ lit " " ++ yr in
        match Calendar.month_of ms with
        | Some mo =>
            match Calendar.mk_datetime (Text.int yr) mo 1 with
            | Ok cd =>
                Some (Sighting (Calendar.strftime_Ym cd) cd date_found
                        is_t is_p href)
            | Raise _ => None
            end
        | None => None    (* [datetime(int(yr), None, 1)] raises *)
        end
    | None => None
    end
  else None.

Definition record_sighting (concalls_data : gmap str bucket) (s : sighting)
    : gmap str bucket :=
  let b :=
    match concalls_data !! s_key s with
    | Some b => b
    | None => Bucket (s_date s) (s_display s) None None
    end in
  <[ s_key s :=
       if s_is_t s
       then Bucket (date b) (display b) (Some (s_href s)) (ppt b)
       else if s_is_p s
       then Bucket (date b) (display b) (transcript b) (Some (s_href s))
       else b ]>
    concalls_data.

(** Every bucket sits under the key of its own date, the first day of a
    month. *)
Definition well_keyed (concalls_data : gmap str bucket) : Prop :=
  forall k b,
    concalls_data !! k = Some b ->
    k = Calendar.strftime_Ym (date b)
    /\ 1 <= Calendar.year (date b) <= 9999
    /\ 1 <= Calendar.month (date b) <= 12
    /\ Calendar.day (date b) = 1
    /\ Calendar.usec (date b) = 0.

Definition step (concalls_data : gmap str bucket) (link : Link)
    : gmap str bucket :=
  match classify link with
  | Some s => record_sighting concalls_data s
  | None => concalls_data
  end.

Definition scan (all_links : list Link) : gmap str bucket :=
  fold_left step all_links ∅.

(** [sorted(concalls_data.keys(), reverse=True)], then the count limit. *)
Definition sorted_dates (num_concalls : Z) (concalls_data : gmap str bucket)
    : list str :=
  limit num_concalls
    (Sort.sort_desc Text.ltb (elements (dom concalls_data))).

End Concall.

(* ===================================================================== *)
(** ** Quarterly reports                                                  *)
(* ===================================================================== *)

Module Quarterly.

Record report := Report {
  date : Calendar.datetime;
  display : str;
  date_str : str;
  url : str
}.

Definition step (qr : list report) (link : Link) : list report :=
  let href := or_empty (l_href link) in
  let aria := or_empty (l_aria link) in
  if Text.contains "raw pdf" (Text.lower aria)
     && Text.contains "/company/source/quarter/" href
  then
    match l_headers link, l_cell link with
    | Some hdrs, Some ci =>
        match hdrs !! ci with
        | Some h =>
            let ht := Text.strip h in
            match Re.search Re.month_year_re ht with
            | Some (_, [ms; yr]) =>
                match Calendar.month_of ms with
                | Some mo =>
                    match Calendar.mk_datetime (Text.int yr) mo 1 with
                    | Ok d =>
                        qr ++ [Report d (ms ++ lit " " ++ yr)
                                 (yr ++ lit "-" ++ Text.fixed_digits 2 mo)
                                 href]
                    | Raise _ => qr
                    end
                | None => qr
                end
            | _ => qr
            end
        | None => qr
        end
    | _, _ => qr
    end
  else qr.

Definition scan (all_links : list Link) : list report :=
  fold_left step all_links [].

(** [qr.sort(key=lambda x: x["date"], reverse=True)], then the count
    limit. *)
Definition ranked (num_quarterly : Z) (all_links : list Link) : list report :=
  limit num_quarterly
    (Sort.sort_desc (fun a b => Calendar.ltb (date a) (date b))
       (scan all_links)).

End Quarterly.

(* ===================================================================== *)
(** ** Fetch and persist                                                  *)
(* ===================================================================== *)

Module Fetch.

Inductive FetchOutcome := downloaded | skipped_existing | failed.

(** What the server does with a GET: no answer at all, or a status and a
    body that arrives in chunks and may break off before the end. *)
Inductive response :=
| Unreachable
| Reply (status : Z) (chunks : list (list Byte.byte)) (complete : bool).

(** The files on disk that the process can look at, with their content,
    every URL requested so far, and the three counters of the run. *)
Record world := World {
  files : gmap str (list Byte.byte);
  requests : list str;
  downloaded_count : Z;
  skipped_count : Z;
  failed_count : Z
}.

(** Computations that change the world and may raise. *)
Definition M (A : Type) : Type := world -> world * result A.

Definition ret {A} (a : A) : M A := fun w => (w, Ok a).
Definition raise {A} (e : exn) : M A := fun w => (w, Raise e).
Definition bind {A B} (m : M A) (k : A -> M B) : M B :=
  fun w =>
    match m w with
    | (w', Ok a) => k a w'
    | (w', Raise e) => (w', Raise e)
    end.
(** [try: m except Exception: h] *)
Definition try_except {A} (m : M A) (h : exn -> M A) : M A :=
  fun w =>
    match m w with
    | (w', Ok a) => (w', Ok a)
    | (w', Raise e) => h e w'
    end.

Notation "'let*' x := m 'in' k" := (bind m (fun x => k))
  (at level 10, x name, m at level 100, k at level 200).
Notation "m >> k" := (bind m (fun _ => k))
  (at level 65, right associativity).

(** The world with other files. *)
Definition set_files (w : world) (fs : gmap str (list Byte.byte)) : world :=
  World fs (requests w) (downloaded_count w) (skipped_count w)
    (failed_count w).

Definition with_files (f : gmap str (list Byte.byte) -> gmap str (list Byte.byte))
    : M unit :=
  fun w => (set_files w (f (files w)), Ok tt).

(** The destination is missing or not larger than [min_size]: the fetch
    will not skip it. *)
Definition to_fetch (min_size : Z) (fp : str) (w : world) : Prop :=
  match files w !! fp with
  | Some content => Z.of_nat (length content) <= min_size
  | None => True
  end.

Section Environment.

(** The answer to a GET, given the requests issued before it. *)
Variable net : list str -> str -> response.
(** Whether the parent directory can be made and the file opened. *)
Variable writable : str -> bool.
(** Whether the look-up of a path fails with an [OSError] that
    [Path.exists] lets through (a name that is too long, a folder that
    may not be searched), given the requests issued before it. *)
Variable stat_fails : list str -> str -> bool.

(** [requests.get(url, headers=headers, timeout=60, stream=True)] *)
Definition requests_get (url : str) : M response :=
  fun w =>
    let w' := World (files w) (requests w ++ [url]) (downloaded_count w)
                (skipped_count w) (failed_count w) in
    match net (requests w) url with
    | Unreachable => (w', Raise RequestException)
    | r => (w', Ok r)
    end.

(** [response.raise_for_status()] *)
Definition raise_for_status (r : response) : M unit :=
  match r with
  | Reply status _ _ =>
      if (400 <=? status) && (status <? 600) then raise HTTPError
      else ret tt
  | Unreachable => raise RequestException
  end.

(** [filepath.parent.mkdir(parents=True, exist_ok=True)] *)
Definition mkdir_parent (filepath : str) : M unit :=
  if writable filepath then ret tt else raise OSError.

(** [open(filepath, "wb")]: the file exists and is empty afterwards. *)
Definition open_wb (filepath : str) : M unit :=
  if writable filepath then with_files (fun fs => <[filepath := []]> fs)
  else raise OSError.

(** [f.write(chunk)] *)
Definition write (filepath : str) (chunk : list Byte.byte) : M unit :=
  with_files (fun fs => <[filepath := default [] (fs !! filepath) ++ chunk]> fs).

(** [for chunk in response.iter_content(chunk_size=8192): f.write(chunk)] *)
Fixpoint write_chunks (filepath : str) (chunks : list (list Byte.byte))
    (complete : bool) : M unit :=
  match chunks with
  | [] => if complete then ret tt else raise RequestException
  | chunk :: rest =>
      write filepath chunk >> write_chunks filepath rest complete
  end.

(** Whether looking at [filepath] fails: the path is not among the files
    that can be looked at, it cannot be opened either, and the file system
    refuses the look-up.  A path that can be opened can be looked at: its
    folder can be searched and its name is not too long. *)
Definition stat_raises (filepath : str) (w : world) : bool :=
  bool_decide (files w !! filepath = None)
  && negb (writable filepath)
  && stat_fails (requests w) filepath.

(** [filepath.exists()]: an [OSError] other than "no such file" is
    raised, not answered with [False]. *)
Definition path_exists (filepath : str) : M bool :=
  fun w =>
    if stat_raises filepath w then (w, Raise OSError)
    else (w, Ok (bool_decide (is_Some (files w !! filepath)))).

(** [filepath.stat().st_size] *)
Definition st_size (filepath : str) : M Z :=
  fun w =>
    match files w !! filepath with
    | Some content => (w, Ok (Z.of_nat (length content)))
    | None => (w, Raise OSError)
    end.

(** [filepath.unlink()] *)
Definition unlink (filepath : str) : M unit :=
  fun w =>
    match files w !! filepath with
    | Some _ => with_files (delete filepath) w
    | None => (w, Raise OSError)
    end.

Definition download_body (url filepath : str) : M bool :=
  let* response := requests_get url in
  raise_for_status response >>
  mkdir_parent filepath >>
  open_wb filepath >>
  match response with
  | Reply _ chunks complete => write_chunks filepath chunks complete
  | Unreachable => ret tt
  end >>
  let* size := st_size filepath in
  if size <? 1000 then unlink filepath >> ret false
  else ret true.

Definition download_file (url filepath : str) : M bool :=
  try_except (download_body url filepath) (fun _ => ret false).

Definition count (o : FetchOutcome) : M unit :=
  fun w =>
    match o with
    | downloaded =>
        (World (files w) (requests w) (downloaded_count w + 1)
           (skipped_count w) (failed_count w), Ok tt)
    | skipped_existing =>
        (World (files w) (requests w) (downloaded_count w)
           (skipped_count w + 1) (failed_count w), Ok tt)
    | failed =>
        (World (files w) (requests w) (downloaded_count w)
           (skipped_count w) (failed_count w + 1), Ok tt)
    end.

(** The body shared by the four fetch loops: skip a file that is
    already there and larger than [min_size], download otherwise. *)
Definition fetch (min_size : Z) (url fp : str) : M FetchOutcome :=
  let* there := path_exists fp in
  let* big := (if there
               then let* size := st_size fp in ret (min_size <? size)
               else ret false) in
  if big then count skipped_existing >> ret skipped_existing
  else
    let* ok := download_file url fp in
    if ok then count downloaded >> ret downloaded
    else count failed >> ret failed.

(** [a / b] on paths *)
Definition join (a b : str) : str := a ++ lit "/" ++ b.

(** A fetch loop, with the outcomes in order.  The pause between two
    fetches ([time.sleep(1)]) changes nothing here and is left out. *)
Fixpoint for_each {A} (body : A -> M (list FetchOutcome)) (l : list A)
    : M (list FetchOutcome) :=
  match l with
  | [] => ret []
  | x :: l' =>
      let* o := body x in
      let* os := for_each body l' in
      ret (o ++ os)
  end.

Definition annual_path (company_dir : str) (rpt : Annual.report) : str :=
  join (join company_dir "Annual_Reports")
    (lit "Annual_Report_" ++ Text.of_int (Annual.year rpt) ++ lit ".pdf").

Definition fetch_annual (company_dir : str)
    (annual_reports : list Annual.report) : M (list FetchOutcome) :=
  for_each
    (fun rpt =>
       let* o := fetch 5000 (Annual.url rpt) (annual_path company_dir rpt) in
       ret [o])
    annual_reports.

Definition rating_path (company_dir : str) (rat : Credit.rating) : str :=
  join (join company_dir "Credit_Ratings")
    (lit "Credit_Rating_" ++ Calendar.strftime_Ymd (Credit.date rat)
       ++ lit "_" ++ Text.fsencode (Text.upper (Credit.agency rat))
       ++ lit ".pdf").

Definition fetch_ratings (company_dir : str)
    (ratings : list Credit.rating) : M (list FetchOutcome) :=
  for_each
    (fun rat =>
       let* o := fetch 5000 (Credit.url rat) (rating_path company_dir rat) in
       ret [o])
    ratings.

Definition transcript_path (company_dir dk : str) : str :=
  join (join company_dir "Transcripts")
    (lit "Transcript_" ++ dk ++ lit ".pdf").

Definition ppt_path (company_dir dk : str) : str :=
  join (join company_dir "Presentations") (lit "PPT_" ++ dk ++ lit ".pdf").

Definition fetch_concalls (company_dir : str)
    (d_transcripts d_presentations : bool)
    (concalls_data : gmap str Concall.bucket) (sorted_dates : list str)
    : M (list FetchOutcome) :=
  for_each
    (fun dk =>
       match concalls_data !! dk with
       | None => raise KeyError
       | Some d =>
           let* t :=
             match Concall.transcript d with
             | Some u =>
                 if d_transcripts && Text.nonempty u then
                   let* o := fetch 1000 u (transcript_path company_dir dk) in
                   ret [o]
                 else ret []
             | None => ret []
             end in
           let* p :=
             match Concall.ppt d with
             | Some u =>
                 if d_presentations && Text.nonempty u then
                   let* o := fetch 1000 u (ppt_path company_dir dk) in
                   ret [o]
                 else ret []
             | None => ret []
             end in
           ret (t ++ p)
       end)
    sorted_dates.

Definition quarterly_path (company_dir : str) (rpt : Quarterly.report)
    : str :=
  join (join company_dir "Quarterly_Reports")
    (lit "Quarterly_Report_" ++ Quarterly.date_str rpt ++ lit ".pdf").

Definition fetch_quarterly (company_dir : str)
    (qr : list Quarterly.report) : M (list FetchOutcome) :=
  for_each
    (fun rpt =>
       let* o := fetch 5000 (Quarterly.url rpt)
                   (quarterly_path company_dir rpt) in
       ret [o])
    qr.

End Environment.

End Fetch.

(* ===================================================================== *)
(** ** One run                                                            *)
(* ===================================================================== *)

Module App.

Import Fetch.

(** The check boxes and the history limits of the side bar. *)
Record options := {
  d_annual : bool;
  d_credit : bool;
  d_transcripts : bool;
  d_presentations : bool;
  d_quarterly : bool;
  num_annual : Z;
  num_credit : Z;
  num_concalls : Z;
  num_quarterly : Z
}.

(** What the browser and the clock give to each section of the run. *)
Record session := {
  now_annual : Calendar.datetime;
  links_annual : list Link;
  now_credit : Calendar.datetime;
  links_credit : list Link;
  links_concalls : list Link;
  links_quarterly : list Link
}.

Definition lift {A} (r : result A) : M A := fun w => (w, r).

Section Run.
Variable net : list str -> str -> response.
Variable writable : str -> bool.
Variable stat_fails : list str -> str -> bool.
Variable company_dir : str.
Variable o : options.
Variable p : session.

Definition annual_section : M (list FetchOutcome) :=
  let* annual_cutoff_date :=
    lift (cutoff_date (now_annual p) (num_annual o)) in
  fetch_annual net writable stat_fails company_dir
    (Annual.ranked annual_cutoff_date (links_annual p)).

Definition credit_section : M (list FetchOutcome) :=
  let* credit_cutoff_date :=
    lift (cutoff_date (now_credit p) (num_credit o)) in
  fetch_ratings net writable stat_fails company_dir
    (Credit.ranked credit_cutoff_date (links_credit p)).

Definition concall_section : M (list FetchOutcome) :=
  let concalls_data := Concall.scan (links_concalls p) in
  fetch_concalls net writable stat_fails company_dir
    (d_transcripts o) (d_presentations o) concalls_data
    (Concall.sorted_dates (num_concalls o) concalls_data).

Definition quarterly_section : M (list FetchOutcome) :=
  fetch_quarterly net writable stat_fails company_dir
    (Quarterly.ranked (num_quarterly o) (links_quarterly p)).

Definition when (b : bool) (m : M (list FetchOutcome)) : M unit :=
  if b then m >> ret tt else ret tt.

(** The body of the outer [try], and the run: an exception that escapes
    a section ends the run with what was counted so far. *)
Definition sections : M unit :=
  when (d_annual o) annual_section >>
  when (d_credit o) credit_section >>
  when (d_transcripts o || d_presentations o) concall_section >>
  when (d_quarterly o) quarterly_section.

Definition run : M unit := try_except sections (fun _ => ret tt).
End Run.

End App.

(* ===================================================================== *)
(** ** The side bar and the company folder                                *)
(* ===================================================================== *)

Module Sidebar.

(** One record of the search answer: [r["name"]] and [r.get("url")]. *)
Record company := Company { name : str; url : option str }.

(** [[r["name"] for r in search_results[:10]]] *)
Definition company_names (search_results : list company) : list str :=
  map name (take 10 search_results).

(** The loop that looks the chosen name up again, in all the results:
    [if r["name"] == selected_name: ...; break]. *)
Fixpoint select (search_results : list company) (selected_name : str)
    : option company :=
  match search_results with
  | [] => None
  | r :: rest =>
      if decide (name r = selected_name) then Some r
      else select rest selected_name
  end.

(** [f"https://www.screener.in{selected.get('url', '')}"] *)
Definition screener_url (selected : company) : str :=
  lit "https://www.screener.in" ++ or_empty (url selected).

(** The characters that [[^\w\-_\. ]] leaves alone. *)
Definition safe_char (c : ascii) : bool :=
  Text.is_word c || Text.is_char "-" c || Text.is_char "_" c
  || Text.is_char "." c || Text.is_char " " c.

(** [re.sub(r"[^\w\-_\. ]", "_", company_display_name)] *)
Definition safe_company_name (company_display_name : str) : str :=
  map (fun c => if safe_char c then c else "_"%char) company_display_name.

End Sidebar.

(* ===================================================================== *)
(** ** Counting outcomes                                                  *)
(* ===================================================================== *)

Module Tally.

Definition same (a b : Fetch.FetchOutcome) : bool :=
  match a, b with
  | Fetch.downloaded, Fetch.downloaded => true
  | Fetch.skipped_existing, Fetch.skipped_existing => true
  | Fetch.failed, Fetch.failed => true
  | _, _ => false
  end.

(** How often [o] is among the outcomes [os]. *)
Definition occurrences (o : Fetch.FetchOutcome)
    (os : list Fetch.FetchOutcome) : Z :=
  Z.of_nat (length (List.filter (same o) os)).

(** [w'] is [w] with the three counters moved by the outcomes [os]. *)
Definition counted (w w' : Fetch.world) (os : list Fetch.FetchOutcome)
    : Prop :=
  Fetch.downloaded_count w'
  = Fetch.downloaded_count w + occurrences Fetch.downloaded os
  /\ Fetch.skipped_count w'
     = Fetch.skipped_count w + occurrences Fetch.skipped_existing os
  /\ Fetch.failed_count w'
     = Fetch.failed_count w + occurrences Fetch.failed os.

(** The request a fetch of [url] sends, given its outcome. *)
Definition asked (url : str) (o : Fetch.FetchOutcome) : list str :=
  match o with
  | Fetch.skipped_existing => []
  | _ => [url]
  end.

(** What a loop of single fetches over the candidates [l], with targets
    [u] and destinations [p], has done between [w] and [w'] when [os] are
    the outcomes of the candidates it went through: the counters moved by
    these outcomes, one request for each of them that is not a skip, to
    the target of its candidate and in order, and no file touched but the
    destinations. *)
Definition processed {A} (u p : A -> str) (l : list A)
    (w w' : Fetch.world) (os : list Fetch.FetchOutcome) : Prop :=
  counted w w' os
  /\ Fetch.requests w'
     = Fetch.requests w ++ concat (zip_with asked (map u l) os)
  /\ forall q, q ∉ map p l -> Fetch.files w' !! q = Fetch.files w !! q.

End Tally.

(* ===================================================================== *)
(** ** Sample pages and servers                                           *)
(* ===================================================================== *)

Module Sample.

Definition anchor (text : str) (href : option str) : Link :=
  {| l_text := text; l_href := href; l_aria := None; l_ancestors := [];
     l_headers := None; l_cell := None |}.

(** An anchor two levels below an element that shows [context]. *)
Definition concall_anchor (text href context : str) : Link :=
  {| l_text := text; l_href := Some href; l_aria := None;
     l_ancestors := [text; context]; l_headers := None; l_cell := None |}.

Definition quarter_headers : list str :=
  [lit ""; lit "Mar 2022"; lit "Jun 2022"; lit "Sep 2022"; lit "Dec 2022";
   lit "Mar 2023"; lit "Jun 2023"; lit "Sep 2023"].

(** The "Raw PDF" anchor in column [col] of the results table. *)
Definition quarter_anchor (href : str) (col : nat) : Link :=
  {| l_text := lit ""; l_href := Some href; l_aria := Some (lit "Raw PDF");
     l_ancestors := []; l_headers := Some quarter_headers;
     l_cell := Some col |}.

Definition annual_text : str :=
  "Annual Report - Financial Year 2022 from BSE".

Definition annual_url : str := "https://www.bseindia.com/AR_2022.pdf".

Definition annual_link : Link := anchor annual_text (Some annual_url).

(** The same text on an anchor that has no target. *)
Definition annual_link_bare : Link := anchor annual_text None.

Definition rating_text : str := "Rating update from CRISIL 15 Jun 2023".

Definition rating_url : str := "https://www.crisil.com/rating.pdf".

Definition rating_link : Link := anchor rating_text (Some rating_url).

Definition transcript_old : Link :=
  concall_anchor "Transcript" "https://example.com/t1.pdf" "Aug 2023".

Definition transcript_new : Link :=
  concall_anchor "Transcript" "https://example.com/t2.pdf" "Aug 2023".

(** A transcript under a heading of the year 999, written on four
    digits, and the page that shows it with one of 2023. *)
Definition transcript_early : Link :=
  concall_anchor "Transcript" "https://example.com/t0.pdf" "Aug 0999".

Definition early_and_late : list Link := [transcript_early; transcript_new].

Definition quarter_url (n : Z) : str :=
  lit "https://www.screener.in/company/source/quarter/" ++ Text.of_int n.

(** Seven quarters, one anchor each. *)
Definition seven_quarters : list Link :=
  [quarter_anchor (quarter_url 1) 1; quarter_anchor (quarter_url 2) 2;
   quarter_anchor (quarter_url 3) 3; quarter_anchor (quarter_url 4) 4;
   quarter_anchor (quarter_url 5) 5; quarter_anchor (quarter_url 6) 6;
   quarter_anchor (quarter_url 7) 7].

(** Two cells of the table that point to the same file. *)
Definition repeated_quarter : list Link :=
  [quarter_anchor (quarter_url 1) 1; quarter_anchor (quarter_url 1) 2].

(** A server that answers every request with [n] bytes. *)
Definition serve (n : Z) : list str -> str -> Fetch.response :=
  fun _ _ => Fetch.Reply 200 [repeat Byte.x25 (Z.to_nat n)] true.

Definition any_path : str -> bool := fun _ => true.

(** A file system that looks every path up. *)
Definition no_stat_error : list str -> str -> bool := fun _ _ => false.

(** An empty disk and no request yet. *)
Definition fresh : Fetch.world := Fetch.World ∅ [] 0 0 0.

Definition company_dir : str := "/tmp/run/Reliance Industries".

Definition report_2022 : Annual.report := Annual.Report 2022 annual_url.

Definition report_path : str := Fetch.annual_path company_dir report_2022.

(** The world after the annual report has been fetched once from a server
    that sends [n] bytes. *)
Definition fetched_once (n : Z) : Fetch.world :=
  fst (Fetch.fetch_annual (serve n) any_path no_stat_error company_dir
         [report_2022] fresh).

End Sample.

(** A test run over a stretch of numbers. *)
Module Range.

(** [f] holds at [lo], [lo + 1], ..., [lo + n - 1]. *)
Fixpoint all (f : Z -> bool) (lo : Z) (n : nat) : bool :=
  match n with
  | O => true
  | S n' => f lo && all f (lo + 1) n'
  end.

(** The year [y] is printed on the four digits of [y]. *)
Definition four_digits (y : Z) : bool :=
  bool_decide (Text.of_int y = Text.fixed_digits 4 y).

(** The number [y] is printed with digits only, and with one at least. *)
Definition digits_only (y : Z) : bool :=
  forallb Text.is_digit (Text.of_int y) && Text.nonempty (Text.of_int y).

End Range.

(** The quarterly loop, one link at a time: what a link gives on its own. *)
Module QuarterlyStage.

Definition classify (link : Link) : option Quarterly.report :=
  let href := or_empty (l_href link) in
  let aria := or_empty (l_aria link) in
  if Text.contains "raw pdf" (Text.lower aria)
     && Text.contains "/company/source/quarter/" href
  then
    match l_headers link, l_cell link with
    | Some hdrs, Some ci =>
        match hdrs !! ci with
        | Some h =>
            match Re.search Re.month_year_re (Text.strip h) with
            | Some (_, [ms; yr]) =>
                match Calendar.month_of ms with
                | Some mo =>
                    match Calendar.mk_datetime (Text.int yr) mo 1 with
                    | Ok d =>
                        Some (Quarterly.Report d (ms ++ lit " " ++ yr)
                                (yr ++ lit "-" ++ Text.fixed_digits 2 mo)
                                href)
                    | Raise _ => None
                    end
                | None => None
                end
            | _ => None
            end
        | None => None
        end
    | _, _ => None
    end
  else None.

End QuarterlyStage.

(** The buckets, built from what the links give one by one. *)
Module ConcallStage.

Definition sightings (all_links : list Link) : list Concall.sighting :=
  omap Concall.classify all_links.

Definition collect (ss : list Concall.sighting) : gmap str Concall.bucket :=
  fold_left Concall.record_sighting ss ∅.

(** What the sightings [ss] say about the bucket under key [k]. *)
Definition describes (ss : list Concall.sighting) (k : str)
    (found : option Concall.bucket) : Prop :=
  match found with
  | None => forall s, s ∈ ss -> Concall.s_key s <> k
  | Some b =>
      (exists i s,
          ss !! i = Some s /\ Concall.s_key s = k
          /\ Concall.date b = Concall.s_date s
          /\ Concall.display b = Concall.s_display s
          /\ forall j s', (j < i)%nat -> ss !! j = Some s' ->
                          Concall.s_key s' <> k)
      /\ (forall u, Concall.transcript b = Some u ->
            exists s, s ∈ ss /\ Concall.s_key s = k
                      /\ Concall.s_is_t s = true /\ Concall.s_href s = u)
      /\ (Concall.transcript b = None ->
          forall s, s ∈ ss -> Concall.s_key s = k ->
                    Concall.s_is_t s = false)
      /\ (forall u, Concall.ppt b = Some u ->
            exists s, s ∈ ss /\ Concall.s_key s = k
                      /\ Concall.s_is_p s = true /\ Concall.s_href s = u)
      /\ (Concall.ppt b = None ->
          forall s, s ∈ ss -> Concall.s_key s = k ->
                    Concall.s_is_p s = false)
  end.

End ConcallStage.

(** What a run may do to the world. *)
Module Safety.

(** [q] lies in the folder [dir]. *)
Definition under (dir q : str) : Prop := exists rest, q = dir ++ lit "/" ++ rest.

(** From [w] to [w']: every new request goes to the target of one of the
    [links]; no file outside [dir] is changed; no counter goes down. *)
Definition stays (dir : str) (links : list Link) (w w' : Fetch.world)
    : Prop :=
  (forall u, u ∈ Fetch.requests w' ->
     u ∈ Fetch.requests w
     \/ exists link, link ∈ links /\ l_href link = Some u)
  /\ (forall q, ~ under dir q ->
        Fetch.files w' !! q = Fetch.files w !! q)
  /\ Fetch.downloaded_count w <= Fetch.downloaded_count w'
  /\ Fetch.skipped_count w <= Fetch.skipped_count w'
  /\ Fetch.failed_count w <= Fetch.failed_count w'.

(** A computation that always ends, with a result or an exception, and
    stays within these bounds. *)
Definition bounded (dir : str) (links : list Link) {A} (m : Fetch.M A)
    : Prop :=
  forall w, exists w' r, m w = (w', r) /\ stays dir links w w'.

End Safety.

(** The numbers of the summary. *)
Module Summary.

(** Downloaded, skipped and failed, added up. *)
Definition total (w : Fetch.world) : Z :=
  Fetch.downloaded_count w + Fetch.skipped_count w + Fetch.failed_count w.

(** [d["transcript"]] as a condition: there is a target and it is not
    empty. *)
Definition present (target : option str) : bool :=
  match target with
  | Some u => Text.nonempty u
  | None => false
  end.

(** The documents that the loop fetches for one bucket. *)
Definition wanted (d_transcripts d_presentations : bool)
    (b : Concall.bucket) : Z :=
  (if d_transcripts && present (Concall.transcript b) then 1 else 0)
  + (if d_presentations && present (Concall.ppt b) then 1 else 0).

Definition concall_documents (d_transcripts d_presentations : bool)
    (concalls_data : gmap str Concall.bucket) (keys : list str) : Z :=
  foldr
    (fun k n =>
       match concalls_data !! k with
       | Some b => wanted d_transcripts d_presentations b + n
       | None => n
       end)
    0 keys.

End Summary.

(** Dates that exist, and the years of the 400-year cycle. *)
Module Clock.

(** What the constructor of [datetime] accepts, with any time of day. *)
Definition valid (t : Calendar.datetime) : Prop :=
  1 <= Calendar.year t <= 9999
  /\ 1 <= Calendar.month t <= 12
  /\ 1 <= Calendar.day t
       <= Calendar.days_in_month (Calendar.year t) (Calendar.month t)
  /\ 0 <= Calendar.usec t < 86400000000.

(** The year that starts after [a] cycles of 400 years, [b] centuries,
    [c] groups of four years and [e] years. *)
Definition year_at (a b c e : Z) : Z := 400 * a + 100 * b + 4 * c + e + 1.

End Clock.

(** Servers that fail, and other inputs used to run the properties of the
    fetch loops and of the side bar. *)
Module Cases.

(** The clock at the start of a run. *)
Definition now : Calendar.datetime := Calendar.DateTime 2024 3 1 43200000000.

(** A server that answers every request with status 404. *)
Definition not_found : list str -> str -> Fetch.response :=
  fun _ _ => Fetch.Reply 404 [] true.

(** A server whose body stops after [n] bytes, before its end. *)
Definition body (n : Z) : list (list Byte.byte) :=
  [repeat Byte.x25 (Z.to_nat n)].

Definition cut_off (n : Z) : list str -> str -> Fetch.response :=
  fun _ _ => Fetch.Reply 200 (body n) false.

(** Every box ticked, with [num_annual] years of annual reports. *)
Definition all_ticked (num_annual : Z) : App.options :=
  {| App.d_annual := true; App.d_credit := true;
     App.d_transcripts := true; App.d_presentations := true;
     App.d_quarterly := true;
     App.num_annual := num_annual; App.num_credit := 1;
     App.num_concalls := 4; App.num_quarterly := 4 |}.

(** A page with one document of each kind. *)
Definition page : App.session :=
  {| App.now_annual := now; App.links_annual := [Sample.annual_link];
     App.now_credit := now; App.links_credit := [Sample.rating_link];
     App.links_concalls := [Sample.transcript_new];
     App.links_quarterly := Sample.seven_quarters |}.

(** The report of 2022 again, as the other exchange has it. *)
Definition report_2022_nse : Annual.report :=
  Annual.Report 2022 "https://www.nseindia.com/AR_2022.pdf".

(** A server that sends [n] bytes to the first request and [m] bytes to
    every later one. *)
Definition shrinking (n m : Z) : list str -> str -> Fetch.response :=
  fun requests _ =>
    match requests with
    | [] => Fetch.Reply 200 (body n) true
    | _ => Fetch.Reply 200 (body m) true
    end.

(** A search answer in which two companies carry the same name. *)
Definition search_results : list Sidebar.company :=
  [ Sidebar.Company "Reliance Industries" (Some (lit "/company/RELIANCE/"));
    Sidebar.Company "Reliance Power" (Some (lit "/company/RPOWER/"));
    Sidebar.Company "Reliance Power" (Some (lit "/company/RPOWER/consolidated/")) ].

(** Whether a name of the path [fp], between two separators, is longer
    than 255 bytes; [n] bytes of the name at hand have been read. *)
Fixpoint name_too_long (n : nat) (fp : str) : bool :=
  match fp with
  | [] => Nat.ltb 255 n
  | c :: rest =>
      if Text.is_char "/" c then Nat.ltb 255 n || name_too_long 0 rest
      else name_too_long (S n) rest
  end.

(** A file system whose names hold 255 bytes at most: a path with a longer
    name cannot be opened, and looking it up is refused. *)
Definition short_names : str -> bool := fun fp => negb (name_too_long 0 fp).

Definition long_name_refused : list str -> str -> bool :=
  fun _ fp => name_too_long 0 fp.

(** The folder of a company whose name has 256 letters, in the temporary
    folder of the run. *)
Definition long_company_dir : str :=
  lit "/tmp/tmpk3v9x2aa/" ++ repeat "A"%char (Z.to_nat 256).

End Cases.

(* ===================================================================== *)
(** * Properties                                                          *)
(* ===================================================================== *)

(** ** Text *)

Module TextFacts.
Import Text.

(** Bring both sides of an equation between concatenations to the same
    right-nested form. *)
Ltac list_norm :=
  repeat first [rewrite <- app_assoc | progress simpl]; reflexivity.

Lemma starts_with_spec p s :
  starts_with p s = true <-> exists post, s = p ++ post.
Proof.
  revert s. induction p as [|a p IH]; intros s; simpl.
  - split; eauto.
  - destruct s as [|b s].
    + split; [discriminate | intros [post H]; discriminate].
    + destruct (decide (a = b)) as [->|Hne].
      * rewrite IH. split; intros [post H]; exists post; simpl in *; congruence.
      * split; [discriminate | intros [post H]; simpl in H; congruence].
Qed.

Lemma contains_spec p s : contains p s = true <-> occurs_in p s.
Proof.
  unfold occurs_in. induction s as [|c s IH].
  - simpl. rewrite orb_false_r, starts_with_spec. split.
    + intros [post H]. exists [], post. exact H.
    + intros (pre & post & H). destruct pre; [eauto|discriminate].
  - change (contains p (c :: s))
      with (starts_with p (c :: s) || contains p s).
    rewrite orb_true_iff, starts_with_spec, IH. split.
    + intros [[post H]|(pre & post & H)].
      * exists [], post. exact H.
      * exists (c :: pre), post. simpl. congruence.
    + intros (pre & post & H). destruct pre as [|c' pre].
      * left. exists post. exact H.
      * right. exists pre, post. simpl in H. congruence.
Qed.

Lemma is_space_lower c : is_space (lower_char c) = is_space c.
Proof. destruct c as [[] [] [] [] [] [] [] []]; reflexivity. Qed.

Lemma lower_app a b : lower (a ++ b) = lower a ++ lower b.
Proof. apply map_app. Qed.

Lemma lstrip_lower s : lstrip (lower s) = lower (lstrip s).
Proof.
  induction s as [|c s IH]; simpl; [reflexivity|].
  rewrite is_space_lower. destruct (is_space c); [exact IH | reflexivity].
Qed.

Lemma rev_lower s : rev (lower s) = lower (rev s).
Proof. unfold lower. symmetry. apply map_rev. Qed.

Lemma strip_lower s : strip (lower s) = lower (strip s).
Proof.
  unfold strip, rstrip.
  now rewrite lstrip_lower, rev_lower, lstrip_lower, rev_lower.
Qed.

Lemma lstrip_spec s :
  exists ws, s = ws ++ lstrip s /\ Forall (fun c => is_space c = true) ws.
Proof.
  induction s as [|c s (ws & H & Hws)]; simpl.
  - exists []. split; [reflexivity | constructor].
  - destruct (is_space c) eqn:E.
    + exists (c :: ws). split; [simpl; congruence | constructor; assumption].
    + exists []. split; [reflexivity | constructor].
Qed.

Lemma strip_spec s :
  exists a b, s = a ++ strip s ++ b
              /\ Forall (fun c => is_space c = true) a
              /\ Forall (fun c => is_space c = true) b.
Proof.
  destruct (lstrip_spec s) as (a & Ha & Hsa).
  destruct (lstrip_spec (rev (lstrip s))) as (b & Hb & Hsb).
  exists a, (rev b). split; [|split].
  - unfold strip, rstrip. rewrite <- rev_app_distr, <- Hb, rev_involutive.
    exact Ha.
  - exact Hsa.
  - apply Forall_rev. exact Hsb.
Qed.

(** A non-blank character of [x ++ ...] that sits after a blank prefix. *)
Lemma blank_prefix_split (a x pre y : str) c :
  Forall (fun c => is_space c = true) a ->
  is_space c = false ->
  a ++ x = pre ++ c :: y ->
  exists pre', pre = a ++ pre'.
Proof.
  revert pre. induction a as [|d a IH]; intros pre Ha Hc H.
  - exists pre. reflexivity.
  - inversion Ha as [|? ? Hd Ha']; subst.
    destruct pre as [|e pre]; simpl in H.
    + injection H as -> _. congruence.
    + injection H as -> H. destruct (IH pre Ha' Hc H) as [pre' ->].
      exists pre'. reflexivity.
Qed.

Lemma blank_suffix_split (b x post y : str) c :
  Forall (fun c => is_space c = true) b ->
  is_space c = false ->
  x ++ b = y ++ c :: post ->
  exists post', post = post' ++ b.
Proof.
  intros Hb Hc H.
  assert (H' : rev b ++ rev x = rev post ++ c :: rev y).
  { rewrite <- rev_app_distr, H, rev_app_distr. simpl.
    now rewrite <- app_assoc. }
  apply blank_prefix_split in H' as [q Hq];
    [|apply Forall_rev; exact Hb | exact Hc].
  exists (rev q). apply (f_equal (@rev ascii)) in Hq.
  now rewrite rev_involutive, rev_app_distr, rev_involutive in Hq.
Qed.

(** A text with no blank at its ends, found in [a ++ t ++ b] with [a] and
    [b] blank, lies within [t]. *)
Lemma solid_window (a t b pre w post : str) :
  Shape.solid w ->
  Forall (fun c => is_space c = true) a ->
  Forall (fun c => is_space c = true) b ->
  a ++ t ++ b = pre ++ w ++ post ->
  exists pre' post',
    pre = a ++ pre' /\ post = post' ++ b /\ t = pre' ++ w ++ post'.
Proof.
  intros (c & m & d & -> & Hc & Hd) Ha Hb H.
  assert (H1 : a ++ (t ++ b) = pre ++ c :: (m ++ [d]) ++ post)
    by (rewrite H; reflexivity).
  destruct (blank_prefix_split _ _ _ _ _ Ha Hc H1) as [pre' ->].
  rewrite <- app_assoc in H1. apply app_inv_head in H1.
  assert (H2 : t ++ b = (pre' ++ c :: m) ++ d :: post)
    by (rewrite H1; list_norm).
  destruct (blank_suffix_split _ _ _ _ _ Hb Hd H2) as [post' ->].
  exists pre', post'. split; [reflexivity|]. split; [reflexivity|].
  apply (app_inv_tail b). rewrite H1. list_norm.
Qed.

(** Stripping a text does not change what it contains, for a text that
    neither starts nor ends with a blank. *)
Lemma occurs_in_strip w s :
  Shape.solid w -> occurs_in w (strip s) <-> occurs_in w s.
Proof.
  intros Hw. destruct (strip_spec s) as (a & b & Hs & Ha & Hb).
  remember (strip s) as t eqn:Et. clear Et.
  split; intros (pre & post & H).
  - exists (a ++ pre), (post ++ b). rewrite Hs, H. list_norm.
  - rewrite Hs in H.
    destruct (solid_window _ _ _ _ _ _ Hw Ha Hb H) as (pre' & post' & _ & _ & E).
    exists pre', post'. exact E.
Qed.

(** Nor which of them comes first. *)
Lemma first_strip (P : str -> Prop) w s :
  (forall w, P w -> Shape.solid w) ->
  Shape.first P w (strip s) <-> Shape.first P w s.
Proof.
  intros HP. destruct (strip_spec s) as (a & b & Hs & Ha & Hb).
  remember (strip s) as t eqn:Et. clear Et.
  split; intros (pre & post & H & Hw & Hleft).
  - exists (a ++ pre), (post ++ b). split; [rewrite Hs, H; list_norm|].
    split; [assumption|].
    intros pre' w' post' H' Hw'. rewrite Hs in H'.
    destruct (solid_window _ _ _ _ _ _ (HP _ Hw') Ha Hb H')
      as (p' & q' & -> & -> & E).
    specialize (Hleft _ _ _ E Hw'). rewrite !length_app. lia.
  - subst s.
    destruct (solid_window _ _ _ _ _ _ (HP _ Hw) Ha Hb H)
      as (p & q & -> & -> & E).
    exists p, q. split; [assumption|]. split; [assumption|].
    intros pre' w' post' H' Hw'.
    specialize (Hleft (a ++ pre') w' (post' ++ b)).
    rewrite !length_app in Hleft.
    assert (H0 : a ++ t ++ b = (a ++ pre') ++ w' ++ post' ++ b)
      by (rewrite H'; list_norm).
    specialize (Hleft H0 Hw'). lia.
Qed.

(** Two first occurrences of the same length are the same text. *)
Lemma first_unique (P : str -> Prop) w w' s :
  Shape.first P w s -> Shape.first P w' s ->
  length w = length w' -> w = w'.
Proof.
  intros (p & q & H & Hw & Hl) (p' & q' & H' & Hw' & Hl') Hlen.
  pose proof (Hl _ _ _ H' Hw'). pose proof (Hl' _ _ _ H Hw).
  assert (Hp : length p = length p') by lia.
  rewrite H in H'.
  apply app_inj_1 in H' as [_ H']; [|assumption].
  apply app_inj_1 in H' as [H' _]; assumption.
Qed.

Lemma digit_not_space c : is_digit c = true -> is_space c = false.
Proof. destruct c as [[] [] [] [] [] [] [] []]; vm_compute; congruence. Qed.

Lemma alpha_not_space c : is_alpha c = true -> is_space c = false.
Proof. destruct c as [[] [] [] [] [] [] [] []]; vm_compute; congruence. Qed.

Lemma word_not_space c : is_word c = true -> is_space c = false.
Proof. destruct c as [[] [] [] [] [] [] [] []]; vm_compute; congruence. Qed.

End TextFacts.

(** ** The matcher against the meaning of patterns *)

Module ReFacts.
Import Re.

Lemma run_bound p cap s n :
  (n <= run p cap s)%nat ->
  (n <= length s)%nat
  /\ Forall (fun c => p c = true) (take n s)
  /\ (forall h, cap = Some h -> (n <= h)%nat).
Proof.
  revert cap n. induction s as [|c s IH]; intros cap n Hn.
  - assert (n = O) as -> by (destruct cap as [[|h]|]; simpl in Hn; lia).
    split; [|split]; simpl; [lia | constructor | intros; lia].
  - destruct n as [|n].
    { split; [|split]; simpl; [lia | constructor | intros; lia]. }
    assert (Hc : p c = true /\ (n <= run p (Nat.pred <$> cap) s)%nat
                 /\ cap <> Some O).
    { destruct cap as [[|h]|]; simpl in Hn; try lia;
        destruct (p c); simpl in *; try lia;
        repeat split; try lia; congruence. }
    destruct Hc as (Hc & Hrun & Hcap).
    destruct (IH _ _ Hrun) as (Hlen & Hall & Hhi).
    split; [|split]; simpl.
    + lia.
    + constructor; assumption.
    + intros h ->. destruct h as [|h]; [congruence|].
      specialize (Hhi h eq_refl). lia.
Qed.

Lemma run_reaches p cap (w rest : str) :
  Forall (fun c => p c = true) w ->
  (forall h, cap = Some h -> (length w <= h)%nat) ->
  (length w <= run p cap (w ++ rest))%nat.
Proof.
  revert cap. induction w as [|c w IH]; intros cap Hall Hhi.
  - simpl. lia.
  - inversion Hall as [|? ? Hc Hall']; subst.
    assert (Hrec : (length w <= run p (Nat.pred <$> cap) (w ++ rest))%nat).
    { apply IH; [assumption|]. intros h Hh.
      destruct cap as [k|]; simpl in Hh; [|discriminate].
      injection Hh as <-. specialize (Hhi k eq_refl). simpl in Hhi. lia. }
    destruct cap as [[|k]|]; simpl.
    + specialize (Hhi O eq_refl). simpl in Hhi. lia.
    + rewrite Hc. simpl in Hrec. lia.
    + rewrite Hc. simpl in Hrec. lia.
Qed.

Lemma first_down_sound {R} (k : nat -> option R) lo d r :
  first_down k lo d = Some r ->
  exists n, (lo <= n <= lo + d)%nat /\ k n = Some r.
Proof.
  induction d as [|d IH]; simpl; intros H.
  - destruct (k (lo + 0)%nat) eqn:E; [|discriminate].
    injection H as ->. exists (lo + 0)%nat. split; [lia|assumption].
  - destruct (k (lo + S d)%nat) eqn:E.
    + injection H as ->. exists (lo + S d)%nat. split; [lia|assumption].
    + destruct (IH H) as (n & Hn & Hk). exists n. split; [lia|assumption].
Qed.

Lemma first_down_complete {R} (k : nat -> option R) lo d n :
  (lo <= n <= lo + d)%nat -> is_Some (k n) -> is_Some (first_down k lo d).
Proof.
  induction d as [|d IH]; simpl; intros Hn Hk.
  - replace (lo + 0)%nat with n by lia. destruct (k n); [eauto|].
    destruct Hk; discriminate.
  - destruct (k (lo + S d)%nat) eqn:E; [eauto|].
    apply IH; [|assumption].
    destruct (decide (n = (lo + S d)%nat)) as [->|]; [|lia].
    rewrite E in Hk. destruct Hk; discriminate.
Qed.

(** What the matcher returns is a match. *)
Lemma match_here_sound its s len caps :
  match_here its s = Some (len, caps) ->
  (len <= length s)%nat /\ matches its (take len s) caps.
Proof.
  revert s len caps. induction its as [|it its IH]; intros s len caps H.
  - injection H as <- <-. split; [lia|]. rewrite take_0. constructor.
  - simpl in H.
    destruct (run (cls it) (hi it) s <? lo it)%nat eqn:Hlo; [discriminate|].
    apply Nat.ltb_ge in Hlo.
    apply first_down_sound in H as (n & Hn & Hk).
    destruct (match_here its (drop n s)) as [[len' caps']|] eqn:Hrest;
      [|discriminate].
    injection Hk as <- <-.
    destruct (IH _ _ _ Hrest) as (Hlen & Hm).
    assert (Hrun : (n <= run (cls it) (hi it) s)%nat) by lia.
    destruct (run_bound _ _ _ _ Hrun) as (Hns & Hall & Hhi).
    rewrite length_drop in Hlen. split; [lia|].
    rewrite <- take_take_drop.
    constructor; try assumption.
    + rewrite length_take. lia.
    + intros h Hh. rewrite length_take. specialize (Hhi h Hh). lia.
Qed.

(** Where a match exists, the matcher finds one. *)
Lemma match_here_complete its w caps rest :
  matches its w caps -> is_Some (match_here its (w ++ rest)).
Proof.
  intros Hm. revert rest.
  induction Hm as [|it its w ws caps Hall Hlo Hhi Hm IH]; intros rest.
  - simpl. eauto.
  - simpl. rewrite <- app_assoc.
    pose proof (run_reaches (cls it) (hi it) w (ws ++ rest) Hall Hhi) as Hr.
    destruct (run (cls it) (hi it) (w ++ ws ++ rest) <? lo it)%nat eqn:E.
    { apply Nat.ltb_lt in E. lia. }
    apply first_down_complete with (n := length w); [lia|].
    rewrite drop_app_length.
    destruct (IH rest) as [[len' caps'] ->]. eauto.
Qed.

(** [search] returns an occurrence, and the leftmost one. *)
Lemma search_sound its s w caps :
  search its s = Some (w, caps) ->
  exists pre post,
    s = pre ++ w ++ post /\ matches its w caps
    /\ forall pre' w' post' caps',
         s = pre' ++ w' ++ post' -> matches its w' caps' ->
         (length pre <= length pre')%nat.
Proof.
  induction s as [|c s IH]; simpl.
  - destruct (match_here its []) as [[len caps0]|] eqn:E; [|discriminate].
    intros H. injection H as <- <-.
    apply match_here_sound in E as (_ & Hm).
    exists [], (drop len []). split; [|split].
    + change ([] = take len [] ++ drop len ([] : str)).
      now rewrite take_drop.
    + assumption.
    + intros. simpl. lia.
  - destruct (match_here its (c :: s)) as [[len caps0]|] eqn:E.
    + intros H. injection H as <- <-.
      apply match_here_sound in E as (_ & Hm).
      exists [], (drop len (c :: s)). split; [|split].
      * change (c :: s = take len (c :: s) ++ drop len (c :: s)).
        now rewrite take_drop.
      * assumption.
      * intros. simpl. lia.
    + intros H. destruct (IH H) as (pre & post & -> & Hm & Hleft).
      exists (c :: pre), post. split; [reflexivity|]. split; [assumption|].
      intros pre' w' post' caps' Heq Hm'.
      destruct pre' as [|c' pre'].
      * simpl in Heq. rewrite Heq in E.
        destruct (match_here_complete _ _ _ post' Hm') as [x Hx].
        rewrite Hx in E. discriminate.
      * simpl in Heq. injection Heq as _ Heq.
        specialize (Hleft _ _ _ _ Heq Hm'). simpl. lia.
Qed.

Lemma search_unfold its s :
  search its s =
  match match_here its s with
  | Some (len, caps) => Some (take len s, caps)
  | None => match s with [] => None | _ :: s' => search its s' end
  end.
Proof. destruct s; reflexivity. Qed.

Lemma search_complete its s : occurs its s -> is_Some (search its s).
Proof.
  intros (pre & w & post & caps & -> & Hm).
  induction pre as [|c pre IH]; rewrite search_unfold.
  - destruct (match_here_complete _ _ _ post Hm) as [[len caps'] Hx].
    simpl. rewrite Hx. eauto.
  - destruct (match_here its ((c :: pre) ++ w ++ post)) as [[len caps']|];
      eauto.
Qed.

Lemma search_occurs its s : is_Some (search its s) <-> occurs its s.
Proof.
  split; [|apply search_complete].
  intros [[w caps] H]. apply search_sound in H as (pre & post & ? & ? & _).
  exists pre, w, post, caps. split; assumption.
Qed.

(** The patterns on a few texts. *)
Example year_inside_a_number :
  Re.search Re.year_re "ref 12045 of 2019" = Some (lit "2045", []).
Proof. vm_compute. reflexivity. Qed.

Example day_takes_two_digits :
  Re.search Re.day_month_year_re "on 115 Jun 2023"
  = Some (lit "15 Jun 2023", [lit "15"; lit "Jun"; lit "2023"]).
Proof. vm_compute. reflexivity. Qed.

Example month_of_four_letters :
  Re.search Re.day_month_year_re "15 June 2023" = None.
Proof. vm_compute. reflexivity. Qed.

Example month_inside_a_word :
  Re.search Re.month_year_re "August  2023"
  = Some (lit "ust  2023", [lit "ust"; lit "2023"]).
Proof. vm_compute. reflexivity. Qed.

Example word_after_from :
  Re.search Re.from_re "fromage from   crisil-ltd"
  = Some (lit "from   crisil", [lit "crisil"]).
Proof. vm_compute. reflexivity. Qed.

End ReFacts.

(** ** The four patterns *)

Module PatternFacts.
Import Re Shape.

Lemma matches_nil_inv w caps : matches [] w caps -> w = [] /\ caps = [].
Proof. inversion 1. split; reflexivity. Qed.

Lemma matches_cons_inv it its w caps :
  matches (it :: its) w caps ->
  exists w1 ws caps',
    w = w1 ++ ws
    /\ all (cls it) w1
    /\ (lo it <= length w1)%nat
    /\ (forall h, hi it = Some h -> (length w1 <= h)%nat)
    /\ matches its ws caps'
    /\ caps = if grp it then w1 :: caps' else caps'.
Proof.
  inversion 1; subst. eexists _, _, _. repeat split; eauto.
Qed.

Lemma exactly_one (p : ascii -> bool) (w : str) :
  all p w -> (1 <= length w)%nat -> (length w <= 1)%nat ->
  exists c, w = [c] /\ p c = true.
Proof.
  intros Hall H1 H2. destruct w as [|c [|d w]]; simpl in *; try lia.
  exists c. split; [reflexivity|]. now inversion Hall.
Qed.

Lemma is_char_eq x c : Text.is_char x c = true -> c = x.
Proof. unfold Text.is_char. destruct (decide (x = c)); congruence. Qed.

Lemma is_char_refl x : Text.is_char x x = true.
Proof. unfold Text.is_char. destruct (decide (x = x)); congruence. Qed.

Lemma nonempty_length {A} (w : list A) : (1 <= length w)%nat <-> w <> [].
Proof. destruct w; simpl; split; intros; try congruence; lia. Qed.

(** Take the first item off a match and name its run. *)
Ltac peel H w :=
  let ws := fresh "tail" in
  let caps := fresh "groups" in
  let Hall := fresh "Hall" in
  let Hlo := fresh "Hlo" in
  let Hhi := fresh "Hhi" in
  let Hc := fresh "Hc" in
  apply matches_cons_inv in H
    as (w & ws & caps & -> & Hall & Hlo & Hhi & H & Hc);
  simpl in Hall, Hlo, Hhi, Hc.

(** A literal character of a pattern. *)
Ltac peel_char H :=
  let w := fresh "w" in
  let c := fresh "c" in
  let E := fresh "E" in
  peel H w;
  match goal with
  | Hall : all _ w, Hlo : (1 <= length w)%nat, Hhi : forall h, _ -> _ |- _ =>
      destruct (exactly_one _ _ Hall Hlo (Hhi _ eq_refl)) as (c & -> & E);
      apply is_char_eq in E; subst c; clear Hall Hlo Hhi
  end.

Lemma matches_intro it its (w ws : str) caps s caps' :
  s = w ++ ws ->
  caps' = (if grp it then w :: caps else caps) ->
  all (cls it) w ->
  (lo it <= length w)%nat ->
  (forall h, hi it = Some h -> (length w <= h)%nat) ->
  matches its ws caps ->
  matches (it :: its) s caps'.
Proof. intros -> ->. apply matches_cons. Qed.

(** Give the next item the run [w], leaving the groups [caps]. *)
Ltac feed w caps :=
  eapply (matches_intro _ _ w _ caps);
  [ first [reflexivity | symmetry; apply app_nil_r]
  | reflexivity
  | first [assumption | repeat constructor; apply is_char_refl]
  | simpl; lia
  | simpl; first [discriminate | intros ? [= <-]; lia]
  | ].

Ltac use_caps :=
  repeat match goal with
         | H : forall h, Some _ = Some h -> _ |- _ =>
             specialize (H _ eq_refl)
         end.

Lemma year_re_matches w caps :
  matches year_re w caps <-> year20 w /\ caps = [].
Proof.
  split.
  - intros H. unfold year_re in H. simpl in H.
    peel_char H. peel_char H. peel H w.
    apply matches_nil_inv in H as [-> ->]. subst. use_caps.
    destruct w as [|a [|b [|? ?]]]; simpl in *; try lia.
    inversion Hall as [|? ? Ha Hall']; subst.
    inversion Hall' as [|? ? Hb _]; subst.
    split; [|reflexivity]. exists a, b. repeat split; assumption.
  - intros [(a & b & -> & Ha & Hb) ->].
    unfold year_re. simpl.
    feed ["2"%char] (@nil str). feed ["0"%char] (@nil str).
    assert (all Text.is_digit [a; b]) by (repeat constructor; assumption).
    feed [a; b] (@nil str). constructor.
Qed.

Lemma day_month_year_re_matches w caps :
  matches day_month_year_re w caps <->
  exists day ms yr, caps = [day; ms; yr] /\ day_month_year day ms yr w.
Proof.
  split.
  - intros H. unfold day_month_year_re in H.
    peel H day. peel H ws1. peel H ms. peel H ws2. peel H yr.
    apply matches_nil_inv in H as [-> ->]. subst. use_caps.
    exists day, ms, yr. split; [reflexivity|].
    exists ws1, ws2. rewrite app_nil_r.
    unfold some. rewrite <- !nonempty_length.
    repeat split; try assumption; lia.
  - intros (day & ms & yr & -> & ws1 & ws2 & -> & Hd & Hdl & [Hs1 Hn1]
            & Hm & Hml & [Hs2 Hn2] & Hy & Hyl).
    apply nonempty_length in Hn1, Hn2. unfold day_month_year_re.
    feed day [ms; yr]. feed ws1 [ms; yr]. feed ms [yr]. feed ws2 [yr].
    feed yr (@nil str). constructor.
Qed.

Lemma month_year_re_matches w caps :
  matches month_year_re w caps <->
  exists ms yr, caps = [ms; yr] /\ month_year ms yr w.
Proof.
  split.
  - intros H. unfold month_year_re in H.
    peel H ms. peel H ws. peel H yr.
    apply matches_nil_inv in H as [-> ->]. subst. use_caps.
    exists ms, yr. split; [reflexivity|].
    exists ws. rewrite app_nil_r.
    unfold some. rewrite <- !nonempty_length.
    repeat split; try assumption; lia.
  - intros (ms & yr & -> & ws & -> & Hm & Hml & [Hs Hn] & Hy & Hyl).
    apply nonempty_length in Hn. unfold month_year_re.
    feed ms [yr]. feed ws [yr]. feed yr (@nil str). constructor.
Qed.

Lemma from_re_matches w caps :
  matches from_re w caps <-> exists tok, caps = [tok] /\ from_token tok w.
Proof.
  split.
  - intros H. unfold from_re in H. simpl in H.
    peel_char H. peel_char H. peel_char H. peel_char H.
    peel H ws. peel H tok.
    apply matches_nil_inv in H as [-> ->]. subst.
    exists tok. split; [reflexivity|].
    exists ws. rewrite app_nil_r.
    unfold some. rewrite <- !nonempty_length.
    repeat split; try assumption; lia.
  - intros (tok & -> & ws & -> & [Hs Hn] & [Ht Htn]).
    apply nonempty_length in Hn, Htn. unfold from_re. simpl.
    feed ["f"%char] [tok]. feed ["r"%char] [tok]. feed ["o"%char] [tok].
    feed ["m"%char] [tok]. feed ws [tok]. feed tok (@nil str). constructor.
Qed.

End PatternFacts.

(** ** Annual reports *)

Module AnnualFacts.
Import Shape TextFacts ReFacts PatternFacts.

Lemma year20_solid w : year20 w -> solid w.
Proof.
  intros (a & b & -> & Ha & Hb).
  exists "2"%char, ["0"%char; a], b. split; [reflexivity|].
  split; [reflexivity | now apply digit_not_space].
Qed.

Lemma year20_length w : year20 w -> length w = 4%nat.
Proof. intros (a & b & -> & _). reflexivity. Qed.

Lemma digit_val_range c :
  Text.is_digit c = true -> 0 <= Text.digit_val c <= 9.
Proof.
  unfold Text.is_digit, Text.between, Text.digit_val.
  rewrite andb_true_iff, !Z.leb_le. lia.
Qed.

(** The year read from a link lies in this century. *)
Lemma year20_range w : year20 w -> 2000 <= Text.int w <= 2099.
Proof.
  intros (a & b & -> & Ha & Hb).
  apply digit_val_range in Ha, Hb.
  change (Text.int (lit "20" ++ [a; b]))
    with (10 * (10 * (10 * (10 * 0 + Text.digit_val "2")
                      + Text.digit_val "0") + Text.digit_val a)
          + Text.digit_val b).
  change (Text.digit_val "2") with 2. change (Text.digit_val "0") with 0.
  lia.
Qed.

Lemma search_year_first s w caps :
  Re.search Re.year_re s = Some (w, caps) ->
  caps = [] /\ first year20 w s.
Proof.
  intros H. apply search_sound in H as (pre & post & -> & Hm & Hleft).
  apply year_re_matches in Hm as [Hw ->]. split; [reflexivity|].
  exists pre, post. split; [reflexivity|]. split; [assumption|].
  intros pre' w' post' E Hw'. apply (Hleft pre' w' post' []); [assumption|].
  apply year_re_matches. split; [assumption | reflexivity].
Qed.

Lemma search_year_of_first s w :
  first year20 w s -> Re.search Re.year_re s = Some (w, []).
Proof.
  intros Hf.
  destruct (search_complete Re.year_re s) as [[w' caps] E].
  { destruct Hf as (pre & post & -> & Hw & _).
    exists pre, w, post, []. split; [reflexivity|].
    apply year_re_matches. split; [assumption | reflexivity]. }
  destruct (search_year_first _ _ _ E) as [-> Hf'].
  rewrite E. f_equal. f_equal.
  apply (first_unique year20 w' w s); try assumption.
  destruct Hf as (_ & _ & _ & Hw & _), Hf' as (_ & _ & _ & Hw' & _).
  now rewrite !year20_length.
Qed.

Lemma solid_financial_year : solid (lit "financial year").
Proof.
  exists "f"%char, (lit "inancial yea"), "r"%char.
  repeat split; reflexivity.
Qed.

Lemma solid_from : solid (lit "from").
Proof. exists "f"%char, (lit "ro"), "m"%char. repeat split; reflexivity. Qed.

(** The test [p in text.lower()] on the stripped text reads the same on
    the text as the page has it. *)
Lemma contains_lower_strip p t :
  solid p ->
  Text.contains p (Text.lower (Text.strip t)) = true
  <-> Text.occurs_in p (Text.lower t).
Proof.
  intros Hp. rewrite contains_spec, <- strip_lower.
  now apply occurs_in_strip.
Qed.

Lemma app_one_neq {A} (l : list A) x : l ++ [x] <> l.
Proof.
  intros H. apply (f_equal (@length A)) in H.
  rewrite length_app in H. simpl in H. lia.
Qed.

Lemma too_old_spec c y :
  1 <= y <= 9999 ->
  Annual.too_old (Some c) y
  = Ok (Calendar.ltb (Calendar.DateTime y 12 31 0) c).
Proof.
  intros Hy. unfold Annual.too_old, Calendar.mk_datetime.
  unfold Calendar.MINYEAR, Calendar.MAXYEAR.
  replace (1 <=? y) with true by (symmetry; apply Z.leb_le; lia).
  replace (y <=? 9999) with true by (symmetry; apply Z.leb_le; lia).
  reflexivity.
Qed.

(** When one pass of the loop adds a report. *)
Lemma annual_step_emits_iff cutoff rs seen link r :
  Annual.step cutoff (rs, seen) link
  = (rs ++ [r], seen ∪ {[Annual.url r]})
  <->
  (exists w, first year20 w (l_text link) /\ Annual.year r = Text.int w)
  /\ Text.occurs_in "financial year" (Text.lower (l_text link))
  /\ Text.occurs_in "from" (Text.lower (l_text link))
  /\ l_href link = Some (Annual.url r)
  /\ Annual.url r <> []
  /\ (Annual.url r ∉ seen)
  /\ Annual.too_old cutoff (Annual.year r) = Ok false.
Proof.
  unfold Annual.step. split.
  - destruct (Re.search Re.year_re (Text.strip (l_text link)))
      as [[ym caps]|] eqn:Es;
      [|intros [= H _]; symmetry in H; now apply app_one_neq in H].
    destruct (l_href link) as [href|];
      [|intros [= H _]; symmetry in H; now apply app_one_neq in H].
    destruct (_ && _) eqn:Ec;
      [|intros [= H _]; symmetry in H; now apply app_one_neq in H].
    apply andb_prop in Ec as [Ec Eseen]. apply andb_prop in Ec as [Ec Ene].
    apply andb_prop in Ec as [Efy Efr]. apply negb_true_iff in Eseen.
    destruct (Annual.too_old cutoff (Text.int ym)) as [[|]|] eqn:Eold;
      try (intros [= H _]; symmetry in H; now apply app_one_neq in H).
    intros [= H _]. apply app_inv_head in H. injection H as <-. simpl.
    apply search_year_first in Es as [_ Hf].
    apply (proj1 (first_strip year20 _ _ year20_solid)) in Hf.
    apply contains_lower_strip in Efy; [|apply solid_financial_year].
    apply contains_lower_strip in Efr; [|apply solid_from].
    apply bool_decide_eq_false in Eseen.
    repeat split; try assumption.
    + exists ym. split; [assumption | reflexivity].
    + intros ->. discriminate.
  - intros ((w & Hf & Hy) & Hfy & Hfr & Hh & Hne & Hseen & Hold).
    apply (proj2 (first_strip year20 _ _ year20_solid)) in Hf.
    rewrite (search_year_of_first _ _ Hf), Hh.
    apply contains_lower_strip in Hfy; [|apply solid_financial_year].
    apply contains_lower_strip in Hfr; [|apply solid_from].
    rewrite Hfy, Hfr. simpl.
    destruct (Annual.url r) as [|c u] eqn:Eu; [congruence|]. simpl.
    rewrite bool_decide_eq_false_2 by assumption. simpl.
    rewrite <- Hy, Hold. destruct r as [y u']. simpl in *. now subst.
Qed.

(** A pass of the loop either adds one report or changes nothing. *)
Lemma annual_step_cases cutoff rs seen link :
  Annual.step cutoff (rs, seen) link = (rs, seen)
  \/ exists r,
       Annual.step cutoff (rs, seen) link
       = (rs ++ [r], seen ∪ {[Annual.url r]}).
Proof.
  unfold Annual.step.
  destruct (Re.search _ _) as [[ym caps]|]; [|now left].
  destruct (l_href link) as [href|]; [|now left].
  destruct (_ && _); [|now left].
  destruct (Annual.too_old _ _) as [[|]|]; try now left.
  right. now exists (Annual.Report (Text.int ym) href).
Qed.

End AnnualFacts.

(** ** Sorting *)

Module SortFacts.
Import Sort.

Section Desc.
Context {A : Type} (lt : A -> A -> bool).

Hypothesis lt_asym : forall a b, lt a b = true -> lt b a = false.
Hypothesis lt_negtrans :
  forall a b c, lt a b = false -> lt b c = false -> lt a c = false.

Lemma insert_desc_perm x l : Permutation (insert_desc lt x l) (x :: l).
Proof.
  induction l as [|y l IH]; simpl; [reflexivity|].
  destruct (lt x y); [|reflexivity].
  rewrite IH. apply perm_swap.
Qed.

Lemma sort_desc_perm l : Permutation (sort_desc lt l) l.
Proof.
  induction l as [|x l IH]; simpl; [reflexivity|].
  rewrite insert_desc_perm. now constructor.
Qed.

Lemma insert_desc_sorted x l :
  StronglySorted (not_below lt) l ->
  StronglySorted (not_below lt) (insert_desc lt x l).
Proof.
  induction 1 as [|y l Hs IH Hy]; simpl.
  - repeat constructor.
  - destruct (lt x y) eqn:E.
    + constructor; [assumption|].
      rewrite Forall_forall. intros z Hz.
      rewrite insert_desc_perm in Hz.
      apply elem_of_cons in Hz as [->|Hz]; [now apply lt_asym|].
      rewrite Forall_forall in Hy. now apply Hy.
    + constructor; [now constructor|].
      constructor; [exact E|].
      rewrite Forall_forall in *. intros z Hz.
      apply (lt_negtrans x y z); [exact E | now apply Hy].
Qed.

Lemma sort_desc_sorted l : StronglySorted (not_below lt) (sort_desc lt l).
Proof.
  induction l as [|x l IH]; simpl; [constructor|].
  now apply insert_desc_sorted.
Qed.

Lemma sort_desc_length l : length (sort_desc lt l) = length l.
Proof. apply Permutation_length, sort_desc_perm. Qed.

Lemma tie_exclusive x y z :
  lt x y = true -> tie lt z x = true -> tie lt z y = false.
Proof.
  unfold tie. intros Hxy Hzx.
  apply andb_prop in Hzx as [Hzx Hxz]. apply negb_true_iff in Hzx, Hxz.
  destruct (lt z y) eqn:Hzy; [reflexivity|].
  rewrite (lt_negtrans x z y Hxz Hzy) in Hxy. discriminate.
Qed.

Lemma insert_desc_ties z x l :
  List.filter (tie lt z) (insert_desc lt x l)
  = List.filter (tie lt z) (x :: l).
Proof.
  induction l as [|y l IH]; [reflexivity|].
  simpl insert_desc. destruct (lt x y) eqn:Hxy; [|reflexivity].
  simpl List.filter in *. rewrite IH.
  destruct (tie lt z x) eqn:Hzx; [|reflexivity].
  now rewrite (tie_exclusive x y z Hxy Hzx).
Qed.

(** The sort is stable: entries with equal keys keep their order.  With
    the two lemmas above this determines the sorted list, whatever the
    algorithm. *)
Lemma sort_desc_stable z l :
  List.filter (tie lt z) (sort_desc lt l) = List.filter (tie lt z) l.
Proof.
  induction l as [|x l IH]; [reflexivity|].
  simpl sort_desc. rewrite insert_desc_ties. simpl. now rewrite IH.
Qed.
End Desc.

Lemma sorted_impl {A} (R S : A -> A -> Prop) l :
  (forall a b, R a b -> S a b) ->
  StronglySorted R l -> StronglySorted S l.
Proof.
  intros HRS. induction 1 as [|x l Hs IH Hx]; constructor; [assumption|].
  rewrite Forall_forall in *. intros y Hy. now apply HRS, Hx.
Qed.

Lemma take_sorted {A} (R : A -> A -> Prop) n l :
  StronglySorted R l -> StronglySorted R (take n l).
Proof.
  intros H. revert n. induction H as [|x l Hs IH Hx]; intros [|n]; simpl;
    try constructor.
  - apply IH.
  - rewrite Forall_forall in *. intros y Hy. apply Hx.
    now apply (subseteq_take n l).
Qed.

Lemma limit_sorted {A} (R : A -> A -> Prop) num l :
  StronglySorted R l -> StronglySorted R (limit num l).
Proof.
  intros H. unfold limit. destruct (_ && _); [now apply take_sorted | exact H].
Qed.

End SortFacts.

(** ** Dates and targets *)

Module CalendarFacts.
Import Calendar.

Lemma date_ltb_spec a b :
  ltb a b = true <->
  year a < year b
  \/ (year a = year b
      /\ (month a < month b
          \/ (month a = month b
              /\ (day a < day b
                  \/ (day a = day b /\ usec a < usec b))))).
Proof.
  unfold ltb.
  repeat match goal with
         | |- context [?x <? ?y] =>
             let E := fresh in destruct (Z.ltb_spec x y) as [E|E]
         end; split; intros; try discriminate; try reflexivity; lia.
Qed.

Lemma date_ltb_false a b :
  ltb a b = false <->
  ~ (year a < year b
     \/ (year a = year b
         /\ (month a < month b
             \/ (month a = month b
                 /\ (day a < day b
                     \/ (day a = day b /\ usec a < usec b)))))).
Proof. rewrite <- date_ltb_spec. destruct (ltb a b); split; congruence. Qed.

Lemma date_ltb_asym a b : ltb a b = true -> ltb b a = false.
Proof. rewrite date_ltb_spec, date_ltb_false. lia. Qed.

Lemma date_ltb_negtrans a b c :
  ltb a b = false -> ltb b c = false -> ltb a c = false.
Proof. rewrite !date_ltb_false. lia. Qed.

Example leap_day : mk_datetime 2024 2 29 = Ok (DateTime 2024 2 29 0).
Proof. reflexivity. Qed.

Example no_leap_day : mk_datetime 2023 2 29 = Raise ValueError.
Proof. reflexivity. Qed.

Example a_year_back :
  minus_days (DateTime 2024 3 1 4500) 365 = Ok (DateTime 2023 3 2 4500).
Proof. vm_compute. reflexivity. Qed.

Example before_year_one :
  minus_days (DateTime 2024 3 1 0) (3000 * 365) = Raise OverflowError.
Proof. vm_compute. reflexivity. Qed.

End CalendarFacts.

Module DedupFacts.

Section Key.
Context {A : Type} (key : A -> str).

Lemma dedup_by_fresh seen l x :
  x ∈ dedup_by key seen l -> key x ∉ seen.
Proof.
  revert seen. induction l as [|y l IH]; intros seen; simpl.
  - intros H. inversion H.
  - destruct (bool_decide (key y ∈ seen)) eqn:E.
    + apply IH.
    + apply bool_decide_eq_false in E.
      intros [->|H]%elem_of_cons; [assumption|].
      apply IH in H. set_solver.
Qed.

Lemma dedup_by_nodup seen l : NoDup (map key (dedup_by key seen l)).
Proof.
  revert seen. induction l as [|y l IH]; intros seen; simpl.
  - constructor.
  - destruct (bool_decide (key y ∈ seen)); [apply IH|].
    simpl. apply NoDup_cons. split; [|apply IH].
    intros (z & Hz & Hin)%list_elem_of_fmap.
    apply dedup_by_fresh in Hin. set_solver.
Qed.
End Key.

End DedupFacts.

(** ** The annual scan as classify, filter, de-duplicate, sort *)

Module AnnualScan.
Import Annual.

Lemma annual_step_by_stage cutoff rs seen link :
  step cutoff (rs, seen) link =
  match classify link with
  | None => (rs, seen)
  | Some r =>
      if bool_decide (url r ∈ seen) then (rs, seen)
      else if recent cutoff r then (rs ++ [r], seen ∪ {[url r]})
      else (rs, seen)
  end.
Proof.
  unfold step, classify, recent.
  destruct (Re.search _ _) as [[ym caps]|]; [|reflexivity].
  destruct (l_href link) as [href|]; [|reflexivity].
  destruct (Text.contains "financial year" _); [|reflexivity].
  destruct (Text.contains "from" _); [|reflexivity].
  destruct (Text.nonempty href); [|reflexivity]. simpl.
  destruct (bool_decide (href ∈ seen)); [reflexivity|]. simpl.
  destruct (too_old cutoff (Text.int ym)) as [[|]|]; reflexivity.
Qed.

Lemma annual_fold_by_stage cutoff links rs seen :
  fst (fold_left (step cutoff) links (rs, seen))
  = rs ++ dedup_by url seen (recency_filter cutoff (omap classify links)).
Proof.
  revert rs seen. induction links as [|link links IH]; intros rs seen.
  - simpl. now rewrite app_nil_r.
  - change (fold_left (step cutoff) (link :: links) (rs, seen))
      with (fold_left (step cutoff) links (step cutoff (rs, seen) link)).
    rewrite annual_step_by_stage. simpl omap.
    destruct (classify link) as [r|]; [|apply IH].
    unfold recency_filter in *. simpl List.filter.
    destruct (recent cutoff r) eqn:Er; simpl dedup_by.
    + destruct (bool_decide (url r ∈ seen)); [apply IH|].
      rewrite IH. now rewrite <- app_assoc.
    + destruct (bool_decide (url r ∈ seen)); apply IH.
Qed.

(** The loop is the composition of the three stages. *)
Lemma annual_scan_by_stage cutoff links :
  scan cutoff links
  = dedup (recency_filter cutoff (omap classify links)).
Proof. unfold scan, dedup. now rewrite annual_fold_by_stage. Qed.

Lemma annual_filter_unlimited l : recency_filter None l = l.
Proof.
  unfold recency_filter. induction l as [|r l IH]; simpl; [reflexivity|].
  now rewrite IH.
Qed.

Lemma annual_scan_nodup cutoff links : NoDup (map url (scan cutoff links)).
Proof. rewrite annual_scan_by_stage. apply DedupFacts.dedup_by_nodup. Qed.

Lemma annual_ranked_perm cutoff links :
  Permutation (ranked cutoff links) (scan cutoff links).
Proof. apply SortFacts.sort_desc_perm. Qed.

Lemma annual_ranked_sorted cutoff links :
  StronglySorted (fun a b => year b <= year a) (ranked cutoff links).
Proof.
  unfold ranked.
  eapply SortFacts.sorted_impl;
    [|apply (SortFacts.sort_desc_sorted (fun a b => year a <? year b))].
  - intros a b H. unfold Sort.not_below in H. apply Z.ltb_ge in H. exact H.
  - intros a b H. apply Z.ltb_lt in H. apply Z.ltb_ge. lia.
  - intros a b c H1 H2. apply Z.ltb_ge in H1, H2. apply Z.ltb_ge. lia.
Qed.

Lemma annual_ranked_nodup cutoff links : NoDup (map url (ranked cutoff links)).
Proof.
  rewrite (Permutation_map url (annual_ranked_perm cutoff links)).
  apply annual_scan_nodup.
Qed.

(** What the text and the target of a link decide, on their own. *)
Lemma annual_classify_iff link r :
  classify link = Some r
  <->
  (exists w, Shape.first Shape.year20 w (l_text link) /\ year r = Text.int w)
  /\ Text.occurs_in "financial year" (Text.lower (l_text link))
  /\ Text.occurs_in "from" (Text.lower (l_text link))
  /\ l_href link = Some (url r)
  /\ url r <> [].
Proof.
  pose proof (AnnualFacts.annual_step_emits_iff None [] ∅ link r) as H.
  rewrite annual_step_by_stage in H.
  split.
  - intros Hc. rewrite Hc in H.
    rewrite bool_decide_eq_false_2 in H by apply not_elem_of_empty.
    destruct (proj1 H eq_refl) as (H1 & H2 & H3 & H4 & H5 & _).
    repeat split; assumption.
  - intros (H1 & H2 & H3 & H4 & H5).
    assert (Hs : match classify link with
                 | Some r0 =>
                     if bool_decide (url r0 ∈ (∅ : gset str)) then ([], ∅)
                     else if recent None r0
                          then ([] ++ [r0], ∅ ∪ {[url r0]})
                          else ([], ∅)
                 | None => ([], ∅)
                 end = ([] ++ [r], (∅ : gset str) ∪ {[url r]})).
    { apply H. repeat split; try assumption. apply not_elem_of_empty. }
    destruct (classify link) as [r0|]; [|discriminate].
    rewrite bool_decide_eq_false_2 in Hs by apply not_elem_of_empty.
    destruct (recent None r0); [|discriminate].
    injection Hs as Hs _. now subst.
Qed.

End AnnualScan.

(** ** The last item of a pattern takes all it can *)

Module GreedyFacts.
Import Re ReFacts.

Lemma run_stops p s c rest :
  drop (run p None s) s = c :: rest -> p c = false.
Proof.
  induction s as [|a s IH]; simpl; [discriminate|].
  destruct (p a) eqn:E; simpl.
  - exact IH.
  - intros [= -> _]. exact E.
Qed.

Lemma first_down_top {R} (k : nat -> option R) lo d r :
  k (lo + d)%nat = Some r -> first_down k lo d = Some r.
Proof. intros H. destruct d; simpl; now rewrite H. Qed.

Lemma greedy_end its p l g s len caps c rest :
  match_here (its ++ [Item p l None g]) s = Some (len, caps) ->
  drop len s = c :: rest -> p c = false.
Proof.
  revert s len caps. induction its as [|it its IH]; intros s len caps H Hd.
  - simpl in H.
    destruct (run p None s <? l)%nat eqn:E; [discriminate|].
    apply Nat.ltb_ge in E.
    rewrite (first_down_top _ _ _
               ((run p None s + 0)%nat,
                if g then [take (run p None s) s] else [])) in H.
    + injection H as <- _. rewrite Nat.add_0_r in Hd.
      now apply run_stops in Hd.
    + replace (l + (run p None s - l))%nat with (run p None s) by lia.
      reflexivity.
  - simpl in H.
    destruct (run (cls it) (hi it) s <? lo it)%nat; [discriminate|].
    apply first_down_sound in H as (n & _ & Hk).
    destruct (match_here (its ++ [Item p l None g]) (drop n s))
      as [[len' caps']|] eqn:Hrest; [|discriminate].
    injection Hk as <- _.
    apply (IH _ _ _ Hrest). now rewrite drop_drop.
Qed.

End GreedyFacts.

(** ** Credit ratings *)

Module CreditFacts.
Import Shape TextFacts ReFacts PatternFacts GreedyFacts.

Lemma search_sound_here its s w caps :
  Re.search its s = Some (w, caps) ->
  exists pre post,
    s = pre ++ w ++ post
    /\ Re.match_here its (w ++ post) = Some (length w, caps)
    /\ Re.matches its w caps
    /\ forall pre' w' post' caps',
         s = pre' ++ w' ++ post' -> Re.matches its w' caps' ->
         (length pre <= length pre')%nat.
Proof.
  induction s as [|c s IH]; rewrite search_unfold.
  - destruct (Re.match_here its []) as [[len caps0]|] eqn:E; [|discriminate].
    intros [= <- <-]. pose proof E as E'.
    apply match_here_sound in E' as (Hlen & Hm). simpl in Hlen.
    assert (len = O) as -> by lia.
    exists [], []. simpl. repeat split; try assumption. intros. lia.
  - destruct (Re.match_here its (c :: s)) as [[len caps0]|] eqn:E.
    + intros [= <- <-]. pose proof E as E'.
      apply match_here_sound in E' as (Hlen & Hm).
      exists [], (drop len (c :: s)).
      rewrite app_nil_l, take_drop, length_take_le by assumption.
      repeat split; try assumption. intros. simpl. lia.
    + intros H. destruct (IH H) as (pre & post & -> & Hh & Hm & Hleft).
      exists (c :: pre), post. repeat split; try assumption.
      intros pre' w' post' caps' Heq Hm'.
      destruct pre' as [|c' pre'].
      * simpl in Heq. rewrite Heq in E.
        destruct (match_here_complete _ _ _ post' Hm') as [x Hx].
        rewrite Hx in E. discriminate.
      * simpl in Heq. injection Heq as _ Heq.
        specialize (Hleft _ _ _ _ Heq Hm'). simpl. lia.
Qed.

Lemma from_token_solid tok w : from_token tok w -> solid w.
Proof.
  intros (ws & -> & _ & [Ht Hne]).
  destruct (exists_last Hne) as (m & d & ->).
  apply Forall_app in Ht as [_ Hd]. inversion Hd as [|? ? Hd' _]; subst.
  exists "f"%char, (lit "rom" ++ ws ++ m), d.
  split; [list_norm|]. split; [reflexivity | now apply word_not_space].
Qed.

Lemma dated_solid w : dated w -> solid w.
Proof.
  intros (day & ms & yr & ws1 & ws2 & -> & Hd & Hdl & _ & _ & _ & _ & Hy & Hyl).
  destruct day as [|c day]; [simpl in Hdl; lia|].
  assert (Hne : yr <> []) by (intros ->; discriminate).
  destruct (exists_last Hne) as (m & d & ->).
  inversion Hd as [|? ? Hc _]; subst.
  apply Forall_app in Hy as [_ Hy]. inversion Hy as [|? ? Hd' _]; subst.
  exists c, (day ++ ws1 ++ ms ++ ws2 ++ m), d.
  split; [list_norm|]. split; now apply digit_not_space.
Qed.

Lemma space_not_word c : Text.is_space c = true -> Text.is_word c = false.
Proof. destruct c as [[] [] [] [] [] [] [] []]; vm_compute; congruence. Qed.

(** What [re.search(r"from\s+(\w+)", s)] finds. *)
Lemma search_from_token s w caps :
  Re.search Re.from_re s = Some (w, caps) ->
  exists tok, caps = [tok] /\ token_after_from tok s.
Proof.
  intros H.
  apply search_sound_here in H as (pre & post & -> & Hh & Hm & Hleft).
  apply from_re_matches in Hm as (tok & -> & Htok).
  exists tok. split; [reflexivity|].
  exists pre, w, post. repeat split; try assumption.
  - destruct post as [|c post]; simpl; [exact I|].
    change Re.from_re
      with ((Re.literal "from" ++ [Re.plus Text.is_space])
              ++ [Re.Item Text.is_word 1 None true]) in Hh.
    eapply greedy_end; [exact Hh|]. now rewrite drop_app_length.
  - intros pre' w' post' tok' E Ht'.
    apply (Hleft pre' w' post' [tok']); [assumption|].
    apply from_re_matches. now exists tok'.
Qed.

Lemma search_from_none s :
  Re.search Re.from_re s = None ->
  forall tok w, from_token tok w -> ~ Text.occurs_in w s.
Proof.
  intros H tok w Ht (pre & post & E).
  destruct (search_complete Re.from_re s) as [x Hx]; [|congruence].
  exists pre, w, post, [tok]. split; [assumption|].
  apply from_re_matches. now exists tok.
Qed.

Lemma token_after_from_strip tok s :
  token_after_from tok (Text.strip s) -> token_after_from tok s.
Proof.
  destruct (strip_spec s) as (a & b & Hs & Ha & Hb).
  remember (Text.strip s) as t eqn:Et. clear Et. subst s.
  intros (pre & w & post & -> & Htok & Hend & Hleft).
  exists (a ++ pre), w, (post ++ b). split; [list_norm|].
  split; [assumption|]. split.
  - destruct post as [|c post]; simpl; [|exact Hend].
    destruct b as [|c b]; simpl; [exact I|].
    inversion Hb; subst. now apply space_not_word.
  - intros pre' w' post' tok' E Ht'.
    assert (E' : a ++ (pre ++ w ++ post) ++ b = pre' ++ w' ++ post')
      by (rewrite <- E; list_norm).
    destruct (solid_window _ _ _ _ _ _ (from_token_solid _ _ Ht') Ha Hb E')
      as (p' & q' & -> & -> & E2).
    specialize (Hleft _ _ _ _ E2 Ht'). rewrite !length_app. lia.
Qed.

(** The agency label: the word after "from", or "unknown". *)
Lemma agency_spec t :
  (exists tok,
      token_after_from tok (Text.lower t)
      /\ Credit.agency_of (Text.strip t) = tok)
  \/ ((forall tok w, from_token tok w -> ~ Text.occurs_in w (Text.lower t))
      /\ Credit.agency_of (Text.strip t) = lit "unknown").
Proof.
  unfold Credit.agency_of. rewrite <- strip_lower.
  destruct (Re.search Re.from_re (Text.strip (Text.lower t)))
    as [[w caps]|] eqn:E.
  - left. apply search_from_token in E as (tok & -> & Ht).
    exists tok. split; [now apply token_after_from_strip | reflexivity].
  - right. split; [|reflexivity].
    intros tok w Ht Ho. eapply search_from_none; [exact E | exact Ht |].
    apply occurs_in_strip; [eapply from_token_solid; exact Ht | exact Ho].
Qed.

Lemma search_dated_first s w caps :
  Re.search Re.day_month_year_re s = Some (w, caps) ->
  exists day ms yr,
    caps = [day; ms; yr] /\ day_month_year day ms yr w /\ first dated w s.
Proof.
  intros H. apply search_sound in H as (pre & post & -> & Hm & Hleft).
  apply day_month_year_re_matches in Hm as (day & ms & yr & -> & Hw).
  exists day, ms, yr. split; [reflexivity|]. split; [assumption|].
  exists pre, post. split; [reflexivity|].
  split; [now exists day, ms, yr|].
  intros pre' w' post' E (day' & ms' & yr' & Hw').
  apply (Hleft pre' w' post' [day'; ms'; yr']); [assumption|].
  apply day_month_year_re_matches. now exists day', ms', yr'.
Qed.

Lemma solid_rating : solid (lit "rating").
Proof. exists "r"%char, (lit "atin"), "g"%char. repeat split; reflexivity. Qed.

Lemma rating_update_has_rating s :
  Text.occurs_in "rating update" s -> Text.occurs_in "rating" s.
Proof.
  intros (pre & post & ->). exists pre, (lit " update" ++ post). list_norm.
Qed.

(** A pass of the loop either adds one rating or changes nothing. *)
Lemma credit_step_cases cutoff rs seen link :
  Credit.step cutoff (rs, seen) link = (rs, seen)
  \/ exists r,
       Credit.step cutoff (rs, seen) link
       = (rs ++ [r], seen ∪ {[Credit.url r]}).
Proof.
  unfold Credit.step.
  destruct (_ && _); [|now left].
  destruct (Re.search _ _) as [[w [|day [|ms [|yr [|? ?]]]]]|]; try now left.
  destruct (Calendar.month_of ms); [|now left].
  destruct (Calendar.mk_datetime _ _ _) as [rd|]; [|now left].
  destruct (before_cutoff cutoff rd); [now left|].
  right. now eexists (Credit.Rating rd _ _).
Qed.

(** What an added rating tells about the link it came from. *)
Lemma credit_step_accepts cutoff rs seen link r seen' :
  Credit.step cutoff (rs, seen) link = (rs ++ [r], seen') ->
  Text.occurs_in "rating" (Text.lower (l_text link))
  /\ Text.occurs_in "from" (Text.lower (l_text link))
  /\ (exists w day ms yr mo,
        first dated w (l_text link)
        /\ day_month_year day ms yr w
        /\ Calendar.month_of ms = Some mo
        /\ Calendar.mk_datetime (Text.int yr) mo (Text.int day)
           = Ok (Credit.date r))
  /\ Credit.agency r = Credit.agency_of (Text.strip (l_text link))
  /\ l_href link = Some (Credit.url r)
  /\ Credit.url r <> []
  /\ (Credit.url r ∉ seen)
  /\ before_cutoff cutoff (Credit.date r) = false.
Proof.
  unfold Credit.step.
  destruct (_ && _) eqn:Ec;
    [|intros [= H _]; symmetry in H; now apply AnnualFacts.app_one_neq in H].
  apply andb_prop in Ec as [Ec Eseen]. apply andb_prop in Ec as [Ec Ene].
  apply andb_prop in Ec as [Er Efr]. apply negb_true_iff in Eseen.
  apply bool_decide_eq_false in Eseen.
  destruct (Re.search _ _) as [[w caps]|] eqn:Es;
    [|intros [= H _]; symmetry in H; now apply AnnualFacts.app_one_neq in H].
  destruct (search_dated_first _ _ _ Es) as (day & ms & yr & -> & Hw & Hf).
  destruct (Calendar.month_of ms) as [mo|] eqn:Emo;
    [|intros [= H _]; symmetry in H; now apply AnnualFacts.app_one_neq in H].
  destruct (Calendar.mk_datetime _ _ _) as [rd|] eqn:Erd;
    [|intros [= H _]; symmetry in H; now apply AnnualFacts.app_one_neq in H].
  destruct (before_cutoff cutoff rd) eqn:Eb;
    [intros [= H _]; symmetry in H; now apply AnnualFacts.app_one_neq in H|].
  intros [= H _]. apply app_inv_head in H. injection H as <-. simpl.
  apply (proj1 (first_strip dated _ _ dated_solid)) in Hf.
  apply AnnualFacts.contains_lower_strip in Efr;
    [|apply AnnualFacts.solid_from].
  assert (Hr : Text.occurs_in "rating" (Text.lower (l_text link))).
  { apply orb_prop in Er as [Er|Er].
    - apply rating_update_has_rating.
      apply AnnualFacts.contains_lower_strip in Er; [exact Er|].
      exists "r"%char, (lit "ating updat"), "e"%char.
      repeat split; reflexivity.
    - apply AnnualFacts.contains_lower_strip in Er; [exact Er|].
      apply solid_rating. }
  destruct (l_href link) as [href|] eqn:Eh; simpl in *; [|discriminate].
  repeat split; try assumption.
  - exists w, day, ms, yr, mo. repeat split; assumption.
  - intros ->. discriminate.
Qed.

End CreditFacts.

(** ** The rating scan as classify, filter, de-duplicate, sort *)

Module CreditScan.
Import Credit.

Lemma credit_step_by_stage cutoff rs seen link :
  step cutoff (rs, seen) link =
  match classify link with
  | None => (rs, seen)
  | Some r =>
      if bool_decide (url r ∈ seen) then (rs, seen)
      else if before_cutoff cutoff (date r) then (rs, seen)
      else (rs ++ [r], seen ∪ {[url r]})
  end.
Proof.
  unfold step, classify.
  destruct (Text.contains "rating update" _ || Text.contains "rating" _);
    [|reflexivity].
  destruct (Text.contains "from" _); [|reflexivity].
  destruct (Text.nonempty (or_empty (l_href link))); [|reflexivity]. simpl.
  destruct (bool_decide (or_empty (l_href link) ∈ seen)) eqn:Eseen; simpl.
  - destruct (Re.search _ _) as [[w [|day [|ms [|yr [|? ?]]]]]|];
      try reflexivity.
    destruct (Calendar.month_of ms); [|reflexivity].
    destruct (Calendar.mk_datetime _ _ _); [|reflexivity].
    simpl. now rewrite Eseen.
  - destruct (Re.search _ _) as [[w [|day [|ms [|yr [|? ?]]]]]|];
      try reflexivity.
    destruct (Calendar.month_of ms); [|reflexivity].
    destruct (Calendar.mk_datetime _ _ _); [|reflexivity].
    simpl. now rewrite Eseen.
Qed.

Lemma credit_fold_by_stage cutoff links rs seen :
  fst (fold_left (step cutoff) links (rs, seen))
  = rs ++ dedup_by url seen (recency_filter cutoff (omap classify links)).
Proof.
  revert rs seen. induction links as [|link links IH]; intros rs seen.
  - simpl. now rewrite app_nil_r.
  - change (fold_left (step cutoff) (link :: links) (rs, seen))
      with (fold_left (step cutoff) links (step cutoff (rs, seen) link)).
    rewrite credit_step_by_stage. simpl omap.
    destruct (classify link) as [r|]; [|apply IH].
    unfold recency_filter in *. simpl List.filter.
    destruct (before_cutoff cutoff (date r)) eqn:Er; simpl dedup_by.
    + destruct (bool_decide (url r ∈ seen)); apply IH.
    + destruct (bool_decide (url r ∈ seen)); [apply IH|].
      rewrite IH. now rewrite <- app_assoc.
Qed.

(** The loop is the composition of the three stages. *)
Lemma credit_scan_by_stage cutoff links :
  scan cutoff links
  = dedup (recency_filter cutoff (omap classify links)).
Proof. unfold scan, dedup. now rewrite credit_fold_by_stage. Qed.

Lemma credit_filter_unlimited l : recency_filter None l = l.
Proof.
  unfold recency_filter. induction l as [|r l IH]; [reflexivity|].
  simpl. f_equal. exact IH.
Qed.

Lemma credit_scan_nodup cutoff links : NoDup (map url (scan cutoff links)).
Proof. rewrite credit_scan_by_stage. apply DedupFacts.dedup_by_nodup. Qed.

Lemma credit_ranked_perm cutoff links :
  Permutation (ranked cutoff links) (scan cutoff links).
Proof. apply SortFacts.sort_desc_perm. Qed.

Lemma credit_ranked_sorted cutoff links :
  StronglySorted (fun a b => Calendar.ltb (date a) (date b) = false)
    (ranked cutoff links).
Proof.
  unfold ranked.
  apply (SortFacts.sort_desc_sorted
           (fun a b => Calendar.ltb (date a) (date b))).
  - intros a b. apply CalendarFacts.date_ltb_asym.
  - intros a b c. apply CalendarFacts.date_ltb_negtrans.
Qed.

Lemma credit_ranked_nodup cutoff links : NoDup (map url (ranked cutoff links)).
Proof.
  rewrite (Permutation_map url (credit_ranked_perm cutoff links)).
  apply credit_scan_nodup.
Qed.

End CreditScan.

(** ** Transcripts and presentations *)

Module ConcallFacts.
Import Shape TextFacts ReFacts PatternFacts Concall.

Lemma search_month_first s w caps :
  Re.search Re.month_year_re s = Some (w, caps) ->
  exists ms yr,
    caps = [ms; yr] /\ month_year ms yr w /\ first month_dated w s.
Proof.
  intros H. apply search_sound in H as (pre & post & -> & Hm & Hleft).
  apply month_year_re_matches in Hm as (ms & yr & -> & Hw).
  exists ms, yr. split; [reflexivity|]. split; [assumption|].
  exists pre, post. split; [reflexivity|]. split; [now exists ms, yr|].
  intros pre' w' post' E (ms' & yr' & Hw').
  apply (Hleft pre' w' post' [ms'; yr']); [assumption|].
  apply month_year_re_matches. now exists ms', yr'.
Qed.

Lemma search_month_none s :
  Re.search Re.month_year_re s = None ->
  forall w, month_dated w -> ~ Text.occurs_in w s.
Proof.
  intros H w (ms & yr & Hw) (pre & post & E).
  destruct (search_complete Re.month_year_re s) as [x Hx]; [|congruence].
  exists pre, w, post, [ms; yr]. split; [assumption|].
  apply month_year_re_matches. now exists ms, yr.
Qed.

(** The first level with a month and a year decides. *)
Lemma context_date_some lv ms yr :
  context_date lv = Some (ms, yr) ->
  exists i t w,
    lv !! i = Some (Some t)
    /\ first month_dated w t /\ month_year ms yr w
    /\ forall j t', (j < i)%nat -> lv !! j = Some (Some t') -> undated t'.
Proof.
  induction lv as [|[t|] lv IH]; simpl; [discriminate| |].
  - destruct (Re.search Re.month_year_re t) as [[w caps]|] eqn:Es.
    + destruct (search_month_first _ _ _ Es) as (ms' & yr' & -> & Hw & Hf).
      intros [= <- <-]. exists O, t, w. repeat split; try assumption.
      intros j t' Hj. lia.
    + intros H. destruct (IH H) as (i & t0 & w & Hi & Hf & Hw & Hbefore).
      exists (S i), t0, w. repeat split; try assumption.
      intros [|j] t' Hj Ht'; simpl in Ht'.
      * injection Ht' as <-. exact (search_month_none _ Es).
      * apply (Hbefore j); [lia | assumption].
  - intros H. destruct (IH H) as (i & t0 & w & Hi & Hf & Hw & Hbefore).
    exists (S i), t0, w. repeat split; try assumption.
    intros [|j] t' Hj Ht'; simpl in Ht'; [discriminate|].
    apply (Hbefore j); [lia | assumption].
Qed.

Lemma context_date_none lv :
  (forall i t, lv !! i = Some (Some t) -> undated t) ->
  context_date lv = None.
Proof.
  induction lv as [|[t|] lv IH]; simpl; intros H; [reflexivity| |].
  - destruct (Re.search Re.month_year_re t) as [[w caps]|] eqn:Es.
    + destruct (search_month_first _ _ _ Es)
        as (ms & yr & -> & Hw & (pre & post & E & _)).
      exfalso. apply (H O t eq_refl w); [now exists ms, yr|].
      now exists pre, post.
    + apply IH. intros i t'. apply (H (S i)).
  - apply IH. intros i t'. apply (H (S i)).
Qed.

Lemma levels_lookup link i t :
  levels link !! i = Some (Some t)
  <-> (i < 3)%nat /\ l_ancestors link !! i = Some t.
Proof.
  unfold levels. split.
  - destruct i as [|[|[|i]]]; simpl; intros [= H]; split; (lia || exact H).
  - intros [Hi H]. destruct i as [|[|[|i]]]; simpl; try lia; now rewrite H.
Qed.

(** What an accepted link looks like. *)
Lemma classify_accepts link s :
  classify link = Some s ->
  ((Text.lower (Text.strip (l_text link)) = lit "transcript"
    /\ s_is_t s = true /\ s_is_p s = false)
   \/ (Text.lower (Text.strip (l_text link)) = lit "ppt"
       /\ s_is_t s = false /\ s_is_p s = true))
  /\ l_href link = Some (s_href s) /\ s_href s <> []
  /\ exists i t w ms yr mo,
       (i < 3)%nat /\ l_ancestors link !! i = Some t
       /\ first month_dated w t /\ month_year ms yr w
       /\ (forall j t', (j < i)%nat ->
             l_ancestors link !! j = Some t' -> undated t')
       /\ Calendar.month_of ms = Some mo
       /\ Calendar.mk_datetime (Text.int yr) mo 1 = Ok (s_date s)
       /\ s_key s = Calendar.strftime_Ym (s_date s)
       /\ s_display s = ms ++ lit " " ++ yr.
Proof.
  unfold classify.
  destruct (_ && _) eqn:Ec; [|discriminate].
  apply andb_prop in Ec as [Etp Ene].
  destruct (context_date (levels link)) as [[ms yr]|] eqn:Ecd; [|discriminate].
  destruct (Calendar.month_of ms) as [mo|] eqn:Emo; [|discriminate].
  destruct (Calendar.mk_datetime _ _ _) as [cd|] eqn:Ecd'; [|discriminate].
  intros [= <-]. cbn [s_is_t s_is_p s_href s_date s_key s_display].
  split; [|split; [|split]].
  - destruct (decide (Text.lower (Text.strip (l_text link))
                      = lit "transcript")) as [Ht|Ht].
    + left. split; [exact Ht|].
      split; [now apply bool_decide_eq_true|].
      apply bool_decide_eq_false. rewrite Ht. discriminate.
    + right.
      assert (Hp : Text.lower (Text.strip (l_text link)) = lit "ppt").
      { apply orb_prop in Etp as [E|E]; apply bool_decide_eq_true in E;
          [contradiction | exact E]. }
      split; [exact Hp|].
      split; [apply bool_decide_eq_false; exact Ht
             | apply bool_decide_eq_true; exact Hp].
  - destruct (l_href link); simpl in *; [reflexivity | discriminate].
  - intros E. rewrite E in Ene. discriminate.
  - apply context_date_some in Ecd as (i & t & w & Hi & Hf & Hw & Hb).
    apply levels_lookup in Hi as [Hi Ht].
    exists i, t, w, ms, yr, mo. repeat split; try assumption.
    intros j t' Hj Ht'. apply (Hb j t' Hj).
    apply levels_lookup. split; [lia | assumption].
Qed.

(** Without a month and a year within three levels the link is dropped. *)
Lemma classify_undated link :
  (forall i t, (i < 3)%nat -> l_ancestors link !! i = Some t -> undated t) ->
  classify link = None.
Proof.
  intros H. unfold classify. destruct (_ && _); [|reflexivity].
  rewrite context_date_none; [reflexivity|].
  intros i t [Hi Ht]%levels_lookup. now apply (H i).
Qed.

(** A link whose text is not one of the two words is dropped. *)
Lemma classify_other_text link :
  Text.lower (Text.strip (l_text link)) <> lit "transcript" ->
  Text.lower (Text.strip (l_text link)) <> lit "ppt" ->
  classify link = None.
Proof.
  intros Ht Hp. unfold classify.
  rewrite (bool_decide_eq_false_2 _ Ht), (bool_decide_eq_false_2 _ Hp).
  reflexivity.
Qed.

Lemma step_changes d link :
  step d link <> d -> exists s, classify link = Some s.
Proof.
  unfold step. destruct (classify link) as [s|]; [eauto | congruence].
Qed.

End ConcallFacts.

(** ** The order of texts and of printed dates *)

Module OrderFacts.
Import Text.

Lemma text_ltb_asym a b : ltb a b = true -> ltb b a = false.
Proof.
  revert b. induction a as [|x a IH]; intros [|y b]; simpl; try congruence.
  destruct (Z.ltb_spec (code x) (code y)), (Z.ltb_spec (code y) (code x));
    try congruence; try lia.
  apply IH.
Qed.

Lemma text_ltb_negtrans a b c :
  ltb a b = false -> ltb b c = false -> ltb a c = false.
Proof.
  revert b c. induction a as [|x a IH]; intros [|y b] [|z c]; simpl;
    try congruence.
  destruct (Z.ltb_spec (code x) (code y)), (Z.ltb_spec (code y) (code x)),
    (Z.ltb_spec (code y) (code z)), (Z.ltb_spec (code z) (code y)),
    (Z.ltb_spec (code x) (code z)), (Z.ltb_spec (code z) (code x));
    try congruence; try lia.
  apply IH.
Qed.

Lemma ltb_cons_same c x y : ltb (c :: x) (c :: y) = ltb x y.
Proof. simpl. now rewrite Z.ltb_irrefl. Qed.

Lemma code_digit_char d : 0 <= d <= 9 -> code (digit_char d) = 48 + d.
Proof.
  intros Hd. unfold code, digit_char.
  rewrite N_ascii_embedding by lia. lia.
Qed.

(** Numbers printed on the same number of digits compare as numbers. *)
Lemma ltb_fixed_digits w a b x y :
  0 <= a < 10 ^ Z.of_nat w -> 0 <= b < 10 ^ Z.of_nat w ->
  ltb (fixed_digits w a ++ x) (fixed_digits w b ++ y)
  = if a <? b then true else if b <? a then false else ltb x y.
Proof.
  revert a b x y. induction w as [|w IH]; intros a b x y Ha Hb.
  - simpl in *. assert (a = 0) by lia. assert (b = 0) by lia. subst.
    reflexivity.
  - rewrite Nat2Z.inj_succ, Z.pow_succ_r in Ha, Hb by lia.
    simpl fixed_digits. rewrite <- !app_assoc. simpl app.
    rewrite IH by (split; [apply Z.div_pos | apply Z.div_lt_upper_bound]; lia).
    simpl ltb.
    pose proof (Z.div_mod a 10 ltac:(lia)).
    pose proof (Z.div_mod b 10 ltac:(lia)).
    pose proof (Z.mod_pos_bound a 10 ltac:(lia)).
    pose proof (Z.mod_pos_bound b 10 ltac:(lia)).
    rewrite !code_digit_char by lia.
    repeat match goal with
           | |- context [?u <? ?v] =>
               let E := fresh in destruct (Z.ltb_spec u v) as [E|E]
           end; try reflexivity; lia.
Qed.

Lemma range_all f lo n :
  Range.all f lo n = true ->
  forall z, lo <= z < lo + Z.of_nat n -> f z = true.
Proof.
  revert lo. induction n as [|n IH]; intros lo H z Hz; [lia|].
  simpl in H. apply andb_prop in H as [H0 H].
  destruct (Z.eq_dec z lo) as [->|Hne]; [exact H0|].
  apply (IH (lo + 1) H). lia.
Qed.

(** From 1000 on a year is printed on four digits. *)
Lemma of_int_four_digits y :
  1000 <= y <= 9999 -> of_int y = fixed_digits 4 y.
Proof.
  intros Hy.
  assert (H : Range.all Range.four_digits 1000 (Z.to_nat 9000) = true)
    by (vm_compute; reflexivity).
  assert (Hc : Range.four_digits y = true)
    by (apply (range_all _ _ _ H); rewrite Z2Nat.id; lia).
  now apply bool_decide_eq_true in Hc.
Qed.

(** Keys of buckets compare as their year and month, from the year 1000
    on. *)
Lemma ltb_strftime_Ym a b :
  1000 <= Calendar.year a <= 9999 -> 1000 <= Calendar.year b <= 9999 ->
  0 <= Calendar.month a < 100 -> 0 <= Calendar.month b < 100 ->
  ltb (Calendar.strftime_Ym a) (Calendar.strftime_Ym b)
  = if Calendar.year a <? Calendar.year b then true
    else if Calendar.year b <? Calendar.year a then false
    else Calendar.month a <? Calendar.month b.
Proof.
  intros Hya Hyb Hma Hmb. unfold Calendar.strftime_Ym.
  rewrite !of_int_four_digits by assumption.
  rewrite ltb_fixed_digits by (simpl; lia).
  destruct (_ <? _); [reflexivity|]. destruct (_ <? _); [reflexivity|].
  replace (lit "-" ++ fixed_digits 2 (Calendar.month a))
    with ("-"%char :: (fixed_digits 2 (Calendar.month a) ++ []))
    by (now rewrite app_nil_r).
  replace (lit "-" ++ fixed_digits 2 (Calendar.month b))
    with ("-"%char :: (fixed_digits 2 (Calendar.month b) ++ []))
    by (now rewrite app_nil_r).
  rewrite ltb_cons_same, ltb_fixed_digits by (simpl; lia).
  destruct (Z.ltb_spec (Calendar.month a) (Calendar.month b));
    [reflexivity|]. now destruct (_ <? _).
Qed.

End OrderFacts.

(** ** The buckets of a scan *)

Module ConcallScan.
Import Concall ConcallFacts.

Lemma scan_app l1 l2 : scan (l1 ++ l2) = fold_left step l2 (scan l1).
Proof. unfold scan. apply fold_left_app. Qed.

Lemma record_transcript d s :
  s_is_t s = true ->
  exists b,
    record_sighting d s !! s_key s = Some b
    /\ transcript b = Some (s_href s).
Proof.
  intros Ht. unfold record_sighting. rewrite Ht, lookup_insert_eq.
  eexists. split; reflexivity.
Qed.

Lemma record_ppt d s :
  s_is_t s = false -> s_is_p s = true ->
  exists b,
    record_sighting d s !! s_key s = Some b /\ ppt b = Some (s_href s).
Proof.
  intros Ht Hp. unfold record_sighting. rewrite Ht, Hp, lookup_insert_eq.
  eexists. split; reflexivity.
Qed.

(** A pass that is no transcript of bucket [k] leaves its transcript. *)
Lemma step_keeps_transcript d link k u :
  (exists b, d !! k = Some b /\ transcript b = Some u) ->
  (forall s, classify link = Some s -> s_key s = k -> s_is_t s = false) ->
  exists b, step d link !! k = Some b /\ transcript b = Some u.
Proof.
  intros (b & Hb & Hu) Hno. unfold step.
  destruct (classify link) as [s|] eqn:Ec; [|eauto].
  unfold record_sighting.
  destruct (decide (s_key s = k)) as [Ek|Ek].
  - rewrite (Hno s eq_refl Ek), Ek, Hb, lookup_insert_eq.
    destruct (s_is_p s); eexists; (split; [reflexivity | exact Hu]).
  - rewrite lookup_insert_ne by assumption. eauto.
Qed.

Lemma step_keeps_ppt d link k u :
  (exists b, d !! k = Some b /\ ppt b = Some u) ->
  (forall s, classify link = Some s -> s_key s = k -> s_is_t s = true) ->
  exists b, step d link !! k = Some b /\ ppt b = Some u.
Proof.
  intros (b & Hb & Hu) Hno. unfold step.
  destruct (classify link) as [s|] eqn:Ec; [|eauto].
  unfold record_sighting.
  destruct (decide (s_key s = k)) as [Ek|Ek].
  - rewrite (Hno s eq_refl Ek), Ek, Hb, lookup_insert_eq.
    eexists; (split; [reflexivity | exact Hu]).
  - rewrite lookup_insert_ne by assumption. eauto.
Qed.

Lemma fold_keeps_transcript l d k u :
  (exists b, d !! k = Some b /\ transcript b = Some u) ->
  (forall y s, y ∈ l -> classify y = Some s -> s_key s = k ->
               s_is_t s = false) ->
  exists b, fold_left step l d !! k = Some b /\ transcript b = Some u.
Proof.
  revert d. induction l as [|y l IH]; intros d Hd Hno; [exact Hd|].
  simpl. apply IH.
  - apply step_keeps_transcript; [exact Hd|].
    intros s. apply Hno. left.
  - intros y' s Hy'. apply Hno. now right.
Qed.

Lemma fold_keeps_ppt l d k u :
  (exists b, d !! k = Some b /\ ppt b = Some u) ->
  (forall y s, y ∈ l -> classify y = Some s -> s_key s = k ->
               s_is_t s = true) ->
  exists b, fold_left step l d !! k = Some b /\ ppt b = Some u.
Proof.
  revert d. induction l as [|y l IH]; intros d Hd Hno; [exact Hd|].
  simpl. apply IH.
  - apply step_keeps_ppt; [exact Hd|].
    intros s. apply Hno. left.
  - intros y' s Hy'. apply Hno. now right.
Qed.

Lemma mk_datetime_ok y m d t :
  Calendar.mk_datetime y m d = Ok t ->
  t = Calendar.DateTime y m d 0
  /\ 1 <= y <= 9999 /\ 1 <= m <= 12
  /\ 1 <= d <= Calendar.days_in_month y m.
Proof.
  unfold Calendar.mk_datetime, Calendar.MINYEAR, Calendar.MAXYEAR.
  destruct (_ && _) eqn:E; [|discriminate].
  intros [= <-]. rewrite !andb_true_iff, !Z.leb_le in E.
  split; [reflexivity | lia].
Qed.

Lemma classify_key link s :
  classify link = Some s ->
  s_key s = Calendar.strftime_Ym (s_date s)
  /\ 1 <= Calendar.year (s_date s) <= 9999
  /\ 1 <= Calendar.month (s_date s) <= 12
  /\ Calendar.day (s_date s) = 1
  /\ Calendar.usec (s_date s) = 0.
Proof.
  intros H. apply classify_accepts in H
    as (_ & _ & _ & i & t & w & ms & yr & mo & _ & _ & _ & _ & _ & _
        & Hd & Hk & _).
  apply mk_datetime_ok in Hd as (Et & Hy & Hm & _).
  split; [exact Hk|]. rewrite Et. simpl. repeat split; lia.
Qed.

Lemma step_well_keyed d link : well_keyed d -> well_keyed (step d link).
Proof.
  intros Hd. unfold step.
  destruct (classify link) as [s|] eqn:Ec; [|exact Hd].
  apply classify_key in Ec. unfold record_sighting.
  intros k b. destruct (decide (s_key s = k)) as [<-|Ek].
  - rewrite lookup_insert_eq. intros [= <-].
    destruct (d !! s_key s) as [b0|] eqn:Eb.
    + specialize (Hd _ _ Eb).
      destruct (s_is_t s); [exact Hd|]. destruct (s_is_p s); exact Hd.
    + destruct (s_is_t s); [exact Ec|]. destruct (s_is_p s); exact Ec.
  - rewrite lookup_insert_ne by assumption. apply Hd.
Qed.

Lemma scan_well_keyed links : well_keyed (scan links).
Proof.
  unfold scan.
  assert (H : well_keyed (∅ : gmap str bucket)).
  { intros k b Hk. rewrite lookup_empty in Hk. discriminate. }
  revert H. generalize (∅ : gmap str bucket).
  induction links as [|l links IH]; intros d Hd; [exact Hd|].
  simpl. apply IH. now apply step_well_keyed.
Qed.

(** Under well-keyed buckets the order of keys is the order of dates. *)
Lemma key_order d k1 k2 b1 b2 :
  well_keyed d -> d !! k1 = Some b1 -> d !! k2 = Some b2 ->
  1000 <= Calendar.year (date b1) -> 1000 <= Calendar.year (date b2) ->
  Text.ltb k1 k2 = Calendar.ltb (date b1) (date b2).
Proof.
  intros Hd H1 H2 Hk1 Hk2.
  destruct (Hd _ _ H1) as (-> & Hy1 & Hm1 & Hd1 & Hu1).
  destruct (Hd _ _ H2) as (-> & Hy2 & Hm2 & Hd2 & Hu2).
  rewrite OrderFacts.ltb_strftime_Ym by lia.
  unfold Calendar.ltb. rewrite Hd1, Hd2, Hu1, Hu2.
  repeat match goal with
         | |- context [?u <? ?v] =>
             let E := fresh in destruct (Z.ltb_spec u v) as [E|E]
         end; try reflexivity; lia.
Qed.

Lemma limit_subseteq {A} num (l : list A) : limit num l ⊆ l.
Proof.
  unfold limit. destruct (_ && _); [apply subseteq_take | reflexivity].
Qed.

(** Every key handed to the fetch loop has its bucket. *)
Lemma sorted_dates_present num d k :
  k ∈ sorted_dates num d -> is_Some (d !! k).
Proof.
  unfold sorted_dates. intros H. apply limit_subseteq in H.
  rewrite (SortFacts.sort_desc_perm Text.ltb) in H.
  apply elem_of_elements, elem_of_dom in H. exact H.
Qed.

Lemma sorted_dates_keys num d :
  StronglySorted (Sort.not_below Text.ltb) (sorted_dates num d).
Proof.
  unfold sorted_dates. apply SortFacts.limit_sorted.
  apply SortFacts.sort_desc_sorted.
  - apply OrderFacts.text_ltb_asym.
  - apply OrderFacts.text_ltb_negtrans.
Qed.

Lemma sorted_dates_nodup num d : NoDup (sorted_dates num d).
Proof.
  unfold sorted_dates, limit.
  assert (H : NoDup (Sort.sort_desc Text.ltb (elements (dom d)))).
  { rewrite (SortFacts.sort_desc_perm Text.ltb). apply NoDup_elements. }
  destruct (_ && _); [|exact H].
  eapply sublist_NoDup; [exact H | apply sublist_take].
Qed.

(** The keys go from the latest month to the earliest when no bucket is
    older than the year 1000. *)
Lemma sorted_dates_by_date num links :
  (forall k b, scan links !! k = Some b -> 1000 <= Calendar.year (date b)) ->
  StronglySorted
    (fun k1 k2 =>
       forall b1 b2,
         scan links !! k1 = Some b1 -> scan links !! k2 = Some b2 ->
         Calendar.ltb (date b1) (date b2) = false)
    (sorted_dates num (scan links)).
Proof.
  intros Hyears.
  eapply SortFacts.sorted_impl; [|apply sorted_dates_keys].
  intros k1 k2 H b1 b2 H1 H2.
  rewrite <- (key_order _ _ _ _ _ (scan_well_keyed links) H1 H2
                (Hyears _ _ H1) (Hyears _ _ H2)).
  exact H.
Qed.

End ConcallScan.

(** ** Quarterly reports *)

Module QuarterlyFacts.
Import Quarterly.

Lemma ranked_all links :
  ranked 0 links
  = Sort.sort_desc (fun a b => Calendar.ltb (date a) (date b)) (scan links).
Proof. reflexivity. Qed.

Lemma ranked_all_perm links : Permutation (ranked 0 links) (scan links).
Proof. rewrite ranked_all. apply SortFacts.sort_desc_perm. Qed.

Lemma ranked_all_sorted links :
  StronglySorted (fun a b => Calendar.ltb (date a) (date b) = false)
    (ranked 0 links).
Proof.
  rewrite ranked_all.
  apply (SortFacts.sort_desc_sorted
           (fun a b => Calendar.ltb (date a) (date b))).
  - intros a b. apply CalendarFacts.date_ltb_asym.
  - intros a b c. apply CalendarFacts.date_ltb_negtrans.
Qed.

Lemma limit_positive {A} num (l : list A) :
  0 < num -> limit num l = take (Z.to_nat num) l.
Proof.
  intros H. unfold limit.
  destruct (Z.eqb_spec num 0); [lia|].
  destruct (Z.ltb_spec 0 num); [reflexivity | lia].
Qed.

Lemma limit_none {A} num (l : list A) : num <= 0 -> limit num l = l.
Proof.
  intros H. unfold limit.
  destruct (Z.eqb_spec num 0); [reflexivity|].
  destruct (Z.ltb_spec 0 num); [lia | reflexivity].
Qed.

Lemma ranked_limit num links :
  0 < num -> ranked num links = take (Z.to_nat num) (ranked 0 links).
Proof. intros H. unfold ranked at 1. now rewrite limit_positive. Qed.

Lemma quarterly_ranked_sorted num links :
  StronglySorted (fun a b => Calendar.ltb (date a) (date b) = false)
    (ranked num links).
Proof. apply SortFacts.limit_sorted, ranked_all_sorted. Qed.

Lemma sorted_app_order {A} (R : A -> A -> Prop) l1 l2 x y :
  StronglySorted R (l1 ++ l2) -> x ∈ l1 -> y ∈ l2 -> R x y.
Proof.
  induction l1 as [|a l1 IH]; simpl; intros H Hx Hy.
  - inversion Hx.
  - inversion H as [|? ? Hs Ha]; subst.
    apply elem_of_cons in Hx as [->|Hx]; [|now apply IH].
    rewrite Forall_forall in Ha. apply Ha.
    apply elem_of_app. now right.
Qed.

(** What the limit drops is not more recent than what it keeps. *)
Lemma ranked_most_recent num links x y :
  0 < num ->
  x ∈ ranked num links ->
  y ∈ drop (Z.to_nat num) (ranked 0 links) ->
  Calendar.ltb (date x) (date y) = false.
Proof.
  intros Hn Hx Hy. rewrite ranked_limit in Hx by assumption.
  apply (sorted_app_order _ _ _ x y
           (eq_ind_r (StronglySorted _)
              (ranked_all_sorted links)
              (take_drop (Z.to_nat num) (ranked 0 links)))
           Hx Hy).
Qed.

Lemma ranked_length num links :
  0 < num ->
  length (ranked num links)
  = Nat.min (Z.to_nat num) (length (scan links)).
Proof.
  intros H. rewrite ranked_limit, length_take by assumption.
  now rewrite (Permutation_length (ranked_all_perm links)).
Qed.

End QuarterlyFacts.

(** ** Fetch and persist *)

Module FetchFacts.
Import Fetch.

Section Environment.
Variable net : list str -> str -> response.
Variable writable : str -> bool.
Variable stat_fails : list str -> str -> bool.

Lemma write_chunks_requests fp chunks complete w :
  requests (fst (write_chunks fp chunks complete w)) = requests w.
Proof.
  revert w. induction chunks as [|c chunks IH]; intros w; simpl.
  - destruct complete; reflexivity.
  - unfold bind, write, with_files. simpl. now rewrite IH.
Qed.

Lemma write_chunks_complete fp chunks w c0 :
  files w !! fp = Some c0 ->
  write_chunks fp chunks true w
  = (set_files w (<[fp := c0 ++ concat chunks]> (files w)), Ok tt).
Proof.
  revert w c0. induction chunks as [|c chunks IH]; intros w c0 Hfp; simpl.
  - rewrite app_nil_r, insert_id by assumption. now destruct w.
  - unfold bind, write, with_files. rewrite Hfp. simpl.
    rewrite (IH _ (c0 ++ c)) by (simpl; apply lookup_insert_eq).
    unfold set_files. simpl.
    now rewrite insert_insert_eq, <- app_assoc.
Qed.

(** Every attempt asks the server exactly once. *)
Lemma download_file_requests url fp w :
  requests (fst (download_file net writable url fp w))
  = requests w ++ [url].
Proof.
  unfold download_file, try_except, download_body, bind, requests_get.
  destruct (net (requests w) url) as [|status chunks complete];
    [reflexivity|].
  unfold raise_for_status.
  destruct ((400 <=? status) && (status <? 600)); [reflexivity|].
  simpl. unfold mkdir_parent, open_wb.
  destruct (writable fp); [|reflexivity]. simpl.
  match goal with
  | |- context [write_chunks fp chunks complete ?w0] =>
      pose proof (write_chunks_requests fp chunks complete w0) as Hr;
      destruct (write_chunks fp chunks complete w0) as [w3 [[]|e]]
  end; simpl in Hr; [|exact Hr].
  unfold st_size. destruct (files w3 !! fp) as [content|] eqn:E;
    [|exact Hr].
  destruct (Z.of_nat (length content) <? 1000); [|exact Hr].
  unfold unlink. rewrite E. exact Hr.
Qed.

(** An attempt never lets an exception out. *)
Lemma download_file_total url fp w :
  exists w' b, download_file net writable url fp w = (w', Ok b).
Proof.
  unfold download_file, try_except.
  destruct (download_body net writable url fp w) as [w' [b|e]]; eauto.
Qed.

Lemma download_file_catches url fp w w' e :
  download_body net writable url fp w = (w', Raise e) ->
  download_file net writable url fp w = (w', Ok false).
Proof. intros H. unfold download_file, try_except. now rewrite H. Qed.

(** A successful attempt leaves a file of 1000 bytes or more. *)
Lemma download_file_true url fp w w' :
  download_file net writable url fp w = (w', Ok true) ->
  exists content,
    files w' !! fp = Some content /\ 1000 <= Z.of_nat (length content).
Proof.
  unfold download_file, try_except, download_body, bind, requests_get.
  destruct (net (requests w) url) as [|status chunks complete];
    [discriminate|].
  unfold raise_for_status.
  destruct ((400 <=? status) && (status <? 600)); [discriminate|].
  simpl. unfold mkdir_parent, open_wb.
  destruct (writable fp); [|discriminate]. simpl.
  match goal with
  | |- context [write_chunks fp chunks complete ?w0] =>
      destruct (write_chunks fp chunks complete w0) as [w3 [[]|e]]
  end; [|discriminate].
  unfold st_size. destruct (files w3 !! fp) as [content|] eqn:E;
    [|discriminate].
  destruct (Z.ltb_spec (Z.of_nat (length content)) 1000).
  - unfold unlink. rewrite E. discriminate.
  - intros [= <-]. eauto.
Qed.

(** The attempt when the server sends a whole body. *)
Lemma download_file_reply url fp w status chunks :
  net (requests w) url = Reply status chunks true ->
  (400 <=? status) && (status <? 600) = false ->
  writable fp = true ->
  download_file net writable url fp w
  = if Z.of_nat (length (concat chunks)) <? 1000
    then (World (delete fp (files w)) (requests w ++ [url])
            (downloaded_count w) (skipped_count w) (failed_count w),
          Ok false)
    else (World (<[fp := concat chunks]> (files w)) (requests w ++ [url])
            (downloaded_count w) (skipped_count w) (failed_count w),
          Ok true).
Proof.
  intros Hnet Hst Hw.
  unfold download_file, try_except, download_body, bind, requests_get.
  rewrite Hnet. unfold raise_for_status. rewrite Hst. simpl.
  unfold mkdir_parent, open_wb. rewrite Hw. simpl.
  rewrite (write_chunks_complete _ _ _ []) by (simpl; apply lookup_insert_eq).
  unfold st_size, set_files. simpl.
  rewrite insert_insert_eq, lookup_insert_eq.
  destruct (_ <? 1000); [|reflexivity].
  unfold unlink. simpl. rewrite lookup_insert_eq.
  unfold with_files. simpl. now rewrite delete_insert_eq.
Qed.

Lemma stat_raises_present fp w content :
  files w !! fp = Some content -> stat_raises writable stat_fails fp w = false.
Proof.
  intros H. unfold stat_raises.
  rewrite bool_decide_eq_false_2 by congruence. reflexivity.
Qed.

Lemma stat_raises_writable fp w :
  writable fp = true -> stat_raises writable stat_fails fp w = false.
Proof.
  intros H. unfold stat_raises. rewrite H. simpl.
  now rewrite andb_false_r.
Qed.

Lemma stat_raises_absent fp w :
  stat_raises writable stat_fails fp w = true ->
  files w !! fp = None /\ writable fp = false
  /\ stat_fails (requests w) fp = true.
Proof.
  unfold stat_raises. intros H.
  apply andb_prop in H as [H H3]. apply andb_prop in H as [H1 H2].
  apply bool_decide_eq_true in H1. apply negb_true_iff in H2. now split.
Qed.

(** When the existence check raises, the fetch raises with it, and
    nothing has happened. *)
Lemma fetch_raises min_size url fp w :
  stat_raises writable stat_fails fp w = true ->
  fetch net writable stat_fails min_size url fp w = (w, Raise OSError).
Proof.
  intros H. unfold fetch, bind, path_exists. now rewrite H.
Qed.

(** A fetch returns an outcome unless the existence check raises. *)
Lemma fetch_total min_size url fp w :
  stat_raises writable stat_fails fp w = false ->
  exists w' o, fetch net writable stat_fails min_size url fp w = (w', Ok o).
Proof.
  intros Hs. unfold fetch, bind, path_exists. rewrite Hs.
  destruct (bool_decide (is_Some (files w !! fp))) eqn:E.
  - apply bool_decide_eq_true in E as [content E].
    unfold st_size. rewrite E. simpl.
    destruct (min_size <? _); [simpl; eauto|].
    destruct (download_file_total url fp w) as (w' & b & ->).
    destruct b; simpl; eauto.
  - simpl.
    destruct (download_file_total url fp w) as (w' & b & ->).
    destruct b; simpl; eauto.
Qed.

(** A file that is there and large enough is left alone. *)
Lemma fetch_skips min_size url fp w content :
  files w !! fp = Some content ->
  min_size < Z.of_nat (length content) ->
  fetch net writable stat_fails min_size url fp w
  = (World (files w) (requests w) (downloaded_count w)
       (skipped_count w + 1) (failed_count w),
     Ok skipped_existing).
Proof.
  intros Hfp Hsize. unfold fetch, bind, path_exists, st_size.
  rewrite (stat_raises_present fp w content Hfp).
  rewrite bool_decide_eq_true_2 by eauto. simpl. rewrite Hfp. simpl.
  destruct (Z.ltb_spec min_size (Z.of_nat (length content))); [|lia].
  reflexivity.
Qed.

(** Otherwise the file is downloaded, and counted by the result. *)
Lemma fetch_attempts min_size url fp w :
  to_fetch min_size fp w ->
  stat_raises writable stat_fails fp w = false ->
  fetch net writable stat_fails min_size url fp w
  = let '(w', r) := download_file net writable url fp w in
    match r with
    | Ok true => (World (files w') (requests w') (downloaded_count w' + 1)
                    (skipped_count w') (failed_count w'), Ok downloaded)
    | Ok false => (World (files w') (requests w') (downloaded_count w')
                     (skipped_count w') (failed_count w' + 1), Ok failed)
    | Raise e => (w', Raise e)
    end.
Proof.
  unfold to_fetch. intros H Hs. unfold fetch, bind, path_exists, st_size.
  rewrite Hs.
  destruct (files w !! fp) as [content|] eqn:E.
  - rewrite bool_decide_eq_true_2 by eauto. simpl. rewrite E. simpl.
    destruct (Z.ltb_spec min_size (Z.of_nat (length content))); [lia|].
    destruct (download_file net writable url fp w) as [w' [[|]|e]];
      reflexivity.
  - rewrite bool_decide_eq_false_2 by (intros [? ?]; discriminate). simpl.
    destruct (download_file net writable url fp w) as [w' [[|]|e]];
      reflexivity.
Qed.

End Environment.

End FetchFacts.

(* ===================================================================== *)
(** * The claims                                                          *)
(* ===================================================================== *)

(** One loop over one candidate is one fetch. *)
Lemma for_each_one {A} net writable stat_fails min_size (u p : A -> str) x w :
  Fetch.for_each
    (fun x =>
       Fetch.bind (Fetch.fetch net writable stat_fails min_size (u x) (p x))
                (fun o => Fetch.ret [o]))
    [x] w
  = match Fetch.fetch net writable stat_fails min_size (u x) (p x) w with
    | (w', Ok o) => (w', Ok [o])
    | (w', Raise e) => (w', Raise e)
    end.
Proof.
  simpl. unfold Fetch.bind.
  destruct (Fetch.fetch net writable stat_fails min_size (u x) (p x) w)
    as [w' [o|e]];
    reflexivity.
Qed.

(** C1, as the code has it: when a fetch reports [downloaded], the file is
    on disk with at least 1000 bytes; and if it is larger than the
    threshold of the category (1000 bytes for transcripts and
    presentations, 5000 for the other three), the next fetch of the same
    destination reports [skipped_existing], asks the server nothing and
    leaves the disk as it is. *)
Theorem refetch_skips_large_file
    net writable stat_fails net' writable' stat_fails' min_size url url' fp
    w w1 :
  Fetch.fetch net writable stat_fails min_size url fp w
  = (w1, Ok Fetch.downloaded) ->
  exists content,
    Fetch.files w1 !! fp = Some content
    /\ 1000 <= Z.of_nat (length content)
    /\ (min_size < Z.of_nat (length content) ->
        exists w2,
          Fetch.fetch net' writable' stat_fails' min_size url' fp w1
          = (w2, Ok Fetch.skipped_existing)
          /\ Fetch.requests w2 = Fetch.requests w1
          /\ Fetch.files w2 = Fetch.files w1).
Proof.
  intros H.
  assert (Hfile : exists content,
             Fetch.files w1 !! fp = Some content
             /\ 1000 <= Z.of_nat (length content)).
  { unfold Fetch.fetch, Fetch.bind, Fetch.path_exists in H.
    destruct (Fetch.stat_raises writable stat_fails fp w); [discriminate|].
    destruct (bool_decide (is_Some (Fetch.files w !! fp))) eqn:E.
    - apply bool_decide_eq_true in E as [c0 E].
      unfold Fetch.st_size in H. rewrite E in H. simpl in H.
      destruct (min_size <? Z.of_nat (length c0)); [discriminate|].
      destruct (Fetch.download_file net writable url fp w)
        as [w' [[|]|e]] eqn:Ed; try discriminate.
      injection H as <-. simpl.
      now apply FetchFacts.download_file_true in Ed.
    - simpl in H.
      destruct (Fetch.download_file net writable url fp w)
        as [w' [[|]|e]] eqn:Ed; try discriminate.
      injection H as <-. simpl.
      now apply FetchFacts.download_file_true in Ed. }
  destruct Hfile as (content & Hc & Hlen).
  exists content. split; [exact Hc|]. split; [exact Hlen|].
  intros Hbig. eexists. split; [|split].
  - apply (FetchFacts.fetch_skips net' writable' stat_fails' min_size url'
             fp w1 content); assumption.
  - reflexivity.
  - reflexivity.
Qed.

Lemma refetch_skips_large_file_witness :
  exists content,
    Fetch.files (Sample.fetched_once 6000) !! Sample.report_path
    = Some content
    /\ 1000 <= Z.of_nat (length content)
    /\ (5000 < Z.of_nat (length content) ->
        exists w2,
          Fetch.fetch (Sample.serve 6000)
            Sample.any_path Sample.no_stat_error 5000
            Sample.annual_url Sample.report_path (Sample.fetched_once 6000)
          = (w2, Ok Fetch.skipped_existing)
          /\ Fetch.requests w2 = Fetch.requests (Sample.fetched_once 6000)
          /\ Fetch.files w2 = Fetch.files (Sample.fetched_once 6000)).
Proof.
  apply (refetch_skips_large_file (Sample.serve 6000)
           Sample.any_path Sample.no_stat_error
           (Sample.serve 6000) Sample.any_path Sample.no_stat_error 5000
           Sample.annual_url Sample.annual_url
           Sample.report_path Sample.fresh).
  vm_compute. reflexivity.
Defined.

(** C1 fails as stated: an annual report of 3000 bytes is downloaded, and
    the next run downloads it again with a second request. *)
Lemma refetch_downloads_small_file_again :
  snd (Fetch.fetch_annual (Sample.serve 3000)
         Sample.any_path Sample.no_stat_error
         Sample.company_dir [Sample.report_2022] Sample.fresh)
  = Ok [Fetch.downloaded]
  /\ snd (Fetch.fetch_annual (Sample.serve 3000)
            Sample.any_path Sample.no_stat_error
            Sample.company_dir [Sample.report_2022]
            (Sample.fetched_once 3000))
     = Ok [Fetch.downloaded]
  /\ Fetch.requests
       (fst (Fetch.fetch_annual (Sample.serve 3000)
               Sample.any_path Sample.no_stat_error
               Sample.company_dir [Sample.report_2022]
               (Sample.fetched_once 3000)))
     = [Sample.annual_url; Sample.annual_url].
Proof. vm_compute. repeat split. Qed.

(** The fetch of a destination that is missing or too small, from a server
    that sends a whole body of [n] bytes: below 1000 bytes the file is
    removed and the fetch has failed, from 1000 bytes on it is kept. *)
Lemma fetch_by_size net writable stat_fails min_size url fp w status
    chunks :
  Fetch.to_fetch min_size fp w ->
  net (Fetch.requests w) url = Fetch.Reply status chunks true ->
  (400 <=? status) && (status <? 600) = false ->
  writable fp = true ->
  Fetch.fetch net writable stat_fails min_size url fp w
  = if Z.of_nat (length (concat chunks)) <? 1000
    then (Fetch.World (delete fp (Fetch.files w)) (Fetch.requests w ++ [url])
            (Fetch.downloaded_count w) (Fetch.skipped_count w)
            (Fetch.failed_count w + 1),
          Ok Fetch.failed)
    else (Fetch.World (<[fp := concat chunks]> (Fetch.files w))
            (Fetch.requests w ++ [url])
            (Fetch.downloaded_count w + 1) (Fetch.skipped_count w)
            (Fetch.failed_count w),
          Ok Fetch.downloaded).
Proof.
  intros Hto Hnet Hst Hw.
  rewrite FetchFacts.fetch_attempts
    by (assumption || now apply FetchFacts.stat_raises_writable).
  rewrite (FetchFacts.download_file_reply net writable url fp w status chunks)
    by assumption.
  destruct (_ <? 1000); reflexivity.
Qed.

(** C2, as the code has it: in the annual, rating and quarterly loops a
    downloaded file of 4999 bytes is kept and reported [downloaded], just as
    one of 5000 bytes is; the 5000 of these loops only decides whether a
    file already on disk is skipped. *)
Theorem kept_at_4999_and_5000 net writable stat_fails url fp w status
    chunks :
  Fetch.to_fetch 5000 fp w ->
  net (Fetch.requests w) url = Fetch.Reply status chunks true ->
  (400 <=? status) && (status <? 600) = false ->
  writable fp = true ->
  Z.of_nat (length (concat chunks)) = 4999
  \/ Z.of_nat (length (concat chunks)) = 5000 ->
  exists w',
    Fetch.files w' !! fp = Some (concat chunks)
    /\ Fetch.fetch net writable stat_fails 5000 url fp w
       = (w', Ok Fetch.downloaded)
    /\ (forall dir rpt,
          Annual.url rpt = url -> Fetch.annual_path dir rpt = fp ->
          Fetch.fetch_annual net writable stat_fails dir [rpt] w
          = (w', Ok [Fetch.downloaded]))
    /\ (forall dir rat,
          Credit.url rat = url -> Fetch.rating_path dir rat = fp ->
          Fetch.fetch_ratings net writable stat_fails dir [rat] w
          = (w', Ok [Fetch.downloaded]))
    /\ (forall dir rpt,
          Quarterly.url rpt = url -> Fetch.quarterly_path dir rpt = fp ->
          Fetch.fetch_quarterly net writable stat_fails dir [rpt] w
          = (w', Ok [Fetch.downloaded])).
Proof.
  intros Hto Hnet Hst Hw Hn.
  pose proof (fetch_by_size net writable stat_fails 5000 url fp w status chunks
                Hto Hnet Hst Hw) as Hf.
  destruct (Z.ltb_spec (Z.of_nat (length (concat chunks))) 1000); [lia|].
  eexists. split; [|split; [exact Hf|]].
  - simpl. apply lookup_insert_eq.
  - split; [|split].
    + intros dir rpt <- <-. unfold Fetch.fetch_annual.
      rewrite (for_each_one net writable stat_fails 5000 Annual.url
                 (Fetch.annual_path dir)).
      now rewrite Hf.
    + intros dir rat <- <-. unfold Fetch.fetch_ratings.
      rewrite (for_each_one net writable stat_fails 5000 Credit.url
                 (Fetch.rating_path dir)).
      now rewrite Hf.
    + intros dir rpt <- <-. unfold Fetch.fetch_quarterly.
      rewrite (for_each_one net writable stat_fails 5000 Quarterly.url
                 (Fetch.quarterly_path dir)).
      now rewrite Hf.
Qed.

Lemma kept_at_4999_and_5000_witness :
  exists w',
    Fetch.files w' !! Sample.report_path
    = Some (concat [repeat Byte.x25 (Z.to_nat 4999)])
    /\ Fetch.fetch (Sample.serve 4999) Sample.any_path Sample.no_stat_error 5000
         Sample.annual_url Sample.report_path Sample.fresh
       = (w', Ok Fetch.downloaded)
    /\ (forall dir rpt,
          Annual.url rpt = Sample.annual_url ->
          Fetch.annual_path dir rpt = Sample.report_path ->
          Fetch.fetch_annual (Sample.serve 4999)
            Sample.any_path Sample.no_stat_error dir [rpt]
            Sample.fresh
          = (w', Ok [Fetch.downloaded]))
    /\ (forall dir rat,
          Credit.url rat = Sample.annual_url ->
          Fetch.rating_path dir rat = Sample.report_path ->
          Fetch.fetch_ratings (Sample.serve 4999)
            Sample.any_path Sample.no_stat_error dir [rat]
            Sample.fresh
          = (w', Ok [Fetch.downloaded]))
    /\ (forall dir rpt,
          Quarterly.url rpt = Sample.annual_url ->
          Fetch.quarterly_path dir rpt = Sample.report_path ->
          Fetch.fetch_quarterly (Sample.serve 4999)
            Sample.any_path Sample.no_stat_error dir [rpt]
            Sample.fresh
          = (w', Ok [Fetch.downloaded])).
Proof.
  apply (kept_at_4999_and_5000 (Sample.serve 4999)
           Sample.any_path Sample.no_stat_error
           Sample.annual_url Sample.report_path Sample.fresh 200
           [repeat Byte.x25 (Z.to_nat 4999)]).
  - exact I.
  - reflexivity.
  - reflexivity.
  - reflexivity.
  - left. vm_compute. reflexivity.
Defined.

(** C2 fails as stated: an annual report of 4999 bytes is reported
    [downloaded] and stays on disk. *)
Lemma annual_report_of_4999_bytes_kept :
  snd (Fetch.fetch_annual (Sample.serve 4999)
         Sample.any_path Sample.no_stat_error
         Sample.company_dir [Sample.report_2022] Sample.fresh)
  = Ok [Fetch.downloaded]
  /\ length <$> (Fetch.files (Sample.fetched_once 4999) !! Sample.report_path)
     = Some 4999%nat
  /\ Fetch.failed_count (Sample.fetched_once 4999) = 0.
Proof. vm_compute. repeat split. Qed.




(** C3, as the code has it: the annual and the rating lists handed to the
    fetch loops are sorted from the latest date to the earliest and name no
    target twice; the quarterly list is sorted from the latest to the
    earliest as well, but nothing keeps a target from appearing in it
    twice.  The concall keys are distinct, each has its bucket, and they
    are sorted from the greatest to the least as texts; this is the order
    of the dates when no bucket is older than the year 1000 (a year below
    1000 is printed with fewer digits, and "999-08" stands above
    "2023-08"). *)
Theorem ranked_lists_sorted
    (cutoff : option Calendar.datetime) (num : Z) (all_links : list Link) :
  (StronglySorted (fun a b => Annual.year b <= Annual.year a)
     (Annual.ranked cutoff all_links)
   /\ NoDup (map Annual.url (Annual.ranked cutoff all_links)))
  /\ (StronglySorted
        (fun a b => Calendar.ltb (Credit.date a) (Credit.date b) = false)
        (Credit.ranked cutoff all_links)
      /\ NoDup (map Credit.url (Credit.ranked cutoff all_links)))
  /\ StronglySorted
       (fun a b => Calendar.ltb (Quarterly.date a) (Quarterly.date b) = false)
       (Quarterly.ranked num all_links)
  /\ (StronglySorted (fun k1 k2 => Text.ltb k1 k2 = false)
        (Concall.sorted_dates num (Concall.scan all_links))
      /\ ((forall k b,
             Concall.scan all_links !! k = Some b ->
             1000 <= Calendar.year (Concall.date b)) ->
          StronglySorted
            (fun k1 k2 =>
               forall b1 b2,
                 Concall.scan all_links !! k1 = Some b1 ->
                 Concall.scan all_links !! k2 = Some b2 ->
                 Calendar.ltb (Concall.date b1) (Concall.date b2) = false)
            (Concall.sorted_dates num (Concall.scan all_links)))
      /\ NoDup (Concall.sorted_dates num (Concall.scan all_links))
      /\ Forall (fun k => is_Some (Concall.scan all_links !! k))
           (Concall.sorted_dates num (Concall.scan all_links))).
Proof.
  split; [|split; [|split; [|split; [|split; [|split]]]]].
  - split; [apply AnnualScan.annual_ranked_sorted
           | apply AnnualScan.annual_ranked_nodup].
  - split; [apply CreditScan.credit_ranked_sorted
           | apply CreditScan.credit_ranked_nodup].
  - apply QuarterlyFacts.quarterly_ranked_sorted.
  - apply ConcallScan.sorted_dates_keys.
  - apply ConcallScan.sorted_dates_by_date.
  - apply ConcallScan.sorted_dates_nodup.
  - rewrite Forall_forall. intros k. apply ConcallScan.sorted_dates_present.
Qed.

(** C3 fails as stated: two cells of the quarterly table that point to the
    same file give two entries with that target. *)
Lemma quarterly_list_repeats_url :
  map Quarterly.url (Quarterly.ranked 0 Sample.repeated_quarter)
  = [Sample.quarter_url 1; Sample.quarter_url 1]
  /\ ~ NoDup (map Quarterly.url (Quarterly.ranked 0 Sample.repeated_quarter)).
Proof.
  assert (E : map Quarterly.url (Quarterly.ranked 0 Sample.repeated_quarter)
              = [Sample.quarter_url 1; Sample.quarter_url 1])
    by (vm_compute; reflexivity).
  split; [exact E|]. rewrite E. intros H.
  apply NoDup_cons in H as [H _]. apply H. left.
Qed.

(** C4: with a history of 0 years the cutoff is absent, the date window
    lets every candidate through, and the scan is what classification and
    the [seen] set alone make of the page. *)
Theorem unlimited_history_keeps_all
    (now : Calendar.datetime) (all_links : list Link) :
  cutoff_date now 0 = Ok None
  /\ (forall cutoff,
        Annual.scan cutoff all_links
        = Annual.dedup
            (Annual.recency_filter cutoff (omap Annual.classify all_links)))
  /\ (forall cutoff,
        Credit.scan cutoff all_links
        = Credit.dedup
            (Credit.recency_filter cutoff (omap Credit.classify all_links)))
  /\ (forall l, Annual.recency_filter None l = l)
  /\ (forall l, Credit.recency_filter None l = l)
  /\ Annual.scan None all_links
     = Annual.dedup (omap Annual.classify all_links)
  /\ Credit.scan None all_links
     = Credit.dedup (omap Credit.classify all_links).
Proof.
  split; [reflexivity|].
  split; [intros; apply AnnualScan.annual_scan_by_stage|].
  split; [intros; apply CreditScan.credit_scan_by_stage|].
  split; [apply AnnualScan.annual_filter_unlimited|].
  split; [apply CreditScan.credit_filter_unlimited|].
  split.
  - now rewrite AnnualScan.annual_scan_by_stage,
      AnnualScan.annual_filter_unlimited.
  - now rewrite CreditScan.credit_scan_by_stage,
      CreditScan.credit_filter_unlimited.
Qed.

(** C5, as the code has it: the annual classifier gives a candidate exactly
    when the link text has a year "20dd", has "financial year" and "from"
    (in any case), and the link has a target that is not empty; the
    candidate carries the first such year of the text.  A pass of the loop
    adds it exactly when, besides, the target was not seen before and the
    report is not too old; too old means that December 31 of its year is
    before the cutoff.  The text "Annual Report - Financial Year 2022 from
    BSE" on a link with a new target gives a report for 2022. *)
Theorem annual_candidate_iff
    (cutoff : option Calendar.datetime) (rs : list Annual.report)
    (seen : gset str) (link : Link) (r : Annual.report) :
  (Annual.classify link = Some r
   <->
   (exists w,
       Shape.first Shape.year20 w (l_text link)
       /\ Annual.year r = Text.int w)
   /\ Text.occurs_in "financial year" (Text.lower (l_text link))
   /\ Text.occurs_in "from" (Text.lower (l_text link))
   /\ l_href link = Some (Annual.url r)
   /\ Annual.url r <> [])
  /\ (forall cutoff' all_links,
        Annual.scan cutoff' all_links
        = Annual.dedup
            (Annual.recency_filter cutoff'
               (omap Annual.classify all_links)))
  /\ (Annual.step cutoff (rs, seen) link
   = (rs ++ [r], seen ∪ {[Annual.url r]})
   <->
   (exists w,
       Shape.first Shape.year20 w (l_text link)
       /\ Annual.year r = Text.int w)
   /\ Text.occurs_in "financial year" (Text.lower (l_text link))
   /\ Text.occurs_in "from" (Text.lower (l_text link))
   /\ l_href link = Some (Annual.url r)
   /\ Annual.url r <> []
   /\ (Annual.url r ∉ seen)
   /\ Annual.too_old cutoff (Annual.year r) = Ok false)
  /\ (Annual.step cutoff (rs, seen) link = (rs, seen)
      \/ exists r',
           Annual.step cutoff (rs, seen) link
           = (rs ++ [r'], seen ∪ {[Annual.url r']}))
  /\ (forall w, Shape.year20 w -> 2000 <= Text.int w <= 2099)
  /\ (forall y, Annual.too_old None y = Ok false)
  /\ (forall c y,
        1 <= y <= 9999 ->
        Annual.too_old (Some c) y
        = Ok (Calendar.ltb (Calendar.DateTime y 12 31 0) c))
  /\ (l_text link = Sample.annual_text ->
      l_href link = Some (Annual.url r) ->
      Annual.url r <> [] ->
      Annual.url r ∉ seen ->
      Annual.too_old cutoff 2022 = Ok false ->
      Annual.step cutoff (rs, seen) link
      = (rs ++ [Annual.Report 2022 (Annual.url r)],
         seen ∪ {[Annual.url r]})).
Proof.
  split; [apply AnnualScan.annual_classify_iff|].
  split; [intros; apply AnnualScan.annual_scan_by_stage|].
  split; [apply AnnualFacts.annual_step_emits_iff|].
  split; [apply AnnualFacts.annual_step_cases|].
  split; [apply AnnualFacts.year20_range|].
  split; [reflexivity|].
  split; [apply AnnualFacts.too_old_spec|].
  intros Ht Hh Hne Hseen Hold.
  apply (AnnualFacts.annual_step_emits_iff cutoff rs seen link
           (Annual.Report 2022 (Annual.url r))).
  simpl. rewrite Ht.
  split; [|split; [|split; [|split; [|split; [|split]]]]];
    try assumption.
  - exists (lit "2022"). split; [|reflexivity].
    apply (AnnualFacts.search_year_first Sample.annual_text (lit "2022") []).
    vm_compute. reflexivity.
  - apply TextFacts.contains_spec. vm_compute. reflexivity.
  - apply TextFacts.contains_spec. vm_compute. reflexivity.
Qed.

Lemma annual_candidate_iff_witness :
  Annual.step None ([], ∅) Sample.annual_link
  = ([] ++ [Annual.Report 2022 Sample.annual_url],
     ∅ ∪ {[Sample.annual_url]}).
Proof.
  apply (proj2 (proj2 (proj2 (proj2 (proj2 (proj2 (proj2
           (annual_candidate_iff None [] ∅ Sample.annual_link
              Sample.report_2022)))))))).
  - reflexivity.
  - reflexivity.
  - discriminate.
  - apply not_elem_of_empty.
  - reflexivity.
Defined.

(** C5 fails as stated: the same text on an anchor without a target has the
    year, "financial year" and "from", and gives no report. *)
Lemma annual_link_without_target_dropped :
  (exists w,
      Shape.first Shape.year20 w (l_text Sample.annual_link_bare)
      /\ Text.int w = 2022)
  /\ Text.occurs_in "financial year"
       (Text.lower (l_text Sample.annual_link_bare))
  /\ Text.occurs_in "from" (Text.lower (l_text Sample.annual_link_bare))
  /\ Annual.step None ([], ∅) Sample.annual_link_bare = ([], ∅)
  /\ Annual.scan None [Sample.annual_link_bare] = [].
Proof.
  split; [|split; [|split; [|split]]].
  - exists (lit "2022"). split; [|reflexivity].
    apply (AnnualFacts.search_year_first Sample.annual_text (lit "2022") []).
    vm_compute. reflexivity.
  - apply TextFacts.contains_spec. vm_compute. reflexivity.
  - apply TextFacts.contains_spec. vm_compute. reflexivity.
  - reflexivity.
  - reflexivity.
Qed.

(** The sample rating text, on any link with a target. *)
Lemma classify_rating_text link href :
  l_text link = Sample.rating_text ->
  l_href link = Some href ->
  href <> [] ->
  Credit.classify link
  = Some (Credit.Rating (Calendar.DateTime 2023 6 15 0) href (lit "crisil")).
Proof.
  intros Ht Hh Hne. unfold Credit.classify. rewrite Ht, Hh.
  destruct href as [|c u]; [congruence|].
  vm_compute. reflexivity.
Qed.



(** C7, as the code has it: the concall loop takes a link only if its
    text, once the white space around it is trimmed and the rest put in
    lower case, is exactly "transcript" or exactly "ppt", and three
    letters, blanks and four digits that make a month and a year stand in
    the text of one of the first three ancestors; the nearest ancestor that
    has such a place decides.  A link with one of the two words and no such
    place within three levels is dropped, and so is a link whose trimmed
    text is not one of the two words, for one that merely contains them. *)
Theorem concall_link_only_if (link : Link) :
  (forall s,
      Concall.classify link = Some s ->
      ((Text.lower (Text.strip (l_text link)) = lit "transcript"
        /\ Concall.s_is_t s = true /\ Concall.s_is_p s = false)
       \/ (Text.lower (Text.strip (l_text link)) = lit "ppt"
           /\ Concall.s_is_t s = false /\ Concall.s_is_p s = true))
      /\ exists i t w ms yr mo,
           (i < 3)%nat /\ l_ancestors link !! i = Some t
           /\ Shape.first Shape.month_dated w t
           /\ Shape.month_year ms yr w
           /\ (forall j t', (j < i)%nat ->
                 l_ancestors link !! j = Some t' -> Shape.undated t')
           /\ Calendar.month_of ms = Some mo
           /\ Concall.s_date s = Calendar.DateTime (Text.int yr) mo 1 0)
  /\ ((forall i t, (i < 3)%nat ->
         l_ancestors link !! i = Some t -> Shape.undated t) ->
      Concall.classify link = None)
  /\ (Text.lower (Text.strip (l_text link)) <> lit "transcript" ->
      Text.lower (Text.strip (l_text link)) <> lit "ppt" ->
      Concall.classify link = None)
  /\ (forall concalls_data,
        Concall.classify link = None ->
        Concall.step concalls_data link = concalls_data).
Proof.
  split; [|split; [|split]].
  - intros s H.
    apply ConcallFacts.classify_accepts in H
      as (Htext & _ & _ & i & t & w & ms & yr & mo & Hi & Ht & Hf & Hw & Hb
          & Hmo & Hd & _).
    split; [exact Htext|].
    exists i, t, w, ms, yr, mo.
    apply ConcallScan.mk_datetime_ok in Hd as (Hd & _).
    repeat split; assumption.
  - apply ConcallFacts.classify_undated.
  - apply ConcallFacts.classify_other_text.
  - intros d H. unfold Concall.step. now rewrite H.
Qed.

Lemma concall_link_only_if_witness :
  Concall.classify
    (Sample.concall_anchor "Transcript" Sample.annual_url "no date here")
  = None
  /\ Concall.classify
       (Sample.concall_anchor "Transcript of the call" Sample.annual_url
          "Aug 2023")
     = None.
Proof.
  split.
  - apply (proj1 (proj2 (concall_link_only_if
                           (Sample.concall_anchor "Transcript"
                              Sample.annual_url "no date here")))).
    intros i t Hi Ht.
    destruct i as [|[|[|i]]]; simpl in Ht; try discriminate;
      injection Ht as <-;
      refine (ConcallFacts.search_month_none _ _); vm_compute; reflexivity.
  - apply (proj1 (proj2 (proj2 (concall_link_only_if
                                  (Sample.concall_anchor
                                     "Transcript of the call"
                                     Sample.annual_url "Aug 2023")))));
      vm_compute; discriminate.
Defined.

(** C7 fails as stated: a link whose text is " Transcript ", with a blank
    on either side, is taken as a transcript, though its text does not
    equal "transcript" in any case. *)
Lemma padded_transcript_is_taken :
  Concall.classify
    (Sample.concall_anchor " Transcript " Sample.annual_url "Aug 2023")
  = Some (Concall.Sighting (lit "2023-08") (Calendar.DateTime 2023 8 1 0)
            (lit "Aug 2023") true false Sample.annual_url)
  /\ Text.lower
       (l_text (Sample.concall_anchor " Transcript " Sample.annual_url
                  "Aug 2023"))
     <> lit "transcript".
Proof. split; [vm_compute; reflexivity | vm_compute; discriminate]. Qed.




(** C10: when several links with the text "transcript" (or "ppt") fall in
    the same month, the bucket of that month ends with the target of the
    last of them in page order. *)
Theorem bucket_keeps_last_url
    (before after : list Link) (link : Link) (s : Concall.sighting) :
  Concall.classify link = Some s ->
  (Concall.s_is_t s = true ->
   (forall y s', y ∈ after -> Concall.classify y = Some s' ->
                 Concall.s_key s' = Concall.s_key s ->
                 Concall.s_is_t s' = false) ->
   exists b,
     Concall.scan (before ++ link :: after) !! Concall.s_key s = Some b
     /\ Concall.transcript b = Some (Concall.s_href s))
  /\ (Concall.s_is_p s = true ->
      (forall y s', y ∈ after -> Concall.classify y = Some s' ->
                    Concall.s_key s' = Concall.s_key s ->
                    Concall.s_is_p s' = false) ->
      exists b,
        Concall.scan (before ++ link :: after) !! Concall.s_key s = Some b
        /\ Concall.ppt b = Some (Concall.s_href s)).
Proof.
  intros Hc. rewrite ConcallScan.scan_app. simpl fold_left.
  unfold Concall.step at 2 4. rewrite Hc. split.
  - intros Ht Hafter. apply ConcallScan.fold_keeps_transcript.
    + now apply ConcallScan.record_transcript.
    + exact Hafter.
  - intros Hp Hafter.
    assert (Ht : Concall.s_is_t s = false).
    { apply ConcallFacts.classify_accepts in Hc
        as ([(_ & _ & E)|(_ & E & _)] & _); [congruence | exact E]. }
    apply ConcallScan.fold_keeps_ppt.
    + now apply ConcallScan.record_ppt.
    + intros y s' Hy Hcy Hk. specialize (Hafter y s' Hy Hcy Hk).
      apply ConcallFacts.classify_accepts in Hcy
        as ([(_ & E & _)|(_ & _ & E)] & _); [exact E | congruence].
Qed.

Lemma bucket_keeps_last_url_witness :
  exists b,
    Concall.scan ([Sample.transcript_old] ++ Sample.transcript_new :: [])
      !! lit "2023-08"
    = Some b
    /\ Concall.transcript b = Some (lit "https://example.com/t2.pdf").
Proof.
  apply (proj1 (bucket_keeps_last_url [Sample.transcript_old] []
                  Sample.transcript_new
                  (Concall.Sighting (lit "2023-08")
                     (Calendar.DateTime 2023 8 1 0) (lit "Aug 2023")
                     true false (lit "https://example.com/t2.pdf"))
                  eq_refl)).
  - reflexivity.
  - intros y s' Hy. inversion Hy.
Defined.

(* ===================================================================== *)
(** * Further properties                                                  *)
(* ===================================================================== *)

(** ** What an attempt leaves behind *)

Module AttemptFacts.
Import Fetch.

Section Environment.
Variable net : list str -> str -> response.
Variable writable : str -> bool.

Lemma write_chunks_result fp chunks complete w c0 :
  files w !! fp = Some c0 ->
  write_chunks fp chunks complete w
  = (set_files w (<[fp := c0 ++ concat chunks]> (files w)),
     if complete then Ok tt else Raise RequestException).
Proof.
  revert w c0. induction chunks as [|c chunks IH]; intros w c0 Hfp; simpl.
  - rewrite app_nil_r, insert_id by assumption.
    destruct complete, w; reflexivity.
  - unfold bind, write, with_files. rewrite Hfp. simpl.
    rewrite (IH _ (c0 ++ c)) by (simpl; apply lookup_insert_eq).
    unfold set_files. simpl.
    now rewrite insert_insert_eq, <- app_assoc.
Qed.

Lemma download_file_refused url fp w :
  net (requests w) url = Unreachable
  \/ (exists status chunks complete,
        net (requests w) url = Reply status chunks complete
        /\ (400 <=? status) && (status <? 600) = true)
  \/ writable fp = false ->
  download_file net writable url fp w
  = (World (files w) (requests w ++ [url]) (downloaded_count w)
       (skipped_count w) (failed_count w),
     Ok false).
Proof.
  intros H.
  unfold download_file, try_except, download_body, bind, requests_get.
  destruct (net (requests w) url) as [|status chunks complete] eqn:Hnet;
    [reflexivity|].
  unfold raise_for_status.
  destruct ((400 <=? status) && (status <? 600)) eqn:Hst; [reflexivity|].
  destruct H as [H|[(s' & c' & k' & [= -> -> ->] & H)|H]];
    [discriminate | congruence |].
  simpl. unfold mkdir_parent. now rewrite H.
Qed.

Lemma download_file_interrupted url fp w status chunks :
  net (requests w) url = Reply status chunks false ->
  (400 <=? status) && (status <? 600) = false ->
  writable fp = true ->
  download_file net writable url fp w
  = (World (<[fp := concat chunks]> (files w)) (requests w ++ [url])
       (downloaded_count w) (skipped_count w) (failed_count w),
     Ok false).
Proof.
  intros Hnet Hst Hw.
  unfold download_file, try_except, download_body, bind, requests_get.
  rewrite Hnet. unfold raise_for_status. rewrite Hst. simpl.
  unfold mkdir_parent, open_wb. rewrite Hw. simpl.
  rewrite (write_chunks_result _ _ _ _ []) by (simpl; apply lookup_insert_eq).
  unfold set_files. simpl. now rewrite insert_insert_eq.
Qed.

Lemma write_chunks_frame fp chunks complete w p :
  p <> fp ->
  files (fst (write_chunks fp chunks complete w)) !! p = files w !! p.
Proof.
  intros Hp. revert w. induction chunks as [|c chunks IH]; intros w; simpl.
  - destruct complete; reflexivity.
  - unfold bind, write, with_files. simpl. rewrite IH. simpl.
    now apply lookup_insert_ne.
Qed.

(** An attempt touches no file but its destination. *)
Lemma download_file_frame url fp w p :
  p <> fp ->
  files (fst (download_file net writable url fp w)) !! p = files w !! p.
Proof.
  intros Hp.
  unfold download_file, try_except, download_body, bind, requests_get.
  destruct (net (requests w) url) as [|status chunks complete];
    [reflexivity|].
  unfold raise_for_status.
  destruct ((400 <=? status) && (status <? 600)); [reflexivity|].
  simpl. unfold mkdir_parent, open_wb.
  destruct (writable fp); [|reflexivity]. simpl.
  match goal with
  | |- context [write_chunks fp chunks complete ?w0] =>
      pose proof (write_chunks_frame fp chunks complete w0 p Hp) as Hf;
      destruct (write_chunks fp chunks complete w0) as [w3 [[]|e]]
  end; simpl in Hf; rewrite lookup_insert_ne in Hf by congruence;
    [|exact Hf].
  unfold st_size. destruct (files w3 !! fp) as [content|] eqn:E;
    [|exact Hf].
  destruct (Z.of_nat (length content) <? 1000); [|exact Hf].
  unfold unlink. rewrite E. simpl. rewrite lookup_delete_ne by congruence.
  exact Hf.
Qed.

End Environment.

End AttemptFacts.

(** ** Counters, requests and files of the fetch loops *)

Module LoopFacts.
Import Fetch Tally.

Lemma occurrences_app o os1 os2 :
  occurrences o (os1 ++ os2) = occurrences o os1 + occurrences o os2.
Proof.
  unfold occurrences. rewrite List.filter_app, length_app. lia.
Qed.

Lemma counted_nil w : counted w w [].
Proof. unfold counted, occurrences. simpl. lia. Qed.

Lemma counted_app w w1 w2 os1 os2 :
  counted w w1 os1 -> counted w1 w2 os2 -> counted w w2 (os1 ++ os2).
Proof.
  unfold counted. rewrite !occurrences_app. intros (? & ? & ?) (? & ? & ?).
  lia.
Qed.

(** All three counters add up to the number of outcomes. *)
Lemma occurrences_total os :
  occurrences downloaded os + occurrences skipped_existing os
  + occurrences failed os
  = Z.of_nat (length os).
Proof.
  unfold occurrences. induction os as [|[] os IH]; simpl in *; lia.
Qed.

Section Environment.
Variable net : list str -> str -> response.
Variable writable : str -> bool.
Variable stat_fails : list str -> str -> bool.

Ltac same_counts := unfold counted, occurrences in *; simpl in *; lia.

Lemma write_chunks_counted fp chunks complete w :
  counted w (fst (write_chunks fp chunks complete w)) [].
Proof.
  revert w. induction chunks as [|c chunks IH]; intros w; simpl.
  - destruct complete; same_counts.
  - unfold bind, write, with_files. simpl.
    match goal with
    | |- context [write_chunks fp chunks complete ?w0] =>
        specialize (IH w0);
        destruct (write_chunks fp chunks complete w0) as [w3 [[]|e]]
    end; same_counts.
Qed.

(** An attempt does not count itself. *)
Lemma download_file_counted url fp w :
  counted w (fst (download_file net writable url fp w)) [].
Proof.
  unfold download_file, try_except, download_body, bind, requests_get.
  destruct (net (requests w) url) as [|status chunks complete];
    [same_counts|].
  unfold raise_for_status.
  destruct ((400 <=? status) && (status <? 600)); [same_counts|].
  simpl. unfold mkdir_parent, open_wb.
  destruct (writable fp); [|same_counts]. simpl.
  match goal with
  | |- context [write_chunks fp chunks complete ?w0] =>
      pose proof (write_chunks_counted fp chunks complete w0) as Hk;
      destruct (write_chunks fp chunks complete w0) as [w3 [[]|e]]
  end; [|same_counts].
  unfold st_size. destruct (files w3 !! fp) as [content|] eqn:E;
    [|same_counts].
  destruct (Z.of_nat (length content) <? 1000); [|same_counts].
  unfold unlink. rewrite E. same_counts.
Qed.

(** One fetch that can look at its destination: it returns, moves one
    counter, asks the server at most once, and leaves every other file
    alone. *)
Lemma fetch_accounts min_size url fp w :
  stat_raises writable stat_fails fp w = false ->
  exists w' o,
    fetch net writable stat_fails min_size url fp w = (w', Ok o)
    /\ counted w w' [o]
    /\ requests w' = requests w ++ asked url o
    /\ forall p, p <> fp -> files w' !! p = files w !! p.
Proof.
  intros Hs.
  assert (Hattempt :
    to_fetch min_size fp w ->
    exists w' o,
      fetch net writable stat_fails min_size url fp w = (w', Ok o)
      /\ counted w w' [o]
      /\ requests w' = requests w ++ asked url o
      /\ forall p, p <> fp -> files w' !! p = files w !! p).
  { intros Hto. rewrite FetchFacts.fetch_attempts by assumption.
    pose proof (FetchFacts.download_file_requests net writable url fp w)
      as Hr.
    pose proof (AttemptFacts.download_file_frame net writable url fp w)
      as Hf.
    pose proof (download_file_counted url fp w) as Hc.
    destruct (FetchFacts.download_file_total net writable url fp w)
      as (w1 & b & Hd).
    rewrite Hd in *. simpl in Hr, Hf, Hc.
    destruct b; eexists _, _; (split; [reflexivity|]);
      (split; [|split; [exact Hr | exact Hf]]);
      unfold counted, occurrences in *; simpl in *; lia. }
  destruct (files w !! fp) as [content|] eqn:E.
  - destruct (Z.ltb_spec min_size (Z.of_nat (length content))) as [Hb|Hb].
    + rewrite (FetchFacts.fetch_skips net writable stat_fails min_size url
                 fp w content) by assumption.
      eexists _, _. split; [reflexivity|]. split; [|split].
      * unfold counted, occurrences. simpl. lia.
      * simpl. now rewrite app_nil_r.
      * reflexivity.
    + apply Hattempt. unfold to_fetch. now rewrite E.
  - apply Hattempt. unfold to_fetch. now rewrite E.
Qed.

(** One step of a loop of single fetches. *)
Lemma for_each_cons {A} min_size (u p : A -> str) x (l : list A) w :
  for_each
    (fun x => bind (fetch net writable stat_fails min_size (u x) (p x))
                (fun o => ret [o]))
    (x :: l) w
  = match fetch net writable stat_fails min_size (u x) (p x) w with
    | (w1, Ok o) =>
        match
          for_each
            (fun x =>
               bind (fetch net writable stat_fails min_size (u x) (p x))
                 (fun o => ret [o]))
            l w1
        with
        | (w2, Ok os) => (w2, Ok (o :: os))
        | (w2, Raise e) => (w2, Raise e)
        end
    | (w1, Raise e) => (w1, Raise e)
    end.
Proof.
  simpl. unfold bind at 1 2.
  destruct (fetch net writable stat_fails min_size (u x) (p x) w)
    as [w1 [o|e]]; [|reflexivity].
  simpl. unfold bind at 1.
  destruct (for_each _ l w1) as [w2 [os|e]]; reflexivity.
Qed.

(** A loop of single fetches goes through its candidates in order, until
    the end or until the look at a destination raises.  For the candidates
    it went through: one outcome each, the counters moved by the outcomes,
    one request for each that was not skipped, to its own target, and no
    file touched but the destinations. *)
Lemma loop_accounts {A} min_size (u p : A -> str) (l : list A) w :
  exists w' r os,
    for_each
      (fun x => bind (fetch net writable stat_fails min_size (u x) (p x))
                  (fun o => ret [o]))
      l w
    = (w', r)
    /\ processed u p l w w' os
    /\ match r with
       | Ok os' => os' = os /\ length os = length l
       | Raise e =>
           e = OSError
           /\ exists x,
                l !! length os = Some x
                /\ stat_raises writable stat_fails (p x) w' = true
       end.
Proof.
  revert w. induction l as [|x l IH]; intros w.
  - exists w, (Ok []), []. split; [reflexivity|]. split; [|now split].
    split; [apply counted_nil|]. split; [now rewrite app_nil_r | reflexivity].
  - rewrite for_each_cons.
    destruct (stat_raises writable stat_fails (p x) w) eqn:Hs.
    + rewrite (FetchFacts.fetch_raises net writable stat_fails min_size
                 (u x) (p x) w Hs).
      exists w, (Raise OSError), []. split; [reflexivity|]. split.
      * split; [apply counted_nil|].
        split; [simpl; now rewrite app_nil_r | reflexivity].
      * split; [reflexivity|]. exists x. now split.
    + destruct (fetch_accounts min_size (u x) (p x) w Hs)
        as (w1 & o & Hf & Hc & Hr & Hfr).
      destruct (IH w1) as (w2 & r & os & Hl & (Hc2 & Hr2 & Hfr2) & Hend).
      rewrite Hf, Hl.
      assert (Hp : processed u p (x :: l) w w2 (o :: os)).
      { split; [apply (counted_app w w1 w2 [o] os); assumption|]. split.
        - simpl. rewrite Hr2, Hr. now rewrite <- app_assoc.
        - intros q Hq. rewrite Hfr2, Hfr.
          + reflexivity.
          + intros ->. apply Hq. left.
          + intros Hin. apply Hq. now right. }
      destruct r as [os'|e].
      * destruct Hend as [-> Hlen].
        exists w2, (Ok (o :: os)), (o :: os).
        split; [reflexivity|]. split; [exact Hp|].
        split; [reflexivity | simpl; now rewrite Hlen].
      * exists w2, (Raise e), (o :: os).
        split; [reflexivity|]. split; [exact Hp | exact Hend].
Qed.

(** Where every destination can be looked at, the loop goes to its end. *)
Lemma loop_returns {A} min_size (u p : A -> str) (l : list A) w :
  (forall fp w0, stat_raises writable stat_fails fp w0 = false) ->
  exists w' os,
    for_each
      (fun x => bind (fetch net writable stat_fails min_size (u x) (p x))
                  (fun o => ret [o]))
      l w
    = (w', Ok os)
    /\ length os = length l
    /\ processed u p l w w' os.
Proof.
  intros Hs.
  destruct (loop_accounts min_size u p l w) as (w' & r & os & E & Hp & Hend).
  destruct r as [os'|e].
  - destruct Hend as [-> Hlen]. now exists w', os.
  - destruct Hend as (_ & x & _ & Hx). rewrite Hs in Hx. discriminate.
Qed.

End Environment.

End LoopFacts.

(** X1: a fetch first looks whether its destination is there.  When this
    look raises, the fetch raises [OSError] with it and has done nothing:
    no counter moved, no request sent, no file changed.  In every other
    case the fetch returns an outcome; it adds one to the counter of that
    outcome and to no other; it sends one request to its target unless it
    skipped, and none if it did; and it changes no file but its
    destination. *)
Theorem fetch_accounts_or_raises
    net writable stat_fails (min_size : Z) (url fp : str) (w : Fetch.world) :
  (Fetch.stat_raises writable stat_fails fp w = true
   /\ Fetch.fetch net writable stat_fails min_size url fp w
      = (w, Raise OSError))
  \/ (Fetch.stat_raises writable stat_fails fp w = false
      /\ exists w' o,
           Fetch.fetch net writable stat_fails min_size url fp w = (w', Ok o)
           /\ Tally.counted w w' [o]
           /\ Fetch.requests w' = Fetch.requests w ++ Tally.asked url o
           /\ forall p, p <> fp -> Fetch.files w' !! p = Fetch.files w !! p).
Proof.
  destruct (Fetch.stat_raises writable stat_fails fp w) eqn:Hs.
  - left. split; [reflexivity|]. now apply FetchFacts.fetch_raises.
  - right. split; [reflexivity|]. now apply LoopFacts.fetch_accounts.
Qed.



(** X3: when the body breaks off before its end, the fetch reports
    [failed], but the bytes received so far stay on disk under the
    destination name, whatever their number; if they are more than the
    threshold, a later fetch of that destination skips them as a file that
    exists. *)
Theorem interrupted_download_leaves_partial_file
    net writable stat_fails net' writable' stat_fails' (min_size : Z)
    (url url' fp : str)
    (w : Fetch.world) (status : Z) (chunks : list (list Byte.byte)) :
  Fetch.to_fetch min_size fp w ->
  net (Fetch.requests w) url = Fetch.Reply status chunks false ->
  (400 <=? status) && (status <? 600) = false ->
  writable fp = true ->
  exists w',
    Fetch.fetch net writable stat_fails min_size url fp w
    = (w', Ok Fetch.failed)
    /\ Fetch.files w' !! fp = Some (concat chunks)
    /\ (min_size < Z.of_nat (length (concat chunks)) ->
        exists w'',
          Fetch.fetch net' writable' stat_fails' min_size url' fp w'
          = (w'', Ok Fetch.skipped_existing)
          /\ Fetch.requests w'' = Fetch.requests w').
Proof.
  intros Hto Hnet Hst Hw.
  rewrite FetchFacts.fetch_attempts
    by (assumption || now apply FetchFacts.stat_raises_writable).
  rewrite (AttemptFacts.download_file_interrupted net writable url fp w
             status chunks) by assumption.
  eexists. split; [reflexivity|]. split; [apply lookup_insert_eq|].
  intros Hbig. eexists. split.
  - apply (FetchFacts.fetch_skips net' writable' stat_fails' min_size url' fp _
             (concat chunks)); [apply lookup_insert_eq | exact Hbig].
  - reflexivity.
Qed.

Lemma interrupted_download_leaves_partial_file_witness :
  exists w',
    Fetch.fetch (Cases.cut_off 6000)
      Sample.any_path Sample.no_stat_error 5000 Sample.annual_url
      Sample.report_path Sample.fresh
    = (w', Ok Fetch.failed)
    /\ Fetch.files w' !! Sample.report_path
       = Some (concat (Cases.body 6000))
    /\ (5000 < Z.of_nat (length (concat (Cases.body 6000))) ->
        exists w'',
          Fetch.fetch (Sample.serve 9000)
            Sample.any_path Sample.no_stat_error 5000
            Sample.annual_url Sample.report_path w'
          = (w'', Ok Fetch.skipped_existing)
          /\ Fetch.requests w'' = Fetch.requests w').
Proof.
  apply (interrupted_download_leaves_partial_file
           (Cases.cut_off 6000)
           Sample.any_path Sample.no_stat_error (Sample.serve 9000)
           Sample.any_path Sample.no_stat_error 5000 Sample.annual_url
           Sample.annual_url
           Sample.report_path Sample.fresh 200 (Cases.body 6000)).
  - exact I.
  - reflexivity.
  - reflexivity.
  - reflexivity.
Defined.

(** X4: the annual, the rating and the quarterly fetch loops go through
    their candidates in order, whatever the server does.  Each of them
    ends in one of two ways: with one outcome for each candidate, or with
    the [OSError] of a candidate whose destination could not be looked at,
    the candidates before it having their outcomes.  In both cases the
    three counters have grown by the numbers of the three outcomes, so
    together by the number of candidates gone through; the requests sent
    are one for each of these candidates that was not skipped, to its own
    target and in order; and no file is touched but the destinations of
    the candidates. *)
Theorem single_fetch_loops_account
    net writable stat_fails (company_dir : str) (w : Fetch.world)
    (annual_reports : list Annual.report) (ratings : list Credit.rating)
    (qr : list Quarterly.report) :
  (exists w' r os,
      Fetch.fetch_annual net writable stat_fails company_dir annual_reports w
      = (w', r)
      /\ Tally.processed Annual.url (Fetch.annual_path company_dir)
           annual_reports w w' os
      /\ match r with
         | Ok os' => os' = os /\ length os = length annual_reports
         | Raise e =>
             e = OSError
             /\ exists x,
                  annual_reports !! length os = Some x
                  /\ Fetch.stat_raises writable stat_fails
                       (Fetch.annual_path company_dir x) w' = true
         end)
  /\ (exists w' r os,
        Fetch.fetch_ratings net writable stat_fails company_dir ratings w
        = (w', r)
        /\ Tally.processed Credit.url (Fetch.rating_path company_dir)
             ratings w w' os
        /\ match r with
           | Ok os' => os' = os /\ length os = length ratings
           | Raise e =>
               e = OSError
               /\ exists x,
                    ratings !! length os = Some x
                    /\ Fetch.stat_raises writable stat_fails
                         (Fetch.rating_path company_dir x) w' = true
           end)
  /\ (exists w' r os,
        Fetch.fetch_quarterly net writable stat_fails company_dir qr w
        = (w', r)
        /\ Tally.processed Quarterly.url (Fetch.quarterly_path company_dir)
             qr w w' os
        /\ match r with
           | Ok os' => os' = os /\ length os = length qr
           | Raise e =>
               e = OSError
               /\ exists x,
                    qr !! length os = Some x
                    /\ Fetch.stat_raises writable stat_fails
                         (Fetch.quarterly_path company_dir x) w' = true
           end)
  /\ (forall os,
        Tally.occurrences Fetch.downloaded os
        + Tally.occurrences Fetch.skipped_existing os
        + Tally.occurrences Fetch.failed os
        = Z.of_nat (length os)).
Proof.
  split; [|split; [|split]].
  - apply (LoopFacts.loop_accounts net writable stat_fails 5000 Annual.url
             (Fetch.annual_path company_dir)).
  - apply (LoopFacts.loop_accounts net writable stat_fails 5000 Credit.url
             (Fetch.rating_path company_dir)).
  - apply (LoopFacts.loop_accounts net writable stat_fails 5000 Quarterly.url
             (Fetch.quarterly_path company_dir)).
  - apply LoopFacts.occurrences_total.
Qed.

(** X5: in one company folder the five kinds of document never share a
    destination: an annual report, a rating, a transcript, a presentation
    and a quarterly report always go to five different paths. *)
Theorem category_paths_distinct
    (company_dir dk dk' : str) (rpt : Annual.report) (rat : Credit.rating)
    (q : Quarterly.report) :
  Fetch.annual_path company_dir rpt <> Fetch.rating_path company_dir rat
  /\ Fetch.annual_path company_dir rpt <> Fetch.transcript_path company_dir dk
  /\ Fetch.annual_path company_dir rpt <> Fetch.ppt_path company_dir dk
  /\ Fetch.annual_path company_dir rpt <> Fetch.quarterly_path company_dir q
  /\ Fetch.rating_path company_dir rat <> Fetch.transcript_path company_dir dk
  /\ Fetch.rating_path company_dir rat <> Fetch.ppt_path company_dir dk
  /\ Fetch.rating_path company_dir rat <> Fetch.quarterly_path company_dir q
  /\ Fetch.transcript_path company_dir dk <> Fetch.ppt_path company_dir dk'
  /\ Fetch.transcript_path company_dir dk
     <> Fetch.quarterly_path company_dir q
  /\ Fetch.ppt_path company_dir dk <> Fetch.quarterly_path company_dir q.
Proof.
  unfold Fetch.annual_path, Fetch.rating_path, Fetch.transcript_path,
    Fetch.ppt_path, Fetch.quarterly_path, Fetch.join.
  repeat split; intros H; rewrite <- !app_assoc in H;
    apply app_inv_head in H; discriminate.
Qed.

(** ** The side bar *)

Module SidebarFacts.
Import Sidebar.

Lemma safe_replacement c :
  safe_char (if safe_char c then c else "_"%char) = true.
Proof. destruct (safe_char c) eqn:E; [exact E | reflexivity]. Qed.

Lemma safe_company_name_safe n :
  Forall (fun c => safe_char c = true) (safe_company_name n).
Proof.
  unfold safe_company_name. apply Forall_fmap, Forall_true.
  intros c. apply safe_replacement.
Qed.

Lemma safe_company_name_fixed n :
  Forall (fun c => safe_char c = true) n -> safe_company_name n = n.
Proof.
  unfold safe_company_name. induction 1 as [|c n Hc _ IH]; [reflexivity|].
  simpl. rewrite Hc. f_equal. exact IH.
Qed.

(** The loop finds the first record that carries the name. *)
Lemma select_first rs n r :
  select rs n = Some r
  <-> exists i,
        rs !! i = Some r /\ name r = n
        /\ forall j r', (j < i)%nat -> rs !! j = Some r' -> name r' <> n.
Proof.
  revert r. induction rs as [|x rs IH]; intros r; simpl.
  - split; [discriminate | intros (i & Hi & _); discriminate].
  - destruct (decide (name x = n)) as [E|E].
    + split.
      * intros [= <-]. exists O. repeat split; [exact E|]. intros j r' Hj. lia.
      * intros (i & Hi & Hn & Hb). destruct i as [|i].
        -- simpl in Hi. congruence.
        -- exfalso. apply (Hb O x); [lia | reflexivity | exact E].
    + rewrite IH. split.
      * intros (i & Hi & Hn & Hb). exists (S i). repeat split; try assumption.
        intros [|j] r' Hj Hr'; simpl in Hr'.
        -- injection Hr' as <-. exact E.
        -- apply (Hb j); [lia | assumption].
      * intros (i & Hi & Hn & Hb). destruct i as [|i].
        -- simpl in Hi. injection Hi as <-. contradiction.
        -- exists i. repeat split; try assumption.
           intros j r' Hj Hr'. apply (Hb (S j)); [lia | assumption].
Qed.

(** A name that some record carries is found. *)
Lemma select_finds rs n k r0 :
  rs !! k = Some r0 -> name r0 = n ->
  exists i r,
    (i <= k)%nat /\ rs !! i = Some r /\ name r = n
    /\ (forall j r', (j < i)%nat -> rs !! j = Some r' -> name r' <> n)
    /\ select rs n = Some r.
Proof.
  revert k. induction rs as [|x rs IH]; intros k Hk Hn; [discriminate|].
  simpl. destruct (decide (name x = n)) as [E|E].
  - exists O, x. repeat split; try assumption; [lia|]. intros j r' Hj. lia.
  - destruct k as [|k]; [simpl in Hk; congruence|]. simpl in Hk.
    destruct (IH k Hk Hn) as (i & r & Hi & Hr & Hrn & Hb & Hs).
    exists (S i), r. repeat split; try assumption; [lia|].
    intros [|j] r' Hj Hr'; simpl in Hr'.
    + injection Hr' as <-. exact E.
    + apply (Hb j); [lia | assumption].
Qed.

End SidebarFacts.

(** X6: the folder name made from the company name has the length of the
    name; it keeps every word character (the letters and numbers of
    Latin-1, accented ones as well, and the underscore), hyphen, dot and
    blank where it is and puts an underscore in the place of any other
    character; so it holds no path separator, and cleaning it again changes
    nothing. *)
Theorem safe_company_name_shape (company_display_name : str) :
  length (Sidebar.safe_company_name company_display_name)
  = length company_display_name
  /\ (forall i c,
        company_display_name !! i = Some c ->
        Sidebar.safe_company_name company_display_name !! i
        = Some (if Sidebar.safe_char c then c else "_"%char))
  /\ Forall (fun c => Sidebar.safe_char c = true)
       (Sidebar.safe_company_name company_display_name)
  /\ ("/"%char ∉ Sidebar.safe_company_name company_display_name)
  /\ Sidebar.safe_company_name
       (Sidebar.safe_company_name company_display_name)
     = Sidebar.safe_company_name company_display_name.
Proof.
  pose proof (SidebarFacts.safe_company_name_safe company_display_name)
    as Hsafe.
  split; [apply length_map|].
  split.
  { intros i c Hi. unfold Sidebar.safe_company_name.
    now rewrite list_lookup_fmap, Hi. }
  split; [exact Hsafe|].
  split.
  - intros Hin. rewrite Forall_forall in Hsafe.
    specialize (Hsafe _ Hin). discriminate.
  - now apply SidebarFacts.safe_company_name_fixed.
Qed.

(** X7: the name chosen in the select box is one of the names of the first
    ten results; the company selected is then the first result that carries
    this name, and it is among the first ten.  A later result with the same
    name is never the one selected. *)
Theorem selection_takes_first_match
    (search_results : list Sidebar.company) (selected_name : str) :
  selected_name ∈ Sidebar.company_names search_results ->
  exists i r,
    (i < 10)%nat
    /\ search_results !! i = Some r
    /\ Sidebar.name r = selected_name
    /\ (forall j r',
          (j < i)%nat -> search_results !! j = Some r' ->
          Sidebar.name r' <> selected_name)
    /\ Sidebar.select search_results selected_name = Some r
    /\ (forall j r',
          (i < j)%nat -> search_results !! j = Some r' ->
          Sidebar.select search_results selected_name = Some r' ->
          r' = r).
Proof.
  unfold Sidebar.company_names. intros Hin.
  apply list_elem_of_fmap in Hin as (r0 & Hn & Hin).
  apply list_elem_of_lookup in Hin as [k Hk].
  apply lookup_take_Some in Hk as [Hk Hlt].
  destruct (SidebarFacts.select_finds search_results selected_name k r0 Hk
              (eq_sym Hn)) as (i & r & Hi & Hr & Hrn & Hb & Hs).
  exists i, r. repeat split; try assumption; [lia|].
  intros j r' _ _ Hs'. congruence.
Qed.

Lemma selection_takes_first_match_witness :
  exists i r,
    (i < 10)%nat
    /\ Cases.search_results !! i = Some r
    /\ Sidebar.name r = lit "Reliance Power"
    /\ (forall j r',
          (j < i)%nat -> Cases.search_results !! j = Some r' ->
          Sidebar.name r' <> lit "Reliance Power")
    /\ Sidebar.select Cases.search_results (lit "Reliance Power") = Some r
    /\ (forall j r',
          (i < j)%nat -> Cases.search_results !! j = Some r' ->
          Sidebar.select Cases.search_results (lit "Reliance Power")
          = Some r' ->
          r' = r).
Proof.
  apply (selection_takes_first_match Cases.search_results
           (lit "Reliance Power")).
  vm_compute. apply list_elem_of_further, list_elem_of_here.
Defined.

(** ** Days before a date *)

Module CutoffFacts.
Import Calendar Clock.

Lemma month_cases m :
  1 <= m <= 12 ->
  m = 1 \/ m = 2 \/ m = 3 \/ m = 4 \/ m = 5 \/ m = 6 \/ m = 7 \/ m = 8
  \/ m = 9 \/ m = 10 \/ m = 11 \/ m = 12.
Proof. lia. Qed.

Ltac each_month H :=
  apply month_cases in H;
  destruct H as [->|[->|[->|[->|[->|[->|[->|[->|[->|[->|[->| ->]]]]]]]]]]].

Lemma div_at p k q r : 0 <= r < k -> p = k * q + r -> p / k = q.
Proof.
  intros Hr E. symmetry. apply (Z.div_unique p k q r); [lia | exact E].
Qed.

Lemma mod_at p k q r : 0 <= r < k -> p = k * q + r -> p mod k = r.
Proof.
  intros Hr E. symmetry. apply (Z.mod_unique p k q r); [lia | exact E].
Qed.

Lemma dby_at a b c e :
  0 <= b <= 3 -> 0 <= c <= 24 -> 0 <= e <= 3 ->
  days_before_year (year_at a b c e)
  = 146097 * a + 36524 * b + 1461 * c + 365 * e.
Proof.
  intros Hb Hc He. unfold days_before_year, year_at. cbv zeta.
  rewrite (div_at _ 4 (100 * a + 25 * b + c) e) by lia.
  rewrite (div_at _ 100 (4 * a + b) (4 * c + e)) by lia.
  rewrite (div_at _ 400 a (100 * b + 4 * c + e)) by lia.
  lia.
Qed.

Lemma leap_at a b c e :
  0 <= b <= 3 -> 0 <= c <= 24 -> 0 <= e <= 3 ->
  is_leap (year_at a b c e) = (e =? 3) && (negb (c =? 24) || (b =? 3)).
Proof.
  intros Hb Hc He. unfold is_leap, year_at.
  destruct (Z.eqb_spec e 3) as [->|Ne].
  - rewrite (mod_at _ 4 (100 * a + 25 * b + c + 1) 0) by lia.
    destruct (Z.eqb_spec c 24) as [->|Nc].
    + rewrite (mod_at _ 100 (4 * a + b + 1) 0) by lia.
      destruct (Z.eqb_spec b 3) as [->|Nb].
      * now rewrite (mod_at _ 400 (a + 1) 0) by lia.
      * rewrite (mod_at _ 400 a (100 * (b + 1))) by lia.
        simpl. destruct (Z.eqb_spec (100 * (b + 1)) 0); [lia | reflexivity].
    + rewrite (mod_at _ 100 (4 * a + b) (4 * c + 4)) by lia.
      simpl. destruct (Z.eqb_spec (4 * c + 4) 0); [lia | reflexivity].
  - rewrite (mod_at _ 4 (100 * a + 25 * b + c) (e + 1)) by lia.
    destruct (Z.eqb_spec (e + 1) 0); [lia | reflexivity].
Qed.

(** The date of an ordinal has this ordinal, and it exists. *)
Lemma ord2ymd_round o :
  1 <= o ->
  let '(y, m, d) := ord2ymd o in
  ymd2ord y m d = o
  /\ 1 <= m <= 12 /\ 1 <= d <= days_in_month y m
  /\ 1 <= y /\ days_before_year y < o.
Proof.
  intros Ho. unfold ord2ymd, DI400Y, DI100Y, DI4Y.
  pose proof (Z.div_mod (o - 1) 146097 ltac:(lia)) as E400.
  pose proof (Z.mod_pos_bound (o - 1) 146097 ltac:(lia)) as B400.
  set (n400 := (o - 1) / 146097) in *.
  set (r400 := (o - 1) mod 146097) in *.
  pose proof (Z.div_mod r400 36524 ltac:(lia)) as E100.
  pose proof (Z.mod_pos_bound r400 36524 ltac:(lia)) as B100.
  set (n100 := r400 / 36524) in *.
  set (r100 := r400 mod 36524) in *.
  pose proof (Z.div_mod r100 1461 ltac:(lia)) as E4.
  pose proof (Z.mod_pos_bound r100 1461 ltac:(lia)) as B4.
  set (n4 := r100 / 1461) in *.
  set (r4 := r100 mod 1461) in *.
  pose proof (Z.div_mod r4 365 ltac:(lia)) as E1.
  pose proof (Z.mod_pos_bound r4 365 ltac:(lia)) as B1.
  set (n1 := r4 / 365) in *.
  set (r1 := r4 mod 365) in *.
  clearbody n400 r400 n100 r100 n4 r4 n1 r1.
  assert (Hn400 : 0 <= n400) by lia.
  assert (Hn100 : 0 <= n100 <= 4) by lia.
  assert (Hn4 : 0 <= n4 <= 24) by lia.
  assert (Hn1 : 0 <= n1 <= 4) by lia.
  cbv zeta.
  destruct ((n1 =? 4) || (n100 =? 4)) eqn:Elast.
  - assert (Ey : n400 * 400 + 1 + n100 * 100 + n4 * 4 + n1 - 1
                 = year_at n400 (if n100 =? 4 then 3 else n100)
                     (if n100 =? 4 then 24 else n4) 3).
    { unfold year_at. apply orb_prop in Elast.
      destruct (Z.eqb_spec n100 4); [lia|].
      destruct Elast as [E|E]; [apply Z.eqb_eq in E; lia | discriminate]. }
    rewrite Ey. unfold ymd2ord, days_before_month, days_in_month.
    rewrite dby_at, leap_at by (destruct (n100 =? 4); lia).
    change (nth (Z.to_nat 12) days_before_month_table 0) with 334.
    change (2 <? 12) with true. change (12 =? 2) with false.
    change (3 =? 3) with true. cbn [andb orb].
    apply orb_prop in Elast. unfold year_at.
    destruct (Z.eqb_spec n100 4) as [E|E].
    + simpl. lia.
    + destruct Elast as [E'|E']; [apply Z.eqb_eq in E' | discriminate].
      destruct (Z.eqb_spec n4 24); simpl.
      * destruct (Z.eqb_spec n100 3); simpl; lia.
      * lia.
  - apply orb_false_elim in Elast as [N1 N100].
    apply Z.eqb_neq in N1, N100.
    rewrite Z.shiftr_div_pow2 by lia. change (2 ^ 5) with 32.
    pose proof (Z.div_mod (r1 + 50) 32 ltac:(lia)) as Em.
    pose proof (Z.mod_pos_bound (r1 + 50) 32 ltac:(lia)) as Bm.
    set (m := (r1 + 50) / 32) in *. clearbody m.
    assert (Hm : 1 <= m <= 12) by lia.
    replace (n400 * 400 + 1 + n100 * 100 + n4 * 4 + n1)
      with (year_at n400 n100 n4 n1) by (unfold year_at; lia).
    pose proof (dby_at n400 n100 n4 n1 ltac:(lia) ltac:(lia) ltac:(lia))
      as Hdby.
    pose proof (leap_at n400 n100 n4 n1 ltac:(lia) ltac:(lia) ltac:(lia))
      as Hleap.
    assert (Hy : 1 <= year_at n400 n100 n4 n1) by (unfold year_at; lia).
    set (leapyear := (n1 =? 3) && (negb (n4 =? 24) || (n100 =? 3))) in *.
    set (y := year_at n400 n100 n4 n1) in *.
    clearbody leapyear y.
    unfold ymd2ord, days_before_month, days_in_month.
    each_month Hm; destruct leapyear; simpl;
      match goal with
      | |- context [?a <? ?p] => destruct (Z.ltb_spec a p)
      end; simpl; rewrite ?Hleap, ?Hdby; simpl; lia.
Qed.

Lemma days_before_year_mono y y' :
  y <= y' -> days_before_year y <= days_before_year y'.
Proof.
  intros H. unfold days_before_year. cbv zeta.
  Z.div_mod_to_equations. lia.
Qed.

(** The ordinal of a date that exists is one of the 3652059 ordinals. *)
Lemma toordinal_range t :
  valid t -> 1 <= toordinal t <= MAXORDINAL.
Proof.
  intros (Hy & Hm & Hd & _). unfold toordinal, ymd2ord, MAXORDINAL.
  destruct t as [y m d u]. simpl in *.
  assert (Hlo : 0 <= days_before_year y).
  { change 0 with (days_before_year 1). apply days_before_year_mono. lia. }
  assert (Hin : 1 <= days_before_month y m + d
                <= 365 + (if is_leap y then 1 else 0)).
  { unfold days_before_month, days_in_month in *.
    each_month Hm; simpl in *; destruct (is_leap y); simpl in *; lia. }
  destruct (Z.eq_dec y 9999) as [->|Ny].
  - change (is_leap 9999) with false in Hin.
    change (days_before_year 9999) with 3651694. lia.
  - assert (days_before_year y <= days_before_year 9998)
      by (apply days_before_year_mono; lia).
    change (days_before_year 9998) with 3651329 in *.
    destruct (is_leap y); lia.
Qed.

(** [t - timedelta(days=n)] lies [n] days before [t], at the same time of
    day. *)
Lemma minus_days_back t n :
  valid t -> 0 < n < toordinal t ->
  exists c,
    minus_days t n = Ok c
    /\ toordinal c = toordinal t - n /\ usec c = usec t /\ valid c.
Proof.
  intros Ht Hn. pose proof (toordinal_range t Ht) as Hr.
  unfold minus_days, MAX_DELTA_DAYS, MAXORDINAL in *.
  destruct (Z.ltb_spec 999999999 (Z.abs n)); [lia|].
  destruct (Z.ltb_spec 0 (toordinal t - n)); [|lia].
  destruct (Z.leb_spec (toordinal t - n) 3652059); [|lia].
  simpl. pose proof (ord2ymd_round (toordinal t - n) ltac:(lia)) as Hround.
  destruct (ord2ymd (toordinal t - n)) as [[y m] d].
  destruct Hround as (Ho & Hm & Hd & Hy & Hby).
  eexists. split; [reflexivity|]. unfold toordinal. simpl.
  split; [exact Ho|]. split; [reflexivity|].
  unfold valid. simpl. split; [|split; [exact Hm|split; [exact Hd|apply Ht]]].
  split; [exact Hy|].
  destruct (Z.le_gt_cases y 9999) as [Hle|Hgt]; [exact Hle|].
  assert (days_before_year 10000 <= days_before_year y)
    by (apply days_before_year_mono; lia).
  change (days_before_year 10000) with 3652059 in *. lia.
Qed.

Lemma minus_days_overflow t n :
  0 < n -> toordinal t <= n -> minus_days t n = Raise OverflowError.
Proof.
  intros Hn Ht. unfold minus_days.
  destruct (_ <? _); [reflexivity|].
  destruct (Z.ltb_spec 0 (toordinal t - n)); [lia | reflexivity].
Qed.

End CutoffFacts.

(** X8: the cutoff of a history of [num] years is the moment [365 * num]
    days before now, at the same time of day, and it is a date that
    exists; it is there exactly when that many days lie between now and the
    first day of year 1.  When they do not, taking the cutoff raises
    [OverflowError]. *)
Theorem cutoff_is_365_days_per_year (now : Calendar.datetime) (num : Z) :
  Clock.valid now ->
  0 < num ->
  (num * 365 < Calendar.toordinal now ->
   exists c,
     cutoff_date now num = Ok (Some c)
     /\ Calendar.toordinal c = Calendar.toordinal now - num * 365
     /\ Calendar.usec c = Calendar.usec now
     /\ Clock.valid c)
  /\ (Calendar.toordinal now <= num * 365 ->
      cutoff_date now num = Raise OverflowError).
Proof.
  intros Hnow Hnum. unfold cutoff_date.
  destruct (Z.eqb_spec num 0); [lia|]. split.
  - intros Hlt.
    destruct (CutoffFacts.minus_days_back now (num * 365) Hnow ltac:(lia))
      as (c & -> & Hc). now exists c.
  - intros Hle.
    now rewrite CutoffFacts.minus_days_overflow by lia.
Qed.

Lemma cutoff_is_365_days_per_year_witness :
  (1 * 365 < Calendar.toordinal Cases.now ->
   exists c,
     cutoff_date Cases.now 1 = Ok (Some c)
     /\ Calendar.toordinal c = Calendar.toordinal Cases.now - 1 * 365
     /\ Calendar.usec c = Calendar.usec Cases.now
     /\ Clock.valid c)
  /\ (Calendar.toordinal Cases.now <= 1 * 365 ->
      cutoff_date Cases.now 1 = Raise OverflowError).
Proof.
  apply (cutoff_is_365_days_per_year Cases.now 1).
  - unfold Clock.valid. vm_compute. intuition discriminate.
  - lia.
Defined.

(** ** The run *)

Module RunFacts.
Import Fetch App.

Lemma cutoff_overflow now num :
  0 < num -> Calendar.toordinal now <= num * 365 ->
  cutoff_date now num = Raise OverflowError.
Proof.
  intros Hn Ho. unfold cutoff_date.
  destruct (Z.eqb_spec num 0); [lia|].
  now rewrite CutoffFacts.minus_days_overflow by lia.
Qed.

Lemma annual_section_overflow net writable stat_fails company_dir o p w :
  0 < num_annual o ->
  Calendar.toordinal (now_annual p) <= num_annual o * 365 ->
  annual_section net writable stat_fails company_dir o p w
  = (w, Raise OverflowError).
Proof.
  intros Hn Ho. unfold annual_section, bind, lift.
  now rewrite cutoff_overflow.
Qed.

Lemma credit_section_overflow net writable stat_fails company_dir o p w :
  0 < num_credit o ->
  Calendar.toordinal (now_credit p) <= num_credit o * 365 ->
  credit_section net writable stat_fails company_dir o p w
  = (w, Raise OverflowError).
Proof.
  intros Hn Ho. unfold credit_section, bind, lift.
  now rewrite cutoff_overflow.
Qed.

End RunFacts.

(** X9: a history so long that the cutoff would lie before year 1 ends the
    whole run, not only its section.  With such a number of years for the
    annual reports the run ends at once, with no request sent and no file
    written, whatever else is ticked; with such a number for the ratings
    it ends where the annual section ended, and no transcript, presentation
    or quarterly report is asked for. *)
Theorem oversized_history_aborts_run
    net writable stat_fails (company_dir : str) (o : App.options)
    (p : App.session)
    (w : Fetch.world) :
  (App.d_annual o = true
   /\ 0 < App.num_annual o
   /\ Calendar.toordinal (App.now_annual p) <= App.num_annual o * 365)
  \/ (App.d_credit o = true
      /\ 0 < App.num_credit o
      /\ Calendar.toordinal (App.now_credit p) <= App.num_credit o * 365) ->
  App.run net writable stat_fails company_dir o p w
  = (fst (App.when (App.d_annual o)
            (App.annual_section net writable stat_fails company_dir o p) w),
     Ok tt)
  /\ (App.d_annual o = true ->
      0 < App.num_annual o ->
      Calendar.toordinal (App.now_annual p) <= App.num_annual o * 365 ->
      App.run net writable stat_fails company_dir o p w = (w, Ok tt)).
Proof.
  intros H.
  assert (Hannual :
    App.d_annual o = true ->
    0 < App.num_annual o ->
    Calendar.toordinal (App.now_annual p) <= App.num_annual o * 365 ->
    App.run net writable stat_fails company_dir o p w = (w, Ok tt)
    /\ fst (App.when (App.d_annual o)
              (App.annual_section net writable stat_fails company_dir o p) w)
      = w).
  { intros Hd Hn Ho.
    unfold App.run, Fetch.try_except, App.sections, App.when, Fetch.bind.
    rewrite Hd. unfold Fetch.bind.
    rewrite RunFacts.annual_section_overflow by assumption.
    split; reflexivity. }
  split.
  - destruct H as [(Hd & Hn & Ho)|(Hd & Hn & Ho)].
    + destruct (Hannual Hd Hn Ho) as [-> ->]. reflexivity.
    + unfold App.run, Fetch.try_except, App.sections, Fetch.bind.
      destruct (App.when (App.d_annual o)
                  (App.annual_section net writable stat_fails company_dir o p)
                  w)
        as [w1 [[]|e]]; simpl; [|reflexivity].
      unfold App.when. rewrite Hd. unfold Fetch.bind.
      now rewrite RunFacts.credit_section_overflow by assumption.
  - intros Hd Hn Ho. apply (Hannual Hd Hn Ho).
Qed.

Lemma oversized_history_aborts_run_witness :
  App.run (Sample.serve 6000)
    Sample.any_path Sample.no_stat_error Sample.company_dir
    (Cases.all_ticked 3000) Cases.page Sample.fresh
  = (fst (App.when (App.d_annual (Cases.all_ticked 3000))
            (App.annual_section (Sample.serve 6000)
               Sample.any_path Sample.no_stat_error
               Sample.company_dir (Cases.all_ticked 3000) Cases.page)
            Sample.fresh),
     Ok tt)
  /\ (App.d_annual (Cases.all_ticked 3000) = true ->
      0 < App.num_annual (Cases.all_ticked 3000) ->
      Calendar.toordinal (App.now_annual Cases.page)
      <= App.num_annual (Cases.all_ticked 3000) * 365 ->
      App.run (Sample.serve 6000)
        Sample.any_path Sample.no_stat_error Sample.company_dir
        (Cases.all_ticked 3000) Cases.page Sample.fresh
      = (Sample.fresh, Ok tt)).
Proof.
  apply (oversized_history_aborts_run (Sample.serve 6000)
           Sample.any_path Sample.no_stat_error
           Sample.company_dir (Cases.all_ticked 3000) Cases.page
           Sample.fresh).
  left. split; [reflexivity|]. split; [reflexivity|].
  vm_compute. discriminate.
Defined.

(** ** The loop over the buckets *)

Module ConcallLoop.
Import Fetch Tally.

Section Environment.
Variable net : list str -> str -> response.
Variable writable : str -> bool.
Variable stat_fails : list str -> str -> bool.

(** The fetch of one kind of document of a bucket, when its box is ticked
    and the bucket has it. *)
Lemma optional_fetch (on : bool) (target : option str) fp w :
  exists w' r os,
    match target with
    | Some u =>
        if on && Text.nonempty u
        then bind (fetch net writable stat_fails 1000 u fp) (fun o => ret [o])
        else ret []
    | None => ret []
    end w = (w', r)
    /\ match r with
       | Ok os' => os' = os
       | Raise e =>
           e = OSError /\ stat_raises writable stat_fails fp w' = true
       end
    /\ (length os <= 1)%nat
    /\ counted w w' os
    /\ (forall u, u ∈ requests w' ->
          u ∈ requests w \/ (on = true /\ target = Some u))
    /\ (length os = 1%nat -> on = true /\ is_Some target)
    /\ forall q, q <> fp -> files w' !! q = files w !! q.
Proof.
  assert (Hnone : exists w' r os,
             ret (A := list FetchOutcome) [] w = (w', r)
             /\ match r with
                | Ok os' => os' = os
                | Raise e =>
                    e = OSError
                    /\ stat_raises writable stat_fails fp w' = true
                end
             /\ (length os <= 1)%nat
             /\ counted w w' os
             /\ (forall u, u ∈ requests w' ->
                   u ∈ requests w \/ (on = true /\ target = Some u))
             /\ (length os = 1%nat -> on = true /\ is_Some target)
             /\ forall q, q <> fp -> files w' !! q = files w !! q).
  { exists w, (Ok []), []. split; [reflexivity|]. split; [reflexivity|].
    split; [simpl; lia|]. split; [apply LoopFacts.counted_nil|].
    split; [now left|]. split; [discriminate | reflexivity]. }
  destruct target as [u|]; [|exact Hnone].
  destruct on; simpl; [|exact Hnone].
  destruct (Text.nonempty u); [|exact Hnone].
  destruct (stat_raises writable stat_fails fp w) eqn:Hs.
  - exists w, (Raise OSError), []. unfold bind.
    rewrite (FetchFacts.fetch_raises net writable stat_fails 1000 u fp w Hs).
    split; [reflexivity|]. split; [now split|]. split; [simpl; lia|].
    split; [apply LoopFacts.counted_nil|].
    split; [now left|]. split; [discriminate | reflexivity].
  - destruct (LoopFacts.fetch_accounts net writable stat_fails 1000 u fp w
                Hs) as (w1 & o & Hf & Hc & Hr & Hfr).
    exists w1, (Ok [o]), [o]. unfold bind. rewrite Hf. simpl.
    split; [reflexivity|]. split; [reflexivity|]. split; [lia|].
    split; [exact Hc|].
    split; [|split; [intros _; split; [reflexivity | eauto] | exact Hfr]].
    intros v Hv. rewrite Hr in Hv. apply elem_of_app in Hv as [Hv|Hv].
    + now left.
    + right. split; [reflexivity|]. destruct o; simpl in Hv.
      * apply list_elem_of_singleton in Hv. now subst.
      * inversion Hv.
      * apply list_elem_of_singleton in Hv. now subst.
Qed.

(** The loop over keys that all have their bucket. *)
Lemma concall_loop_accounts (company_dir : str)
    (d_transcripts d_presentations : bool)
    (concalls_data : gmap str Concall.bucket) (keys : list str) w :
  Forall (fun k => is_Some (concalls_data !! k)) keys ->
  exists w' r os,
    fetch_concalls net writable stat_fails company_dir d_transcripts
      d_presentations concalls_data keys w
    = (w', r)
    /\ match r with
       | Ok os' => os' = os
       | Raise e =>
           e = OSError
           /\ exists k,
                k ∈ keys
                /\ (stat_raises writable stat_fails
                      (transcript_path company_dir k) w' = true
                    \/ stat_raises writable stat_fails
                         (ppt_path company_dir k) w' = true)
       end
    /\ (length os <= 2 * length keys)%nat
    /\ counted w w' os
    /\ (forall u, u ∈ requests w' ->
          u ∈ requests w
          \/ exists k b,
               k ∈ keys /\ concalls_data !! k = Some b
               /\ ((d_transcripts = true /\ Concall.transcript b = Some u)
                   \/ (d_presentations = true /\ Concall.ppt b = Some u)))
    /\ forall q,
         (forall k, k ∈ keys ->
            q <> transcript_path company_dir k
            /\ q <> ppt_path company_dir k) ->
         files w' !! q = files w !! q.
Proof.
  intros Hkeys. revert w.
  induction Hkeys as [|k keys [b Hb] _ IH]; intros w.
  - exists w, (Ok []), []. split; [reflexivity|]. split; [reflexivity|].
    split; [simpl; lia|].
    split; [apply LoopFacts.counted_nil|]. split; [now left | reflexivity].
  - destruct (optional_fetch d_transcripts (Concall.transcript b)
                (transcript_path company_dir k) w)
      as (w1 & r1 & os1 & H1 & E1 & L1 & C1 & R1 & _ & F1).
    unfold fetch_concalls in *. simpl. rewrite Hb.
    unfold bind at 1 2. rewrite H1.
    assert (Q1 : forall u, u ∈ requests w1 ->
              u ∈ requests w
              \/ exists k' b',
                   k' ∈ k :: keys /\ concalls_data !! k' = Some b'
                   /\ ((d_transcripts = true
                        /\ Concall.transcript b' = Some u)
                       \/ (d_presentations = true
                           /\ Concall.ppt b' = Some u))).
    { intros u Hu. destruct (R1 u Hu) as [Hu0|[Hon Ht]]; [now left|].
      right. exists k, b. split; [left|]. split; [exact Hb|].
      left. now split. }
    destruct r1 as [os1'|e1].
    2:{ destruct E1 as [-> Hs1].
        exists w1, (Raise OSError), os1. split; [reflexivity|].
        split; [split; [reflexivity|]; exists k; split; [left | now left]|].
        split; [simpl; lia|]. split; [exact C1|]. split; [exact Q1|].
        intros q Hq. apply F1, (Hq k). left. }
    subst os1'.
    destruct (optional_fetch d_presentations (Concall.ppt b)
                (ppt_path company_dir k) w1)
      as (w2 & r2 & os2 & H2 & E2 & L2 & C2 & R2 & _ & F2).
    unfold bind at 1. rewrite H2.
    assert (C12 : counted w w2 (os1 ++ os2))
      by (apply (LoopFacts.counted_app w w1 w2); assumption).
    assert (Q2 : forall u, u ∈ requests w2 ->
              u ∈ requests w
              \/ exists k' b',
                   k' ∈ k :: keys /\ concalls_data !! k' = Some b'
                   /\ ((d_transcripts = true
                        /\ Concall.transcript b' = Some u)
                       \/ (d_presentations = true
                           /\ Concall.ppt b' = Some u))).
    { intros u Hu. destruct (R2 u Hu) as [Hu1|[Hon Ht]]; [now apply Q1|].
      right. exists k, b. split; [left|]. split; [exact Hb|].
      right. now split. }
    assert (F12 : forall q,
              (forall k', k' ∈ k :: keys ->
                 q <> transcript_path company_dir k'
                 /\ q <> ppt_path company_dir k') ->
              files w2 !! q = files w !! q).
    { intros q Hq. rewrite F2, F1; [reflexivity | |]; apply (Hq k); left. }
    destruct r2 as [os2'|e2].
    2:{ destruct E2 as [-> Hs2].
        exists w2, (Raise OSError), (os1 ++ os2). split; [reflexivity|].
        split; [split; [reflexivity|]; exists k; split; [left | now right]|].
        split; [rewrite length_app; simpl; lia|].
        split; [exact C12|]. split; [exact Q2 | exact F12]. }
    subst os2'. unfold ret at 1.
    destruct (IH w2) as (w3 & r3 & os3 & H3 & E3 & L3 & C3 & R3 & F3).
    unfold bind at 1. rewrite H3.
    exists w3,
      (match r3 with Ok _ => Ok ((os1 ++ os2) ++ os3) | Raise e => Raise e end),
      ((os1 ++ os2) ++ os3).
    split; [destruct r3 as [os3'|e3]; [now subst os3' | reflexivity]|].
    split.
    { destruct r3 as [os3'|e3]; [reflexivity|].
      destruct E3 as (-> & k' & Hk' & Hs3).
      split; [reflexivity|]. exists k'. split; [now right | exact Hs3]. }
    split; [rewrite !length_app; simpl; lia|].
    split; [apply (LoopFacts.counted_app w w2 w3); assumption|].
    split.
    + intros u Hu. destruct (R3 u Hu) as [Hu2|(k' & b' & Hk' & Hb' & Hor)].
      * now apply Q2.
      * right. exists k', b'. split; [now right|]. now split.
    + intros q Hq. rewrite F3; [now apply F12|].
      intros k' Hk'. apply Hq. now right.
Qed.

End Environment.

End ConcallLoop.

(** X10: the loop over the chosen quarters never fails on a key: each one
    has its bucket.  It ends with its outcomes, or with the [OSError] of a
    look at the transcript or presentation file of one of the chosen
    quarters, and with nothing else.  In both cases it has fetched at most
    two documents for each quarter and counted each of them once; every
    request it sent goes to the transcript or the presentation of one of
    the chosen quarters, and to a kind whose box is ticked; and it touched
    no file but the transcript and presentation files of these quarters. *)
Theorem concall_loop_never_misses_a_key
    (net : list str -> str -> Fetch.response) (writable : str -> bool)
    (stat_fails : list str -> str -> bool)
    (company_dir : str) (d_transcripts d_presentations : bool)
    (num_concalls : Z) (concalls_data : gmap str Concall.bucket)
    (w : Fetch.world) :
  exists w' r os,
    Fetch.fetch_concalls net writable stat_fails company_dir d_transcripts
      d_presentations concalls_data
      (Concall.sorted_dates num_concalls concalls_data) w
    = (w', r)
    /\ match r with
       | Ok os' => os' = os
       | Raise e =>
           e = OSError
           /\ exists k,
                k ∈ Concall.sorted_dates num_concalls concalls_data
                /\ (Fetch.stat_raises writable stat_fails
                      (Fetch.transcript_path company_dir k) w' = true
                    \/ Fetch.stat_raises writable stat_fails
                         (Fetch.ppt_path company_dir k) w' = true)
       end
    /\ (length os
        <= 2 * length (Concall.sorted_dates num_concalls concalls_data))%nat
    /\ Tally.counted w w' os
    /\ (forall u, u ∈ Fetch.requests w' ->
          u ∈ Fetch.requests w
          \/ exists k b,
               k ∈ Concall.sorted_dates num_concalls concalls_data
               /\ concalls_data !! k = Some b
               /\ ((d_transcripts = true /\ Concall.transcript b = Some u)
                   \/ (d_presentations = true /\ Concall.ppt b = Some u)))
    /\ forall q,
         (forall k, k ∈ Concall.sorted_dates num_concalls concalls_data ->
            q <> Fetch.transcript_path company_dir k
            /\ q <> Fetch.ppt_path company_dir k) ->
         Fetch.files w' !! q = Fetch.files w !! q.
Proof.
  apply ConcallLoop.concall_loop_accounts.
  apply Forall_forall. intros k. apply ConcallScan.sorted_dates_present.
Qed.

(** ** Files that two candidates share *)

Module SharedFile.
Import Fetch Tally.

Section Environment.
Variable net : list str -> str -> response.
Variable writable : str -> bool.
Variable stat_fails : list str -> str -> bool.

(** A fetch skips only a file that is there. *)
Lemma fetch_skipped_was_there min_size url fp w w' :
  fetch net writable stat_fails min_size url fp w
  = (w', Ok skipped_existing) ->
  is_Some (files w !! fp).
Proof.
  intros H. destruct (files w !! fp) as [content|] eqn:E; [eauto|].
  destruct (stat_raises writable stat_fails fp w) eqn:Hs.
  - rewrite FetchFacts.fetch_raises in H by assumption. discriminate.
  - rewrite FetchFacts.fetch_attempts in H
      by (assumption || (unfold to_fetch; now rewrite E)).
    destruct (download_file net writable url fp w) as [w1 [[|]|e]];
      discriminate.
Qed.

(** A fetch that returns changes no file but its destination. *)
Lemma fetch_frame min_size url fp w w' o q :
  fetch net writable stat_fails min_size url fp w = (w', Ok o) ->
  q <> fp -> files w' !! q = files w !! q.
Proof.
  intros H Hq. destruct (stat_raises writable stat_fails fp w) eqn:Hs.
  - rewrite FetchFacts.fetch_raises in H by assumption. discriminate.
  - destruct (LoopFacts.fetch_accounts net writable stat_fails min_size url
                fp w Hs) as (w1 & o1 & Hf & _ & _ & Hfr).
    rewrite Hf in H. injection H as <- _. now apply Hfr.
Qed.

(** Where a skip comes from, in a loop of single fetches that went to its
    end. *)
Lemma loop_skip_origin {A} min_size (u p : A -> str) (l : list A) w w' os :
  for_each
    (fun x => bind (fetch net writable stat_fails min_size (u x) (p x))
                (fun o => ret [o]))
    l w
  = (w', Ok os) ->
  length os = length l
  /\ forall i x,
       l !! i = Some x -> os !! i = Some skipped_existing ->
       is_Some (files w !! p x)
       \/ exists j y, (j < i)%nat /\ l !! j = Some y /\ p y = p x.
Proof.
  revert w os. induction l as [|x0 l IH]; intros w os.
  - intros [= <- <-]. split; [reflexivity|]. intros i x Hi. discriminate.
  - rewrite LoopFacts.for_each_cons.
    destruct (fetch net writable stat_fails min_size (u x0) (p x0) w)
      as [w1 [o|e]] eqn:Hf; [|discriminate].
    destruct (for_each _ l w1) as [w2 [os2|e]] eqn:Hl; [|discriminate].
    intros [= <- <-]. destruct (IH w1 os2 Hl) as [Hlen Hskip].
    split; [simpl; now rewrite Hlen|].
    intros [|i] x Hi Ho; simpl in Hi, Ho.
    + injection Hi as <-. injection Ho as ->. left.
      now apply (fetch_skipped_was_there min_size (u x0) (p x0) w w1).
    + destruct (Hskip i x Hi Ho) as [Hthere|(j & y & Hj & Hy & Hp)].
      * destruct (decide (p x = p x0)) as [E|E].
        -- right. exists O, x0. split; [lia|]. split; [reflexivity|].
           now symmetry.
        -- left.
           now rewrite <- (fetch_frame min_size (u x0) (p x0) w w1 o
                             (p x) Hf E).
      * right. exists (S j), y. split; [lia|]. now split.
Qed.

(** Two fetches of one destination, the first from a server that sends a
    whole body larger than the threshold. *)
Lemma second_fetch_skipped min_size url1 url2 fp w status chunks :
  to_fetch min_size fp w ->
  net (requests w) url1 = Reply status chunks true ->
  (400 <=? status) && (status <? 600) = false ->
  writable fp = true ->
  1000 <= Z.of_nat (length (concat chunks)) ->
  min_size < Z.of_nat (length (concat chunks)) ->
  fetch net writable stat_fails min_size url1 fp w
  = (World (<[fp := concat chunks]> (files w)) (requests w ++ [url1])
       (downloaded_count w + 1) (skipped_count w) (failed_count w),
     Ok downloaded)
  /\ fetch net writable stat_fails min_size url2 fp
       (World (<[fp := concat chunks]> (files w)) (requests w ++ [url1])
          (downloaded_count w + 1) (skipped_count w) (failed_count w))
     = (World (<[fp := concat chunks]> (files w)) (requests w ++ [url1])
          (downloaded_count w + 1) (skipped_count w + 1) (failed_count w),
        Ok skipped_existing).
Proof.
  intros Hto Hnet Hst Hw Hk Hbig. split.
  - rewrite (fetch_by_size net writable stat_fails min_size url1 fp w status
               chunks)
      by assumption.
    destruct (Z.ltb_spec (Z.of_nat (length (concat chunks))) 1000);
      [lia | reflexivity].
  - rewrite (FetchFacts.fetch_skips net writable stat_fails min_size url2 fp _
               (concat chunks)); [reflexivity | apply lookup_insert_eq
                                 | exact Hbig].
Qed.

End Environment.

End SharedFile.

(** X11: when the annual, the rating or the quarterly loop has gone to
    its end, it has one outcome for each candidate, and a candidate was
    skipped as a file that exists only if its destination was on disk
    before the loop began, or if an earlier candidate of the same loop has
    the same destination. *)
Theorem skip_needs_existing_or_shared_file
    (net : list str -> str -> Fetch.response) (writable : str -> bool)
    (stat_fails : list str -> str -> bool)
    (company_dir : str) (w : Fetch.world)
    (annual_reports : list Annual.report) (ratings : list Credit.rating)
    (qr : list Quarterly.report) :
  (forall w' os,
      Fetch.fetch_annual net writable stat_fails company_dir annual_reports w
      = (w', Ok os) ->
      length os = length annual_reports
      /\ forall i x,
           annual_reports !! i = Some x ->
           os !! i = Some Fetch.skipped_existing ->
           is_Some (Fetch.files w !! Fetch.annual_path company_dir x)
           \/ exists j y,
                (j < i)%nat /\ annual_reports !! j = Some y
                /\ Fetch.annual_path company_dir y
                   = Fetch.annual_path company_dir x)
  /\ (forall w' os,
        Fetch.fetch_ratings net writable stat_fails company_dir ratings w
        = (w', Ok os) ->
        length os = length ratings
        /\ forall i x,
             ratings !! i = Some x ->
             os !! i = Some Fetch.skipped_existing ->
             is_Some (Fetch.files w !! Fetch.rating_path company_dir x)
             \/ exists j y,
                  (j < i)%nat /\ ratings !! j = Some y
                  /\ Fetch.rating_path company_dir y
                     = Fetch.rating_path company_dir x)
  /\ (forall w' os,
        Fetch.fetch_quarterly net writable stat_fails company_dir qr w
        = (w', Ok os) ->
        length os = length qr
        /\ forall i x,
             qr !! i = Some x ->
             os !! i = Some Fetch.skipped_existing ->
             is_Some (Fetch.files w !! Fetch.quarterly_path company_dir x)
             \/ exists j y,
                  (j < i)%nat /\ qr !! j = Some y
                  /\ Fetch.quarterly_path company_dir y
                     = Fetch.quarterly_path company_dir x).
Proof.
  split; [|split]; intros w' os.
  - apply (SharedFile.loop_skip_origin net writable stat_fails 5000
             Annual.url (Fetch.annual_path company_dir)).
  - apply (SharedFile.loop_skip_origin net writable stat_fails 5000
             Credit.url (Fetch.rating_path company_dir)).
  - apply (SharedFile.loop_skip_origin net writable stat_fails 5000
             Quarterly.url (Fetch.quarterly_path company_dir)).
Qed.

Lemma skip_needs_existing_or_shared_file_witness :
  is_Some (Fetch.files Sample.fresh
           !! Fetch.annual_path Sample.company_dir Cases.report_2022_nse)
  \/ exists j y,
       (j < 1)%nat
       /\ [Sample.report_2022; Cases.report_2022_nse] !! j = Some y
       /\ Fetch.annual_path Sample.company_dir y
          = Fetch.annual_path Sample.company_dir Cases.report_2022_nse.
Proof.
  eapply (proj1 (skip_needs_existing_or_shared_file (Sample.serve 6000)
                   Sample.any_path Sample.no_stat_error Sample.company_dir
                   Sample.fresh [Sample.report_2022; Cases.report_2022_nse]
                   [] [])
            _ [Fetch.downloaded; Fetch.skipped_existing]).
  - vm_compute. reflexivity.
  - reflexivity.
  - reflexivity.
Defined.

(** X12: two annual reports of the same year go to the same file.  When
    the first of them is downloaded with more than 5000 bytes, the second
    is skipped as a file that exists: its target is never asked for, and
    the file keeps the bytes of the first. *)
Theorem same_year_reports_share_file
    (net : list str -> str -> Fetch.response) (writable : str -> bool)
    (stat_fails : list str -> str -> bool)
    (company_dir : str) (r1 r2 : Annual.report) (rest : list Annual.report)
    (w : Fetch.world) (status : Z) (chunks : list (list Byte.byte)) :
  Annual.year r1 = Annual.year r2 ->
  Fetch.to_fetch 5000 (Fetch.annual_path company_dir r1) w ->
  net (Fetch.requests w) (Annual.url r1) = Fetch.Reply status chunks true ->
  (400 <=? status) && (status <? 600) = false ->
  writable (Fetch.annual_path company_dir r1) = true ->
  5000 < Z.of_nat (length (concat chunks)) ->
  Fetch.annual_path company_dir r2 = Fetch.annual_path company_dir r1
  /\ exists w2,
       Fetch.files w2
       = <[Fetch.annual_path company_dir r1 := concat chunks]> (Fetch.files w)
       /\ Fetch.requests w2 = Fetch.requests w ++ [Annual.url r1]
       /\ Fetch.downloaded_count w2 = Fetch.downloaded_count w + 1
       /\ Fetch.skipped_count w2 = Fetch.skipped_count w + 1
       /\ Fetch.failed_count w2 = Fetch.failed_count w
       /\ Fetch.fetch_annual net writable stat_fails company_dir
            (r1 :: r2 :: rest) w
          = match
              Fetch.fetch_annual net writable stat_fails company_dir rest w2
            with
            | (w3, Ok os) =>
                (w3, Ok (Fetch.downloaded :: Fetch.skipped_existing :: os))
            | (w3, Raise e) => (w3, Raise e)
            end.
Proof.
  intros Hy Hto Hnet Hst Hw Hbig.
  assert (Hp : Fetch.annual_path company_dir r2
               = Fetch.annual_path company_dir r1).
  { unfold Fetch.annual_path. now rewrite Hy. }
  split; [exact Hp|].
  destruct (SharedFile.second_fetch_skipped net writable stat_fails 5000
              (Annual.url r1) (Annual.url r2)
              (Fetch.annual_path company_dir r1) w status chunks
              Hto Hnet Hst Hw ltac:(lia) Hbig) as [H1 H2].
  exists (Fetch.World
            (<[Fetch.annual_path company_dir r1 := concat chunks]>
               (Fetch.files w))
            (Fetch.requests w ++ [Annual.url r1])
            (Fetch.downloaded_count w + 1) (Fetch.skipped_count w + 1)
            (Fetch.failed_count w)).
  repeat (split; [reflexivity|]).
  unfold Fetch.fetch_annual. simpl.
  unfold Fetch.bind at 1 2. rewrite H1. simpl.
  unfold Fetch.bind at 1 2 3. rewrite Hp, H2. simpl.
  unfold Fetch.bind at 1.
  destruct (Fetch.for_each _ rest _) as [w3 [os|e]]; reflexivity.
Qed.

Lemma same_year_reports_share_file_witness :
  Fetch.annual_path Sample.company_dir Cases.report_2022_nse
  = Fetch.annual_path Sample.company_dir Sample.report_2022
  /\ exists w2,
       Fetch.files w2
       = <[Fetch.annual_path Sample.company_dir Sample.report_2022
           := concat (Cases.body 6000)]> (Fetch.files Sample.fresh)
       /\ Fetch.requests w2
          = Fetch.requests Sample.fresh ++ [Annual.url Sample.report_2022]
       /\ Fetch.downloaded_count w2
          = Fetch.downloaded_count Sample.fresh + 1
       /\ Fetch.skipped_count w2 = Fetch.skipped_count Sample.fresh + 1
       /\ Fetch.failed_count w2 = Fetch.failed_count Sample.fresh
       /\ Fetch.fetch_annual (Sample.serve 6000)
            Sample.any_path Sample.no_stat_error
            Sample.company_dir
            (Sample.report_2022 :: Cases.report_2022_nse :: []) Sample.fresh
          = match
              Fetch.fetch_annual (Sample.serve 6000)
                Sample.any_path Sample.no_stat_error
                Sample.company_dir [] w2
            with
            | (w3, Ok os) =>
                (w3, Ok (Fetch.downloaded :: Fetch.skipped_existing :: os))
            | (w3, Raise e) => (w3, Raise e)
            end.
Proof.
  apply (same_year_reports_share_file (Sample.serve 6000)
           Sample.any_path Sample.no_stat_error
           Sample.company_dir Sample.report_2022 Cases.report_2022_nse []
           Sample.fresh 200 (Cases.body 6000)).
  - reflexivity.
  - exact I.
  - reflexivity.
  - reflexivity.
  - reflexivity.
  - vm_compute. reflexivity.
Defined.

(** ** One month and year at one place *)

Module MonthFacts.
Import Shape TextFacts.

Lemma blanks_then_other (a a' x x' : str) c c' :
  Forall (fun c => Text.is_space c = true) a ->
  Forall (fun c => Text.is_space c = true) a' ->
  Text.is_space c = false -> Text.is_space c' = false ->
  a ++ c :: x = a' ++ c' :: x' ->
  a = a' /\ c :: x = c' :: x'.
Proof.
  intros Ha Ha' Hc Hc' E.
  destruct (blank_prefix_split a (c :: x) a' x' c' Ha Hc' E) as [p Hp].
  destruct (blank_prefix_split a' (c' :: x') a x c Ha' Hc (eq_sym E))
    as [p' Hp'].
  assert (Hlen : length a = length a').
  { apply (f_equal length) in Hp, Hp'. rewrite length_app in Hp, Hp'. lia. }
  now apply app_inj_1 in E.
Qed.

Lemma four_digits yr :
  all Text.is_digit yr -> length yr = 4%nat ->
  exists d rest, yr = d :: rest /\ Text.is_space d = false.
Proof.
  intros Hd Hl. destruct yr as [|d rest]; [discriminate|].
  exists d, rest. split; [reflexivity|].
  apply digit_not_space. now apply Forall_inv in Hd.
Qed.

(** At one place of a text there is one month and year at most. *)
Lemma month_year_same_start ms yr w post ms' yr' w' post' :
  month_year ms yr w -> month_year ms' yr' w' ->
  w ++ post = w' ++ post' ->
  ms = ms' /\ yr = yr' /\ w = w'.
Proof.
  intros (ws & -> & Hm & Hml & [Hs _] & Hy & Hyl)
         (ws' & -> & Hm' & Hml' & [Hs' _] & Hy' & Hyl') E.
  rewrite <- !app_assoc in E.
  apply app_inj_1 in E as [<- E]; [|congruence].
  destruct (four_digits yr Hy Hyl) as (d & rest & -> & Hd).
  destruct (four_digits yr' Hy' Hyl') as (d' & rest' & -> & Hd').
  simpl in E.
  destruct (blanks_then_other ws ws' _ _ d d' Hs Hs' Hd Hd' E) as [<- E'].
  change (d :: rest ++ post) with ((d :: rest) ++ post) in E'.
  change (d' :: rest' ++ post') with ((d' :: rest') ++ post') in E'.
  apply app_inj_1 in E' as [E' _]; [|congruence].
  rewrite E'. repeat split.
Qed.

(** The search finds the first month and year of the text. *)
Lemma search_month_of_first s w ms yr :
  first month_dated w s -> month_year ms yr w ->
  Re.search Re.month_year_re s = Some (w, [ms; yr]).
Proof.
  intros Hf Hw.
  destruct (ReFacts.search_complete Re.month_year_re s) as [[w' caps] E].
  { destruct Hf as (pre & post & -> & _ & _).
    exists pre, w, post, [ms; yr]. split; [reflexivity|].
    apply PatternFacts.month_year_re_matches. now exists ms, yr. }
  destruct (ConcallFacts.search_month_first _ _ _ E)
    as (ms' & yr' & -> & Hw' & Hf').
  rewrite E.
  destruct Hf as (p & q & H & Hd & Hl), Hf' as (p' & q' & H' & Hd' & Hl').
  pose proof (Hl _ _ _ H' Hd'). pose proof (Hl' _ _ _ H Hd).
  rewrite H in H'. apply app_inj_1 in H' as [_ H']; [|lia].
  destruct (month_year_same_start _ _ _ _ _ _ _ _ Hw Hw' H')
    as (-> & -> & ->).
  reflexivity.
Qed.

Lemma month_of_range ms mo : Calendar.month_of ms = Some mo -> 1 <= mo <= 12.
Proof.
  unfold Calendar.month_of, Calendar.months.
  generalize (take 3 (Text.lower ms)). intros k. simpl.
  repeat (destruct (decide _); [intros [= <-]; lia|]).
  discriminate.
Qed.

Lemma mk_datetime_first y m :
  1 <= y <= 9999 -> 1 <= m <= 12 ->
  Calendar.mk_datetime y m 1 = Ok (Calendar.DateTime y m 1 0).
Proof.
  intros Hy Hm. unfold Calendar.mk_datetime, Calendar.MINYEAR,
    Calendar.MAXYEAR, Calendar.days_in_month.
  destruct (Z.leb_spec 1 y); [|lia]. destruct (Z.leb_spec y 9999); [|lia].
  destruct (Z.leb_spec 1 m); [|lia]. destruct (Z.leb_spec m 12); [|lia].
  simpl. destruct (m =? 2); [now destruct (Calendar.is_leap y)|].
  now destruct (_ || _).
Qed.

End MonthFacts.

(** ** Numbers and their digits *)

Module DigitFacts.
Import Text.

Lemma int_snoc s c : int (s ++ [c]) = 10 * int s + digit_val c.
Proof. unfold int. now rewrite fold_left_app. Qed.

Lemma digit_char_val c : is_digit c = true -> digit_char (digit_val c) = c.
Proof.
  intros H. unfold digit_char, digit_val, code.
  replace (Z.to_N (48 + (Z.of_N (N_of_ascii c) - 48))) with (N_of_ascii c)
    by lia.
  apply ascii_N_embedding.
Qed.

(** A number written on [w] digits is printed as it was written. *)
Lemma fixed_digits_int s :
  Shape.all is_digit s -> fixed_digits (length s) (int s) = s.
Proof.
  unfold Shape.all. induction s as [|c s IH] using rev_ind; [reflexivity|].
  intros [Hs Hc]%Forall_app. apply Forall_inv in Hc.
  rewrite length_app, Nat.add_comm. simpl. rewrite int_snoc.
  pose proof (AnnualFacts.digit_val_range c Hc) as Hr.
  rewrite (CutoffFacts.div_at _ 10 (int s) (digit_val c)) by lia.
  rewrite (CutoffFacts.mod_at _ 10 (int s) (digit_val c)) by lia.
  rewrite IH by assumption. now rewrite digit_char_val.
Qed.

End DigitFacts.

(** ** The quarterly scan *)

Module QuarterlyScan.
Import Quarterly QuarterlyStage.

Lemma quarterly_step_by_stage qr link :
  step qr link
  = match classify link with
    | Some r => qr ++ [r]
    | None => qr
    end.
Proof.
  unfold step, classify.
  destruct (_ && _); [|reflexivity].
  destruct (l_headers link) as [hdrs|]; [|reflexivity].
  destruct (l_cell link) as [ci|]; [|reflexivity].
  destruct (hdrs !! ci) as [h|]; [|reflexivity].
  destruct (Re.search _ _) as [[w [|ms [|yr [|x caps]]]]|]; try reflexivity.
  destruct (Calendar.month_of ms) as [mo|]; [|reflexivity].
  destruct (Calendar.mk_datetime _ _ _); reflexivity.
Qed.

Lemma quarterly_fold_by_stage links qr :
  fold_left step links qr = qr ++ omap classify links.
Proof.
  revert qr. induction links as [|link links IH]; intros qr; simpl.
  - now rewrite app_nil_r.
  - rewrite IH, quarterly_step_by_stage.
    destruct (classify link); [now rewrite <- app_assoc | reflexivity].
Qed.

(** The scan keeps what each link gives, in the order of the page. *)
Lemma quarterly_scan_by_stage links : scan links = omap classify links.
Proof. unfold scan. now rewrite quarterly_fold_by_stage. Qed.

(** What an accepted link looks like. *)
Lemma quarterly_classify_accepts link r :
  classify link = Some r ->
  Text.occurs_in "raw pdf" (Text.lower (or_empty (l_aria link)))
  /\ Text.occurs_in "/company/source/quarter/" (url r)
  /\ l_href link = Some (url r)
  /\ exists hdrs ci h w ms yr mo,
       l_headers link = Some hdrs /\ l_cell link = Some ci
       /\ hdrs !! ci = Some h
       /\ Shape.first Shape.month_dated w (Text.strip h)
       /\ Shape.month_year ms yr w
       /\ Calendar.month_of ms = Some mo
       /\ date r = Calendar.DateTime (Text.int yr) mo 1 0
       /\ 1 <= Text.int yr <= 9999 /\ 1 <= mo <= 12
       /\ display r = ms ++ lit " " ++ yr
       /\ date_str r = yr ++ lit "-" ++ Text.fixed_digits 2 mo.
Proof.
  unfold classify.
  destruct (_ && _) eqn:Ec; [|discriminate].
  apply andb_prop in Ec as [Ea Eh].
  destruct (l_headers link) as [hdrs|]; [|discriminate].
  destruct (l_cell link) as [ci|]; [|discriminate].
  destruct (hdrs !! ci) as [h|] eqn:Eci; [|discriminate].
  destruct (Re.search _ _) as [[w caps]|] eqn:Es; [|discriminate].
  destruct (ConcallFacts.search_month_first _ _ _ Es)
    as (ms & yr & -> & Hw & Hf).
  destruct (Calendar.month_of ms) as [mo|] eqn:Emo; [|discriminate].
  destruct (Calendar.mk_datetime _ _ _) as [d|] eqn:Ed; [|discriminate].
  intros [= <-]. cbn [url date display date_str].
  apply ConcallScan.mk_datetime_ok in Ed as (-> & Hy & Hm & _).
  apply TextFacts.contains_spec in Ea, Eh.
  split; [exact Ea|]. split; [exact Eh|]. split.
  { destruct (l_href link) as [href|]; [reflexivity|].
    destruct Eh as (pre & post & E). simpl in E.
    destruct pre; discriminate. }
  exists hdrs, ci, h, w, ms, yr, mo.
  repeat split; try assumption; lia.
Qed.

End QuarterlyScan.

(** X13: the quarterly scan keeps, in the order of the page, what each
    link gives on its own, and a link gives a report exactly when its
    label has "raw pdf" (in any case), its target has
    "/company/source/quarter/", and the first month of three letters and
    year of four digits in the header above its cell names one of the
    twelve months and a year that is not 0000; a later month and year in
    the header does not count.  The report is dated the first day of that
    month, and it carries the month and the year as written and the year,
    as written, with the number of the month. *)
Theorem quarterly_candidate_iff (all_links : list Link) (link : Link)
    (r : Quarterly.report) :
  Quarterly.scan all_links = omap QuarterlyStage.classify all_links
  /\ (QuarterlyStage.classify link = Some r
      <->
      Text.occurs_in "raw pdf" (Text.lower (or_empty (l_aria link)))
      /\ Text.occurs_in "/company/source/quarter/" (Quarterly.url r)
      /\ l_href link = Some (Quarterly.url r)
      /\ exists hdrs ci h w ms yr mo,
           l_headers link = Some hdrs /\ l_cell link = Some ci
           /\ hdrs !! ci = Some h
           /\ Shape.first Shape.month_dated w (Text.strip h)
           /\ Shape.month_year ms yr w
           /\ Calendar.month_of ms = Some mo
           /\ Quarterly.date r = Calendar.DateTime (Text.int yr) mo 1 0
           /\ 1 <= Text.int yr <= 9999 /\ 1 <= mo <= 12
           /\ Quarterly.display r = ms ++ lit " " ++ yr
           /\ Quarterly.date_str r
              = yr ++ lit "-" ++ Text.fixed_digits 2 mo).
Proof.
  split; [apply QuarterlyScan.quarterly_scan_by_stage|]. split.
  - apply QuarterlyScan.quarterly_classify_accepts.
  - intros (Ha & Hu & Hh & hdrs & ci & h & w & ms & yr & mo & Hhd & Hci
            & Hl & Hf & Hw & Hmo & Hd & Hy & Hm & Hdisp & Hstr).
    apply TextFacts.contains_spec in Ha, Hu.
    unfold QuarterlyStage.classify. cbv zeta. rewrite Ha, Hh.
    change (or_empty (Some (Quarterly.url r))) with (Quarterly.url r).
    rewrite Hu, Hhd, Hci, Hl. cbn [andb].
    rewrite (MonthFacts.search_month_of_first _ _ _ _ Hf Hw), Hmo.
    rewrite MonthFacts.mk_datetime_first by assumption.
    destruct r as [d disp ds u]. simpl in *. now subst.
Qed.

(** ** What a bucket holds *)

Module BucketFacts.
Import Concall ConcallStage.

Lemma concall_scan_by_stage links : scan links = collect (sightings links).
Proof.
  unfold scan, collect, sightings.
  generalize (∅ : gmap str bucket).
  induction links as [|link links IH]; intros d; [reflexivity|].
  simpl. unfold step at 2.
  destruct (classify link) as [s|]; simpl; apply IH.
Qed.

Lemma collect_snoc ss s :
  collect (ss ++ [s]) = record_sighting (collect ss) s.
Proof. unfold collect. now rewrite fold_left_app. Qed.

(** A link is the transcript or the presentation, never both. *)
Lemma sighting_one_kind link s :
  classify link = Some s ->
  (s_is_t s = true /\ s_is_p s = false)
  \/ (s_is_t s = false /\ s_is_p s = true).
Proof.
  intros H. apply ConcallFacts.classify_accepts in H as (Hk & _).
  destruct Hk as [(_ & Ht & Hp)|(_ & Ht & Hp)]; [left | right]; now split.
Qed.

Lemma sightings_one_kind links :
  Forall (fun s => (s_is_t s = true /\ s_is_p s = false)
                   \/ (s_is_t s = false /\ s_is_p s = true))
    (sightings links).
Proof.
  unfold sightings. induction links as [|link links IH]; [constructor|].
  simpl. destruct (classify link) as [s|] eqn:E; [|exact IH].
  constructor; [now apply (sighting_one_kind link) | exact IH].
Qed.

Lemma describes_other ss s k found :
  s_key s <> k -> describes ss k found -> describes (ss ++ [s]) k found.
Proof.
  intros Hk. destruct found as [b|]; simpl.
  - intros ((i & s0 & Hi & Hk0 & Hd & Hdisp & Hfirst) & Ht & Htn & Hp & Hpn).
    split; [|split; [|split; [|split]]].
    + exists i, s0. repeat split; try assumption.
      * now apply lookup_app_l_Some.
      * intros j s' Hj Hs'. apply (Hfirst j s' Hj).
        apply lookup_lt_Some in Hi.
        now rewrite lookup_app_l in Hs' by lia.
    + intros u Hu. destruct (Ht u Hu) as (s1 & Hin & H1).
      exists s1. split; [apply elem_of_app; now left | exact H1].
    + intros Hn s1 [Hin|Hin]%elem_of_app; [now apply Htn|].
      apply list_elem_of_singleton in Hin. now subst.
    + intros u Hu. destruct (Hp u Hu) as (s1 & Hin & H1).
      exists s1. split; [apply elem_of_app; now left | exact H1].
    + intros Hn s1 [Hin|Hin]%elem_of_app; [now apply Hpn|].
      apply list_elem_of_singleton in Hin. now subst.
  - intros Hnone s1 [Hin|Hin]%elem_of_app; [now apply Hnone|].
    apply list_elem_of_singleton in Hin. now subst.
Qed.

Lemma last_in {A} (l : list A) x : x ∈ l ++ [x].
Proof. apply elem_of_app. right. apply list_elem_of_here. Qed.

Lemma in_snoc {A} (l : list A) x y : y ∈ l ++ [x] -> y ∈ l \/ y = x.
Proof.
  intros [H|H]%elem_of_app; [now left|].
  right. now apply list_elem_of_singleton in H.
Qed.

(** The buckets say what the sightings say. *)
Lemma collect_describes ss k :
  Forall (fun s => (s_is_t s = true /\ s_is_p s = false)
                   \/ (s_is_t s = false /\ s_is_p s = true)) ss ->
  describes ss k (collect ss !! k).
Proof.
  induction ss as [|s ss IH] using rev_ind; intros Hkind.
  - unfold collect. simpl. rewrite lookup_empty. simpl.
    intros s Hs. inversion Hs.
  - apply Forall_app in Hkind as [Hss Hs]. apply Forall_inv in Hs.
    specialize (IH Hss). rewrite collect_snoc.
    destruct (decide (s_key s = k)) as [Ek|Ek];
      [|unfold record_sighting; rewrite lookup_insert_ne by assumption;
        now apply describes_other].
    unfold record_sighting. rewrite Ek, lookup_insert_eq.
    destruct (collect ss !! k) as [b|] eqn:Eb; simpl in IH |- *.
    + destruct IH as ((i & s0 & Hi & Hk0 & Hd & Hdisp & Hfirst)
                      & Ht & Htn & Hp & Hpn).
      assert (Hfirst' : exists i s1,
                 (ss ++ [s]) !! i = Some s1 /\ s_key s1 = k
                 /\ date b = s_date s1 /\ display b = s_display s1
                 /\ forall j s', (j < i)%nat -> (ss ++ [s]) !! j = Some s' ->
                                 s_key s' <> k).
      { exists i, s0. repeat split; try assumption.
        - now apply lookup_app_l_Some.
        - intros j s' Hj Hs'. apply (Hfirst j s' Hj).
          apply lookup_lt_Some in Hi.
          now rewrite lookup_app_l in Hs' by lia. }
      destruct Hs as [[Hst Hsp]|[Hst Hsp]]; rewrite Hst, ?Hsp; simpl.
      * split; [exact Hfirst'|]. split; [|split; [|split]].
        -- intros u [= <-]. exists s. split; [apply last_in|]. now repeat split.
        -- discriminate.
        -- intros u Hu. destruct (Hp u Hu) as (s1 & Hin & H1).
           exists s1. split; [apply elem_of_app; now left | exact H1].
        -- intros Hn s1 [Hin| ->]%in_snoc; [now apply Hpn | intros _; exact Hsp].
      * split; [exact Hfirst'|]. split; [|split; [|split]].
        -- intros u Hu. destruct (Ht u Hu) as (s1 & Hin & H1).
           exists s1. split; [apply elem_of_app; now left | exact H1].
        -- intros Hn s1 [Hin| ->]%in_snoc; [now apply Htn | intros _; exact Hst].
        -- intros u [= <-]. exists s. split; [apply last_in|]. now repeat split.
        -- discriminate.
    + assert (Hfirst' : forall d disp,
                 d = s_date s -> disp = s_display s ->
                 exists i s1,
                 (ss ++ [s]) !! i = Some s1 /\ s_key s1 = k
                 /\ d = s_date s1 /\ disp = s_display s1
                 /\ forall j s', (j < i)%nat -> (ss ++ [s]) !! j = Some s' ->
                                 s_key s' <> k).
      { intros d disp -> ->. exists (length ss), s.
        split; [now rewrite lookup_app_r, Nat.sub_diag by lia|].
        repeat split; [exact Ek|].
        intros j s' Hj Hs'. rewrite lookup_app_l in Hs' by lia.
        apply IH. now apply list_elem_of_lookup_2 in Hs'. }
      destruct Hs as [[Hst Hsp]|[Hst Hsp]]; rewrite Hst, ?Hsp; simpl.
      * split; [now apply Hfirst'|]. split; [|split; [|split]].
        -- intros u [= <-]. exists s. split; [apply last_in|]. now repeat split.
        -- discriminate.
        -- discriminate.
        -- intros _ s1 [Hin| ->]%in_snoc; [|intros _; exact Hsp].
           intros Hk1. now apply IH in Hin.
      * split; [now apply Hfirst'|]. split; [|split; [|split]].
        -- discriminate.
        -- intros _ s1 [Hin| ->]%in_snoc; [|intros _; exact Hst].
           intros Hk1. now apply IH in Hin.
        -- intros u [= <-]. exists s. split; [apply last_in|]. now repeat split.
        -- discriminate.
Qed.

End BucketFacts.

(** X14: the buckets of a scan are what the accepted links say, taken in
    the order of the page.  A key has a bucket exactly when some accepted
    link has this key; the date and the display text of the bucket are
    those of the first such link; its transcript target, if it has one,
    is that of an accepted transcript link of this key, and it has none
    only when no such link is on the page; the same holds for the
    presentation. *)
Theorem bucket_says_what_links_say (all_links : list Link) (k : str) :
  Concall.scan all_links
  = ConcallStage.collect (ConcallStage.sightings all_links)
  /\ ConcallStage.describes (ConcallStage.sightings all_links) k
       (Concall.scan all_links !! k)
  /\ (is_Some (Concall.scan all_links !! k)
      <-> exists link s,
            link ∈ all_links /\ Concall.classify link = Some s
            /\ Concall.s_key s = k).
Proof.
  split; [apply BucketFacts.concall_scan_by_stage|].
  assert (Hd : ConcallStage.describes (ConcallStage.sightings all_links) k
                 (Concall.scan all_links !! k)).
  { rewrite BucketFacts.concall_scan_by_stage.
    apply BucketFacts.collect_describes, BucketFacts.sightings_one_kind. }
  split; [exact Hd|]. split.
  - intros [b Hb]. rewrite Hb in Hd. simpl in Hd.
    destruct Hd as ((i & s & Hi & Hk & _) & _).
    apply list_elem_of_lookup_2 in Hi.
    unfold ConcallStage.sightings in Hi.
    apply list_elem_of_omap in Hi as (link & Hin & Hc).
    now exists link, s.
  - intros (link & s & Hin & Hc & Hk).
    destruct (Concall.scan all_links !! k) as [b|] eqn:Eb; [eauto|].
    simpl in Hd. exfalso. apply (Hd s); [|exact Hk].
    unfold ConcallStage.sightings. apply list_elem_of_omap.
    now exists link.
Qed.

(** ** Links that are accepted, and only those *)

Module AcceptFacts.
Import Shape Concall.

(** The first level with a month and a year decides, and only it. *)
Lemma context_date_first lv i t w ms yr :
  lv !! i = Some (Some t) ->
  first month_dated w t -> month_year ms yr w ->
  (forall j t', (j < i)%nat -> lv !! j = Some (Some t') -> undated t') ->
  context_date lv = Some (ms, yr).
Proof.
  revert i. induction lv as [|[t0|] lv IH]; intros i Hi Hf Hw Hbefore;
    [discriminate| |].
  - destruct i as [|i]; simpl in Hi |- *.
    + injection Hi as ->.
      now rewrite (MonthFacts.search_month_of_first t w ms yr Hf Hw).
    + destruct (Re.search Re.month_year_re t0) as [[w0 caps]|] eqn:Es.
      * destruct (ConcallFacts.search_month_first _ _ _ Es)
          as (ms0 & yr0 & _ & Hw0 & (pre & post & E & _)).
        exfalso. apply (Hbefore O t0 ltac:(lia) eq_refl w0);
          [now exists ms0, yr0 | now exists pre, post].
      * apply (IH i Hi Hf Hw). intros j t' Hj. apply (Hbefore (S j)). lia.
  - destruct i as [|i]; [discriminate|]. simpl in Hi |- *.
    apply (IH i Hi Hf Hw). intros j t' Hj. apply (Hbefore (S j)). lia.
Qed.

End AcceptFacts.

(** X15: a link is accepted as a transcript or a presentation exactly when
    its trimmed text is "transcript" or "ppt" in any case, it has a target
    that is not empty, and the nearest of the three levels above it that
    shows three letters, blanks and four digits shows, at the first such
    place, a month of the twelve and a year that is not 0000.  The nearest
    level with such a place decides even when it shows no month there: a
    level farther up is not looked at then.  The bucket key is the year
    and the month as [strftime] prints them, and the display text the
    month and the year as written. *)
Theorem concall_link_iff (link : Link) (s : Concall.sighting) :
  Concall.classify link = Some s
  <->
  ((Text.lower (Text.strip (l_text link)) = lit "transcript"
    /\ Concall.s_is_t s = true /\ Concall.s_is_p s = false)
   \/ (Text.lower (Text.strip (l_text link)) = lit "ppt"
       /\ Concall.s_is_t s = false /\ Concall.s_is_p s = true))
  /\ l_href link = Some (Concall.s_href s) /\ Concall.s_href s <> []
  /\ exists i t w ms yr mo,
       (i < 3)%nat /\ l_ancestors link !! i = Some t
       /\ Shape.first Shape.month_dated w t /\ Shape.month_year ms yr w
       /\ (forall j t', (j < i)%nat ->
             l_ancestors link !! j = Some t' -> Shape.undated t')
       /\ Calendar.month_of ms = Some mo
       /\ Calendar.mk_datetime (Text.int yr) mo 1 = Ok (Concall.s_date s)
       /\ Concall.s_key s = Calendar.strftime_Ym (Concall.s_date s)
       /\ Concall.s_display s = ms ++ lit " " ++ yr.
Proof.
  split; [apply ConcallFacts.classify_accepts|].
  intros (Hkind & Hh & Hne & i & t & w & ms & yr & mo & Hi & Ht & Hf & Hw
          & Hbefore & Hmo & Hd & Hk & Hdisp).
  unfold Concall.classify. cbv zeta. rewrite Hh.
  change (or_empty (Some (Concall.s_href s))) with (Concall.s_href s).
  assert (Hnon : Text.nonempty (Concall.s_href s) = true)
    by (destruct (Concall.s_href s); [contradiction | reflexivity]).
  rewrite Hnon.
  rewrite (AcceptFacts.context_date_first (Concall.levels link) i t w ms yr).
  - rewrite Hmo, Hd.
    destruct s as [key d disp is_t is_p href]. simpl in *. subst key disp.
    destruct Hkind as [(E & -> & ->)|(E & -> & ->)]; rewrite E; reflexivity.
  - apply ConcallFacts.levels_lookup. now split.
  - exact Hf.
  - exact Hw.
  - intros j t' Hj Ht'. apply ConcallFacts.levels_lookup in Ht' as [_ Ht'].
    now apply (Hbefore j).
Qed.

(** ** The order of the page *)

Module PageOrder.

Section Key.
Context {A : Type} (key : A -> str).

(** The [seen] set keeps the first entry of every target, and loses no
    target. *)
Lemma dedup_by_first seen l x :
  x ∈ dedup_by key seen l
  <-> exists i,
        l !! i = Some x /\ (key x ∉ seen)
        /\ forall j y, (j < i)%nat -> l !! j = Some y -> key y <> key x.
Proof.
  revert seen. induction l as [|a l IH]; intros seen; simpl.
  - split; [intros H; inversion H | intros (i & Hi & _); discriminate].
  - destruct (bool_decide (key a ∈ seen)) eqn:E.
    + apply bool_decide_eq_true in E. rewrite IH. split.
      * intros (i & Hi & Hs & Hb). exists (S i). repeat split; try assumption.
        intros [|j] y Hj Hy; simpl in Hy.
        -- injection Hy as <-. intros Ek. rewrite Ek in E. contradiction.
        -- apply (Hb j); [lia | assumption].
      * intros (i & Hi & Hs & Hb). destruct i as [|i]; simpl in Hi.
        -- injection Hi as <-. contradiction.
        -- exists i. repeat split; try assumption.
           intros j y Hj. apply (Hb (S j)). lia.
    + apply bool_decide_eq_false in E. rewrite elem_of_cons, IH. split.
      * intros [->|(i & Hi & Hs & Hb)].
        -- exists O. repeat split; [assumption|]. intros j y Hj. lia.
        -- exists (S i). repeat split; [assumption| |].
           ++ intros Hin. apply Hs, elem_of_union. now left.
           ++ intros [|j] y Hj Hy; simpl in Hy.
              ** injection Hy as <-. intros Ek. apply Hs, elem_of_union.
                 right. now apply elem_of_singleton.
              ** apply (Hb j); [lia | assumption].
      * intros (i & Hi & Hs & Hb). destruct i as [|i]; simpl in Hi.
        -- left. now injection Hi.
        -- right. exists i. repeat split; [assumption| |].
           ++ assert (key a <> key x)
                by (apply (Hb O a); [lia | reflexivity]).
              intros [Hin|Hin]%elem_of_union; [contradiction|].
              apply elem_of_singleton in Hin. congruence.
           ++ intros j y Hj. apply (Hb (S j)). lia.
Qed.

Lemma dedup_by_sublist seen l : sublist (dedup_by key seen l) l.
Proof.
  revert seen. induction l as [|a l IH]; intros seen; simpl.
  - constructor.
  - destruct (bool_decide (key a ∈ seen)).
    + apply sublist_cons, IH.
    + apply sublist_skip, IH.
Qed.
End Key.

Lemma filter_same {A} (f g : A -> bool) l :
  (forall x, f x = g x) -> List.filter f l = List.filter g l.
Proof.
  intros H. induction l as [|x l IH]; simpl; [reflexivity|].
  now rewrite H, IH.
Qed.

Lemma year_tie y r :
  Sort.tie (fun a b => Annual.year a <? Annual.year b) (Annual.Report y []) r
  = (Annual.year r =? y).
Proof.
  unfold Sort.tie. simpl.
  destruct (Z.ltb_spec y (Annual.year r)), (Z.ltb_spec (Annual.year r) y),
    (Z.eqb_spec (Annual.year r) y); simpl; try reflexivity; lia.
Qed.

End PageOrder.

(** X16: sorting keeps the order of the page among entries of the same
    date: the annual reports of one year, the ratings of one day and the
    quarterly reports of one month stand in the ranked list as they stood
    on the page. *)
Theorem ranked_keeps_page_order
    (cutoff : option Calendar.datetime) (all_links : list Link) :
  (forall y,
      List.filter (fun r => Annual.year r =? y)
        (Annual.ranked cutoff all_links)
      = List.filter (fun r => Annual.year r =? y)
          (Annual.scan cutoff all_links))
  /\ (forall z,
        List.filter
          (Sort.tie (fun a b => Calendar.ltb (Credit.date a) (Credit.date b))
             z)
          (Credit.ranked cutoff all_links)
        = List.filter
            (Sort.tie
               (fun a b => Calendar.ltb (Credit.date a) (Credit.date b)) z)
            (Credit.scan cutoff all_links))
  /\ (forall z,
        List.filter
          (Sort.tie
             (fun a b => Calendar.ltb (Quarterly.date a) (Quarterly.date b))
             z)
          (Quarterly.ranked 0 all_links)
        = List.filter
            (Sort.tie
               (fun a b =>
                  Calendar.ltb (Quarterly.date a) (Quarterly.date b)) z)
            (Quarterly.scan all_links)).
Proof.
  split; [|split].
  - intros y. unfold Annual.ranked.
    rewrite !(PageOrder.filter_same (fun r => Annual.year r =? y)
                (Sort.tie (fun a b => Annual.year a <? Annual.year b)
                   (Annual.Report y [])))
      by (intros r; symmetry; apply PageOrder.year_tie).
    apply SortFacts.sort_desc_stable.
    intros a b c H1 H2. apply Z.ltb_ge in H1, H2. apply Z.ltb_ge. lia.
  - intros z. unfold Credit.ranked. apply SortFacts.sort_desc_stable.
    intros a b c. apply CalendarFacts.date_ltb_negtrans.
  - intros z. unfold Quarterly.ranked, limit. simpl.
    apply SortFacts.sort_desc_stable.
    intros a b c. apply CalendarFacts.date_ltb_negtrans.
Qed.

(** X17: of the candidates that pass the date window, the annual and the
    rating scan keep, for every target, the one that comes first on the
    page, and they lose no target; the candidates kept stand in the order
    of the page. *)
Theorem scan_keeps_first_of_each_target
    (cutoff : option Calendar.datetime) (all_links : list Link) :
  (forall r,
      r ∈ Annual.scan cutoff all_links
      <-> exists i,
            Annual.recency_filter cutoff (omap Annual.classify all_links) !! i
            = Some r
            /\ forall j r',
                 (j < i)%nat ->
                 Annual.recency_filter cutoff
                   (omap Annual.classify all_links) !! j = Some r' ->
                 Annual.url r' <> Annual.url r)
  /\ sublist (Annual.scan cutoff all_links)
       (Annual.recency_filter cutoff (omap Annual.classify all_links))
  /\ (forall r,
        r ∈ Credit.scan cutoff all_links
        <-> exists i,
              Credit.recency_filter cutoff
                (omap Credit.classify all_links) !! i = Some r
              /\ forall j r',
                   (j < i)%nat ->
                   Credit.recency_filter cutoff
                     (omap Credit.classify all_links) !! j = Some r' ->
                   Credit.url r' <> Credit.url r)
  /\ sublist (Credit.scan cutoff all_links)
       (Credit.recency_filter cutoff (omap Credit.classify all_links)).
Proof.
  rewrite AnnualScan.annual_scan_by_stage, CreditScan.credit_scan_by_stage.
  unfold Annual.dedup, Credit.dedup.
  split; [|split; [apply PageOrder.dedup_by_sublist|split;
                   [|apply PageOrder.dedup_by_sublist]]].
  - intros r. rewrite PageOrder.dedup_by_first. split.
    + intros (i & Hi & _ & Hb). now exists i.
    + intros (i & Hi & Hb). exists i. split; [exact Hi|].
      split; [apply not_elem_of_empty | exact Hb].
  - intros r. rewrite PageOrder.dedup_by_first. split.
    + intros (i & Hi & _ & Hb). now exists i.
    + intros (i & Hi & Hb). exists i. split; [exact Hi|].
      split; [apply not_elem_of_empty | exact Hb].
Qed.

(** ** What a run may touch *)

Module RunSafety.
Import Fetch Tally Safety.

Lemma stays_refl dir links w : stays dir links w w.
Proof. unfold stays. repeat split; try lia. now left. Qed.

Lemma stays_trans dir links w1 w2 w3 :
  stays dir links w1 w2 -> stays dir links w2 w3 -> stays dir links w1 w3.
Proof.
  intros (R1 & F1 & ? & ? & ?) (R2 & F2 & ? & ? & ?).
  split; [|split; [|lia]].
  - intros u Hu. destruct (R2 u Hu) as [Hu2|Hu2]; [now apply R1 | now right].
  - intros q Hq. now rewrite F2, F1.
Qed.

Lemma stays_more dir links links' w w' :
  links ⊆ links' -> stays dir links w w' -> stays dir links' w w'.
Proof.
  intros Hsub (R & F & Hc). split; [|split; assumption].
  intros u Hu. destruct (R u Hu) as [H|(link & Hin & Hh)]; [now left|].
  right. exists link. split; [now apply Hsub | exact Hh].
Qed.

Lemma bounded_more dir links links' {A} (m : M A) :
  links ⊆ links' -> bounded dir links m -> bounded dir links' m.
Proof.
  intros Hsub Hm w. destruct (Hm w) as (w' & r & E & Hs).
  exists w', r. split; [exact E | now apply (stays_more dir links)].
Qed.

Lemma bounded_ret dir links {A} (a : A) : bounded dir links (ret a).
Proof. intros w. exists w, (Ok a). split; [reflexivity | apply stays_refl]. Qed.

Lemma bounded_bind dir links {A B} (m : M A) (k : A -> M B) :
  bounded dir links m -> (forall a, bounded dir links (k a)) ->
  bounded dir links (bind m k).
Proof.
  intros Hm Hk w. destruct (Hm w) as (w1 & r & E & Hs). unfold bind.
  rewrite E. destruct r as [a|e].
  - destruct (Hk a w1) as (w2 & r2 & E2 & Hs2).
    exists w2, r2. split; [exact E2 | now apply (stays_trans _ _ w w1)].
  - now exists w1, (Raise e).
Qed.

Lemma bounded_try dir links {A} (m : M A) (h : exn -> M A) :
  bounded dir links m -> (forall e, bounded dir links (h e)) ->
  bounded dir links (try_except m h).
Proof.
  intros Hm Hh w. destruct (Hm w) as (w1 & r & E & Hs). unfold try_except.
  rewrite E. destruct r as [a|e].
  - now exists w1, (Ok a).
  - destruct (Hh e w1) as (w2 & r2 & E2 & Hs2).
    exists w2, r2. split; [exact E2 | now apply (stays_trans _ _ w w1)].
Qed.

Lemma under_join dir a b : under dir (join (join dir a) b).
Proof.
  unfold under, join. exists (a ++ lit "/" ++ b). now rewrite <- !app_assoc.
Qed.

Lemma asked_among us os x :
  x ∈ concat (zip_with asked us os) -> x ∈ us.
Proof.
  revert os. induction us as [|u us IH]; intros [|o os]; simpl;
    try (intros H; now inversion H).
  intros [H|H]%elem_of_app.
  - destruct o; simpl in H; try (now inversion H);
      apply list_elem_of_singleton in H; subst; left.
  - right. now apply (IH os).
Qed.

Lemma filter_elem {A} (f : A -> bool) (l : list A) x :
  x ∈ List.filter f l -> x ∈ l.
Proof.
  induction l as [|y l IH]; simpl; [intros H; inversion H|].
  destruct (f y).
  - intros [->|H]%elem_of_cons; [left | right; now apply IH].
  - intros H. right. now apply IH.
Qed.

Lemma occurrences_nonneg o os : 0 <= occurrences o os.
Proof. unfold occurrences. lia. Qed.

Section Environment.
Variable net : list str -> str -> response.
Variable writable : str -> bool.
Variable stat_fails : list str -> str -> bool.
Variable dir : str.

(** A loop of single fetches whose candidates come from the links and
    whose destinations lie in the folder. *)
Lemma loop_bounded {A} links min_size (u p : A -> str) (l : list A) :
  (forall x, x ∈ l -> exists link, link ∈ links /\ l_href link = Some (u x)) ->
  (forall x, under dir (p x)) ->
  bounded dir links
    (for_each
       (fun x => bind (fetch net writable stat_fails min_size (u x) (p x))
                   (fun o => ret [o]))
       l).
Proof.
  intros Hu Hp w.
  destruct (LoopFacts.loop_accounts net writable stat_fails min_size u p l w)
    as (w' & r & os & E & ((C1 & C2 & C3) & R & F) & _).
  exists w', r. split; [exact E|].
  pose proof (occurrences_nonneg downloaded os).
  pose proof (occurrences_nonneg skipped_existing os).
  pose proof (occurrences_nonneg failed os).
  split; [|split; [|lia]].
  - intros v Hv. rewrite R in Hv. apply elem_of_app in Hv as [Hv|Hv];
      [now left|]. right.
    apply asked_among, list_elem_of_fmap in Hv as (x & -> & Hx).
    now apply Hu.
  - intros q Hq. apply F.
    intros (x & -> & _)%list_elem_of_fmap. apply Hq, Hp.
Qed.

Lemma annual_from_links cutoff links r :
  r ∈ Annual.ranked cutoff links ->
  exists link, link ∈ links /\ l_href link = Some (Annual.url r).
Proof.
  intros H. rewrite AnnualScan.annual_ranked_perm in H.
  rewrite AnnualScan.annual_scan_by_stage in H.
  apply (fun H0 => elem_of_sublist _ _ _ H0
                     (PageOrder.dedup_by_sublist _ _ _)) in H.
  unfold Annual.recency_filter in H. apply filter_elem in H.
  apply list_elem_of_omap in H as (link & Hin & Hc).
  exists link. split; [exact Hin|].
  now apply AnnualScan.annual_classify_iff in Hc as (_ & _ & _ & Hh & _).
Qed.

Lemma credit_classify_href link r :
  Credit.classify link = Some r -> l_href link = Some (Credit.url r).
Proof.
  unfold Credit.classify. destruct (_ && _) eqn:E; [|discriminate].
  apply andb_prop in E as [_ Hne].
  destruct (Re.search _ _) as [[w [|day [|ms [|yr [|x caps]]]]]|];
    try discriminate.
  destruct (Calendar.month_of ms); [|discriminate].
  destruct (Calendar.mk_datetime _ _ _); [|discriminate].
  intros [= <-]. simpl.
  destruct (l_href link); [reflexivity | discriminate].
Qed.

Lemma credit_from_links cutoff links r :
  r ∈ Credit.ranked cutoff links ->
  exists link, link ∈ links /\ l_href link = Some (Credit.url r).
Proof.
  intros H. rewrite CreditScan.credit_ranked_perm in H.
  rewrite CreditScan.credit_scan_by_stage in H.
  apply (fun H0 => elem_of_sublist _ _ _ H0
                     (PageOrder.dedup_by_sublist _ _ _)) in H.
  unfold Credit.recency_filter in H. apply filter_elem in H.
  apply list_elem_of_omap in H as (link & Hin & Hc).
  exists link. split; [exact Hin | now apply credit_classify_href].
Qed.

Lemma quarterly_from_links num links r :
  r ∈ Quarterly.ranked num links ->
  exists link, link ∈ links /\ l_href link = Some (Quarterly.url r).
Proof.
  intros H. unfold Quarterly.ranked in H.
  apply ConcallScan.limit_subseteq in H.
  rewrite SortFacts.sort_desc_perm in H.
  rewrite QuarterlyScan.quarterly_scan_by_stage in H.
  apply list_elem_of_omap in H as (link & Hin & Hc).
  exists link. split; [exact Hin|].
  now apply QuarterlyScan.quarterly_classify_accepts in Hc as (_ & _ & Hh & _).
Qed.

Lemma sighting_from_links links s :
  s ∈ ConcallStage.sightings links ->
  exists link, link ∈ links /\ l_href link = Some (Concall.s_href s).
Proof.
  intros H. apply list_elem_of_omap in H as (link & Hin & Hc).
  exists link. split; [exact Hin|].
  now apply ConcallFacts.classify_accepts in Hc as (_ & Hh & _).
Qed.

Lemma bucket_from_links links k b u :
  Concall.scan links !! k = Some b ->
  Concall.transcript b = Some u \/ Concall.ppt b = Some u ->
  exists link, link ∈ links /\ l_href link = Some u.
Proof.
  intros Hb Hu.
  pose proof (BucketFacts.collect_describes (ConcallStage.sightings links) k
                (BucketFacts.sightings_one_kind links)) as Hd.
  rewrite <- BucketFacts.concall_scan_by_stage, Hb in Hd. simpl in Hd.
  destruct Hd as (_ & Ht & _ & Hp & _).
  destruct Hu as [Hu|Hu].
  - destruct (Ht u Hu) as (s & Hin & _ & _ & <-).
    now apply sighting_from_links.
  - destruct (Hp u Hu) as (s & Hin & _ & _ & <-).
    now apply sighting_from_links.
Qed.

Variable o : App.options.
Variable p : App.session.

Lemma lift_bounded links {A} (r : result A) : bounded dir links (App.lift r).
Proof. intros w. exists w, r. split; [reflexivity | apply stays_refl]. Qed.

Lemma annual_section_bounded :
  bounded dir (App.links_annual p)
    (App.annual_section net writable stat_fails dir o p).
Proof.
  unfold App.annual_section. apply bounded_bind; [apply lift_bounded|].
  intros cutoff. apply loop_bounded.
  - intros r. apply annual_from_links.
  - intros r. apply under_join.
Qed.

Lemma credit_section_bounded :
  bounded dir (App.links_credit p)
    (App.credit_section net writable stat_fails dir o p).
Proof.
  unfold App.credit_section. apply bounded_bind; [apply lift_bounded|].
  intros cutoff. apply loop_bounded.
  - intros r. apply credit_from_links.
  - intros r. apply under_join.
Qed.

Lemma quarterly_section_bounded :
  bounded dir (App.links_quarterly p)
    (App.quarterly_section net writable stat_fails dir o p).
Proof.
  unfold App.quarterly_section. apply loop_bounded.
  - intros r. apply quarterly_from_links.
  - intros r. apply under_join.
Qed.

Lemma concall_section_bounded :
  bounded dir (App.links_concalls p)
    (App.concall_section net writable stat_fails dir o p).
Proof.
  unfold App.concall_section. cbv zeta. intros w.
  destruct (ConcallLoop.concall_loop_accounts net writable stat_fails dir
              (App.d_transcripts o) (App.d_presentations o)
              (Concall.scan (App.links_concalls p))
              (Concall.sorted_dates (App.num_concalls o)
                 (Concall.scan (App.links_concalls p))) w)
    as (w' & r & os & E & _ & _ & (C1 & C2 & C3) & R & F).
  { apply Forall_forall. intros k. apply ConcallScan.sorted_dates_present. }
  exists w', r. split; [exact E|].
  pose proof (occurrences_nonneg downloaded os).
  pose proof (occurrences_nonneg skipped_existing os).
  pose proof (occurrences_nonneg failed os).
  split; [|split; [|lia]].
  - intros u Hu. destruct (R u Hu) as [H'|(k & b & _ & Hb & Hor)];
      [now left|]. right.
    apply (bucket_from_links _ k b u Hb).
    destruct Hor as [[_ Ht]|[_ Hp]]; [now left | now right].
  - intros q Hq. apply F. intros k _.
    split; intros ->; apply Hq, under_join.
Qed.

Lemma when_bounded links b m :
  bounded dir links m -> bounded dir links (App.when b m).
Proof.
  intros Hm. unfold App.when. destruct b; [|apply bounded_ret].
  apply bounded_bind; [exact Hm | intros _; apply bounded_ret].
Qed.

Lemma run_bounded :
  bounded dir
    (App.links_annual p ++ App.links_credit p ++ App.links_concalls p
     ++ App.links_quarterly p)
    (App.run net writable stat_fails dir o p).
Proof.
  unfold App.run. apply bounded_try; [|intros e; apply bounded_ret].
  unfold App.sections.
  apply bounded_bind; [|intros _; apply bounded_bind;
                        [|intros _; apply bounded_bind; [|intros _]]].
  - apply when_bounded.
    apply (bounded_more dir (App.links_annual p));
      [set_solver | apply annual_section_bounded].
  - apply when_bounded.
    apply (bounded_more dir (App.links_credit p));
      [set_solver | apply credit_section_bounded].
  - apply when_bounded.
    apply (bounded_more dir (App.links_concalls p));
      [set_solver | apply concall_section_bounded].
  - apply when_bounded.
    apply (bounded_more dir (App.links_quarterly p));
      [set_solver | apply quarterly_section_bounded].
Qed.

End Environment.

End RunSafety.

(** X18: a run always ends without an exception, whatever the server and
    the page do.  Every request it sends goes to the target of an anchor
    of the pages it has read; it changes no file outside the folder of the
    company; and it never lowers a counter. *)
Theorem run_stays_on_page_and_in_folder
    (net : list str -> str -> Fetch.response) (writable : str -> bool)
    (stat_fails : list str -> str -> bool)
    (company_dir : str) (o : App.options) (p : App.session)
    (w : Fetch.world) :
  exists w',
    App.run net writable stat_fails company_dir o p w = (w', Ok tt)
    /\ (forall u, u ∈ Fetch.requests w' ->
          u ∈ Fetch.requests w
          \/ exists link,
               link ∈ App.links_annual p ++ App.links_credit p
                      ++ App.links_concalls p ++ App.links_quarterly p
               /\ l_href link = Some u)
    /\ (forall q,
          ~ (exists rest, q = company_dir ++ lit "/" ++ rest) ->
          Fetch.files w' !! q = Fetch.files w !! q)
    /\ Fetch.downloaded_count w <= Fetch.downloaded_count w'
    /\ Fetch.skipped_count w <= Fetch.skipped_count w'
    /\ Fetch.failed_count w <= Fetch.failed_count w'.
Proof.
  destruct (RunSafety.run_bounded net writable stat_fails company_dir o p w)
    as (w' & r & E & Hs).
  exists w'. split; [|exact Hs].
  rewrite E. f_equal.
  unfold App.run, Fetch.try_except in E.
  destruct (App.sections net writable stat_fails company_dir o p w)
    as [w1 [[]|e]];
    simpl in E; now injection E as _ <-.
Qed.

(** ** One day, month and year at one place *)

Module RatingAccept.
Import Shape TextFacts.

(** A run of one class that ends at a character of another class ends at
    one place only. *)
Lemma run_then_other (p : ascii -> bool) (a a' x x' : str) c c' :
  Forall (fun c => p c = true) a -> Forall (fun c => p c = true) a' ->
  p c = false -> p c' = false ->
  a ++ c :: x = a' ++ c' :: x' ->
  a = a' /\ c :: x = c' :: x'.
Proof.
  intros Ha. revert a'. induction Ha as [|d a Hd _ IH]; intros a' Ha' Hc Hc' E.
  - destruct Ha' as [|d' a' Hd' _]; [now split|].
    simpl in E. injection E as -> _. congruence.
  - destruct Ha' as [|d' a' Hd' Ha']; simpl in E.
    + injection E as -> _. congruence.
    + injection E as -> E. destruct (IH a' Ha' Hc Hc' E) as [-> E'].
      now split.
Qed.

Lemma space_not_digit c : Text.is_space c = true -> Text.is_digit c = false.
Proof.
  intros H. destruct (Text.is_digit c) eqn:E; [|reflexivity].
  apply digit_not_space in E. congruence.
Qed.

Lemma first_of {A} (P : A -> Prop) (l : list A) :
  Forall P l -> l <> [] -> exists c rest, l = c :: rest /\ P c.
Proof.
  intros H Hn. destruct H as [|c rest Hc _]; [contradiction|].
  now exists c, rest.
Qed.

Lemma first_of_length {A} (P : A -> Prop) (l : list A) n :
  Forall P l -> length l = S n -> exists c rest, l = c :: rest /\ P c.
Proof.
  intros H Hl. apply first_of; [exact H|]. intros ->. discriminate.
Qed.

(** At one place of a text there is one day, month and year at most. *)
Lemma day_month_year_same_start day ms yr w post day' ms' yr' w' post' :
  day_month_year day ms yr w -> day_month_year day' ms' yr' w' ->
  w ++ post = w' ++ post' ->
  day = day' /\ ms = ms' /\ yr = yr' /\ w = w'.
Proof.
  intros (ws1 & ws2 & -> & Hd & Hdl & [Hs1 Hn1] & Hm & Hml & [Hs2 Hn2]
          & Hy & Hyl)
         (ws1' & ws2' & -> & Hd' & Hdl' & [Hs1' Hn1'] & Hm' & Hml'
          & [Hs2' Hn2'] & Hy' & Hyl') E.
  rewrite <- !app_assoc in E.
  destruct (first_of _ _ Hs1 Hn1) as (b & r1 & -> & Hb).
  destruct (first_of _ _ Hs1' Hn1') as (b' & r1' & -> & Hb').
  simpl in E.
  destruct (run_then_other Text.is_digit day day' _ _ b b' Hd Hd'
              (space_not_digit _ Hb) (space_not_digit _ Hb') E) as [<- E1].
  destruct (first_of_length _ _ _ Hm Hml) as (a & m1 & -> & Ha).
  destruct (first_of_length _ _ _ Hm' Hml') as (a' & m1' & -> & Ha').
  change (b :: r1 ++ (a :: m1) ++ ws2 ++ yr ++ post)
    with ((b :: r1) ++ a :: (m1 ++ ws2 ++ yr ++ post)) in E1.
  change (b' :: r1' ++ (a' :: m1') ++ ws2' ++ yr' ++ post')
    with ((b' :: r1') ++ a' :: (m1' ++ ws2' ++ yr' ++ post')) in E1.
  destruct (run_then_other Text.is_space _ _ _ _ a a' Hs1 Hs1'
              (alpha_not_space _ Ha) (alpha_not_space _ Ha') E1) as [<- E2].
  change (a :: m1 ++ ws2 ++ yr ++ post)
    with ((a :: m1) ++ ws2 ++ yr ++ post) in E2.
  change (a' :: m1' ++ ws2' ++ yr' ++ post')
    with ((a' :: m1') ++ ws2' ++ yr' ++ post') in E2.
  apply app_inj_1 in E2 as [<- E3]; [|congruence].
  destruct (first_of_length _ _ _ Hy Hyl) as (d & y1 & -> & Hdg).
  destruct (first_of_length _ _ _ Hy' Hyl') as (d' & y1' & -> & Hdg').
  simpl in E3.
  destruct (run_then_other Text.is_space ws2 ws2' _ _ d d' Hs2 Hs2'
              (digit_not_space _ Hdg) (digit_not_space _ Hdg') E3)
    as [<- E4].
  change (d :: y1 ++ post) with ((d :: y1) ++ post) in E4.
  change (d' :: y1' ++ post') with ((d' :: y1') ++ post') in E4.
  apply app_inj_1 in E4 as [E4 _]; [|congruence].
  rewrite E4. repeat split.
Qed.

(** The search finds the first day, month and year of the text. *)
Lemma search_dated_of_first s w day ms yr :
  first dated w s -> day_month_year day ms yr w ->
  Re.search Re.day_month_year_re s = Some (w, [day; ms; yr]).
Proof.
  intros Hf Hw.
  destruct (ReFacts.search_complete Re.day_month_year_re s)
    as [[w' caps] E].
  { destruct Hf as (pre & post & -> & _ & _).
    exists pre, w, post, [day; ms; yr]. split; [reflexivity|].
    apply PatternFacts.day_month_year_re_matches. now exists day, ms, yr. }
  destruct (CreditFacts.search_dated_first _ _ _ E)
    as (day' & ms' & yr' & -> & Hw' & Hf').
  rewrite E.
  destruct Hf as (p & q & H & Hd & Hl), Hf' as (p' & q' & H' & Hd' & Hl').
  pose proof (Hl _ _ _ H' Hd'). pose proof (Hl' _ _ _ H Hd).
  rewrite H in H'. apply app_inj_1 in H' as [_ H']; [|lia].
  destruct (day_month_year_same_start _ _ _ _ _ _ _ _ _ _ Hw Hw' H')
    as (-> & -> & -> & ->).
  reflexivity.
Qed.

(** A run of one class that ends where the text ends or another class
    begins ends at one place only. *)
Lemma run_unique (p : ascii -> bool) (a a' x x' : str) :
  Forall (fun c => p c = true) a -> Forall (fun c => p c = true) a' ->
  match x with [] => True | c :: _ => p c = false end ->
  match x' with [] => True | c :: _ => p c = false end ->
  a ++ x = a' ++ x' -> a = a' /\ x = x'.
Proof.
  intros Ha. revert a'. induction Ha as [|d a Hd _ IH]; intros a' Ha' Hx Hx' E.
  - destruct Ha' as [|d' a' Hd' _]; [now split|].
    simpl in E. subst x. congruence.
  - destruct Ha' as [|d' a' Hd' Ha']; simpl in E.
    + subst x'. congruence.
    + injection E as -> E. destruct (IH a' Ha' Hx Hx' E) as [-> E'].
      now split.
Qed.

(** A text has one word after its first "from" at most. *)
Lemma token_after_from_unique tok tok' s :
  token_after_from tok s -> token_after_from tok' s -> tok = tok'.
Proof.
  intros (pre & w & post & E & Hw & He & Hl)
         (pre' & w' & post' & E' & Hw' & He' & Hl').
  pose proof (Hl _ _ _ _ E' Hw'). pose proof (Hl' _ _ _ _ E Hw).
  rewrite E in E'. apply app_inj_1 in E' as [_ E']; [|lia].
  destruct Hw as (ws & -> & [Hs Hn] & [Ht Htn]).
  destruct Hw' as (ws' & -> & [Hs' Hn'] & [Ht' Htn']).
  rewrite <- !app_assoc in E'. apply app_inv_head in E'.
  destruct (first_of _ _ Ht Htn) as (c & t1 & -> & Hc).
  destruct (first_of _ _ Ht' Htn') as (c' & t1' & -> & Hc').
  simpl in E'.
  destruct (run_then_other Text.is_space ws ws' _ _ c c' Hs Hs'
              (word_not_space _ Hc) (word_not_space _ Hc') E') as [_ E1].
  change (c :: t1 ++ post) with ((c :: t1) ++ post) in E1.
  change (c' :: t1' ++ post') with ((c' :: t1') ++ post') in E1.
  now apply (run_unique Text.is_word) in E1 as [E1 _].
Qed.

(** The agency of a text, told by the text. *)
Lemma agency_of_told t ag :
  (exists tok, token_after_from tok (Text.lower t) /\ ag = tok)
  \/ ((forall tok w, from_token tok w -> ~ Text.occurs_in w (Text.lower t))
      /\ ag = lit "unknown") ->
  ag = Credit.agency_of (Text.strip t).
Proof.
  intros H.
  destruct (CreditFacts.agency_spec t) as [(tok' & Ht' & ->)|[Hno ->]].
  - destruct H as [(tok & Ht & ->)|[Hno ->]].
    + now apply (token_after_from_unique _ _ (Text.lower t)).
    + destruct Ht' as (pre & w & post & E & Hw & _).
      destruct (Hno _ _ Hw). now exists pre, post.
  - destruct H as [(tok & Ht & ->)|[_ ->]]; [|reflexivity].
    destruct Ht as (pre & w & post & E & Hw & _).
    destruct (Hno _ _ Hw). now exists pre, post.
Qed.

End RatingAccept.

(** X19: a link gives a rating exactly when its text has "rating" and
    "from" (in any case), it has a target that is not empty, and the first
    place of its text where one or two digits, blanks, three letters,
    blanks and four digits stand makes a date that exists; a later date
    does not count when the first place is no date.  The rating carries
    this date and the target; its agency is the whole word after the first
    "from" of the lower-cased text that blanks and a word follow, and
    "unknown" if the text has no such "from". *)
Theorem rating_candidate_iff (link : Link) (r : Credit.rating) :
  Credit.classify link = Some r
  <->
  Text.occurs_in "rating" (Text.lower (l_text link))
  /\ Text.occurs_in "from" (Text.lower (l_text link))
  /\ l_href link = Some (Credit.url r)
  /\ Credit.url r <> []
  /\ (exists w day ms yr mo,
        Shape.first Shape.dated w (l_text link)
        /\ Shape.day_month_year day ms yr w
        /\ Calendar.month_of ms = Some mo
        /\ Calendar.mk_datetime (Text.int yr) mo (Text.int day)
           = Ok (Credit.date r))
  /\ ((exists tok,
          Shape.token_after_from tok (Text.lower (l_text link))
          /\ Credit.agency r = tok)
      \/ ((forall tok w,
              Shape.from_token tok w ->
              ~ Text.occurs_in w (Text.lower (l_text link)))
          /\ Credit.agency r = lit "unknown")).
Proof.
  split.
  - intros Hc.
    pose proof (CreditScan.credit_step_by_stage None [] ∅ link) as Hs.
    rewrite Hc in Hs.
    rewrite bool_decide_eq_false_2 in Hs by apply not_elem_of_empty.
    simpl in Hs.
    apply (CreditFacts.credit_step_accepts None [] ∅ link r) in Hs
      as (H1 & H2 & H3 & H4 & H5 & H6 & _).
    repeat split; try assumption.
    rewrite H4. apply CreditFacts.agency_spec.
  - intros (Hr & Hf & Hh & Hne & (w & day & ms & yr & mo & Hw & Hd & Hm & Hk)
            & Hag).
    apply RatingAccept.agency_of_told in Hag.
    unfold Credit.classify. cbv zeta. rewrite Hh.
    change (or_empty (Some (Credit.url r))) with (Credit.url r).
    apply (AnnualFacts.contains_lower_strip _ _ CreditFacts.solid_rating)
      in Hr.
    apply (AnnualFacts.contains_lower_strip _ _ AnnualFacts.solid_from)
      in Hf.
    rewrite Hr, Hf, orb_true_r.
    assert (Hnon : Text.nonempty (Credit.url r) = true)
      by (destruct (Credit.url r); [contradiction | reflexivity]).
    rewrite Hnon. cbn [andb].
    apply (proj2 (TextFacts.first_strip Shape.dated _ _
                    CreditFacts.dated_solid)) in Hw.
    rewrite (RatingAccept.search_dated_of_first _ _ _ _ _ Hw Hd), Hm, Hk.
    destruct r as [d u ag]. simpl in *. now subst.
Qed.

(** ** Names of destinations *)

Module NameFacts.
Import Text.

Lemma lit_inj (a b : string) : lit a = lit b -> a = b.
Proof.
  unfold lit. intros H.
  rewrite <- (string_of_list_ascii_of_string a),
    <- (string_of_list_ascii_of_string b).
  now rewrite H.
Qed.

Lemma to_int_not_nil z :
  Z.to_int z <> Decimal.Pos Decimal.Nil
  /\ Z.to_int z <> Decimal.Neg Decimal.Nil.
Proof.
  split; intros H;
    assert (E : z = 0) by (rewrite <- (DecimalZ.of_to z), H; reflexivity);
    subst; vm_compute in H; discriminate.
Qed.

(** [str] of an integer tells the integer. *)
Lemma of_int_inj a b : of_int a = of_int b -> a = b.
Proof.
  unfold of_int. intros H. apply lit_inj in H.
  apply DecimalZ.to_int_inj.
  destruct (to_int_not_nil a) as [Ha1 Ha2], (to_int_not_nil b) as [Hb1 Hb2].
  pose proof (NilZero.isi _ Ha1 Ha2) as Ia.
  pose proof (NilZero.isi _ Hb1 Hb2) as Ib.
  rewrite H in Ia. rewrite Ia in Ib. now injection Ib.
Qed.

Lemma length_fixed_digits w z : length (fixed_digits w z) = w.
Proof.
  revert z. induction w as [|w IH]; intros z; simpl; [reflexivity|].
  rewrite length_app, IH. simpl. lia.
Qed.

Lemma ltb_irrefl s : ltb s s = false.
Proof.
  destruct (ltb s s) eqn:E; [|reflexivity].
  now rewrite (OrderFacts.text_ltb_asym s s E) in E.
Qed.

Lemma fixed_digits_inj w a b :
  0 <= a < 10 ^ Z.of_nat w -> 0 <= b < 10 ^ Z.of_nat w ->
  fixed_digits w a = fixed_digits w b -> a = b.
Proof.
  intros Ha Hb E.
  pose proof (OrderFacts.ltb_fixed_digits w a b [] [] Ha Hb) as H1.
  pose proof (OrderFacts.ltb_fixed_digits w b a [] [] Hb Ha) as H2.
  rewrite E, ltb_irrefl in H1. rewrite E, ltb_irrefl in H2.
  destruct (Z.ltb_spec a b); [discriminate|].
  destruct (Z.ltb_spec b a); [discriminate|]. lia.
Qed.

(** A year from 1 to 9999 is printed with digits only. *)
Lemma of_int_digits y :
  1 <= y <= 9999 -> Forall (fun c => is_digit c = true) (of_int y).
Proof.
  intros Hy.
  assert (Hc : Range.all Range.digits_only 1 (Z.to_nat 9999) = true)
    by (vm_compute; reflexivity).
  assert (Hd : Range.digits_only y = true).
  { apply (OrderFacts.range_all Range.digits_only 1 (Z.to_nat 9999) Hc).
    rewrite Z2Nat.id; lia. }
  unfold Range.digits_only in Hd. apply andb_prop in Hd as [Hd _].
  apply Forall_forall. intros c Hc'.
  rewrite forallb_forall in Hd. apply Hd. now apply list_elem_of_In.
Qed.

Lemma tail_eq {A} (c c' : A) x y : c :: x = c' :: y -> x = y.
Proof. congruence. Qed.

(** The printed day tells the day, whatever follows it. *)
Lemma strftime_Ymd_inj a b x y :
  1 <= Calendar.year a <= 9999 -> 1 <= Calendar.year b <= 9999 ->
  0 <= Calendar.month a < 100 -> 0 <= Calendar.month b < 100 ->
  0 <= Calendar.day a < 100 -> 0 <= Calendar.day b < 100 ->
  Calendar.strftime_Ymd a ++ x = Calendar.strftime_Ymd b ++ y ->
  Calendar.year a = Calendar.year b
  /\ Calendar.month a = Calendar.month b
  /\ Calendar.day a = Calendar.day b
  /\ x = y.
Proof.
  intros Hya Hyb Hma Hmb Hda Hdb E.
  unfold Calendar.strftime_Ymd, Calendar.strftime_Ym in E.
  rewrite <- !app_assoc in E.
  change (lit "-") with ["-"%char] in E. cbn [app] in E.
  apply (RatingAccept.run_then_other is_digit) in E as [Ey E];
    [|now apply of_int_digits | now apply of_int_digits
     | reflexivity | reflexivity].
  apply tail_eq in E.
  apply app_inj_1 in E as [Em E]; [|now rewrite !length_fixed_digits].
  apply tail_eq in E.
  apply app_inj_1 in E as [Ed E]; [|now rewrite !length_fixed_digits].
  apply of_int_inj in Ey.
  apply fixed_digits_inj in Em, Ed; simpl; try lia.
  now repeat split.
Qed.

(** A byte tells its number. *)
Lemma byte_inj a b : 0 <= a < 256 -> 0 <= b < 256 -> byte a = byte b -> a = b.
Proof.
  intros Ha Hb E. unfold byte in E. apply (f_equal N_of_ascii) in E.
  rewrite !N_ascii_embedding in E by lia. lia.
Qed.

(** The bytes of a code point tell the code point, whatever follows them. *)
Lemma utf8_char_inj p q x y :
  0 <= p < 2048 -> 0 <= q < 2048 ->
  utf8_char p ++ x = utf8_char q ++ y -> p = q /\ x = y.
Proof.
  intros Hp Hq. unfold utf8_char.
  destruct (Z.ltb_spec p 128), (Z.ltb_spec q 128),
    (Z.ltb_spec p 2048), (Z.ltb_spec q 2048); try lia; simpl; intros E.
  - injection E as E1 E2. apply byte_inj in E1; [auto | lia | lia].
  - injection E as E1 E2.
    apply byte_inj in E1; [|lia|Z.div_mod_to_equations; lia].
    Z.div_mod_to_equations. lia.
  - injection E as E1 E2.
    apply byte_inj in E1; [|Z.div_mod_to_equations; lia|lia].
    Z.div_mod_to_equations. lia.
  - injection E as E1 E2 E3.
    apply byte_inj in E1; [|Z.div_mod_to_equations; lia..].
    apply byte_inj in E2; [|Z.div_mod_to_equations; lia..].
    split; [|exact E3]. Z.div_mod_to_equations. lia.
Qed.

Lemma fsencode_inj ps qs :
  Forall (fun p => 0 <= p < 2048) ps -> Forall (fun p => 0 <= p < 2048) qs ->
  fsencode ps = fsencode qs -> ps = qs.
Proof.
  intros Hps. revert qs.
  induction Hps as [|p ps Hp _ IH]; intros qs Hqs E;
    destruct Hqs as [|q qs Hq Hqs].
  - reflexivity.
  - unfold fsencode, utf8_char in E. simpl in E.
    destruct (q <? 128); [|destruct (q <? 2048)]; discriminate.
  - unfold fsencode, utf8_char in E. simpl in E.
    destruct (p <? 128); [|destruct (p <? 2048)]; discriminate.
  - unfold fsencode in E. simpl in E.
    apply utf8_char_inj in E as [-> E]; [|assumption..].
    f_equal. now apply IH.
Qed.

(** The code points of a Latin-1 text in capitals are all below 2048. *)
Lemma upper_points s : Forall (fun p => 0 <= p < 2048) (upper s).
Proof.
  assert (Hc : forall c,
             forallb (fun p => (0 <=? p) && (p <? 2048)) (upper_char c)
             = true)
    by (intros [[] [] [] [] [] [] [] []]; reflexivity).
  unfold upper. induction s as [|c s IH]; simpl; [constructor|].
  apply Forall_app. split; [|exact IH].
  apply Forall_forall. intros p Hp.
  specialize (Hc c). rewrite forallb_forall in Hc.
  apply list_elem_of_In, Hc in Hp. lia.
Qed.

Lemma credit_ranked_classified cutoff links r :
  r ∈ Credit.ranked cutoff links ->
  exists link, link ∈ links /\ Credit.classify link = Some r.
Proof.
  intros H. rewrite CreditScan.credit_ranked_perm in H.
  rewrite CreditScan.credit_scan_by_stage in H.
  apply (fun H0 => elem_of_sublist _ _ _ H0
                     (PageOrder.dedup_by_sublist _ _ _)) in H.
  unfold Credit.recency_filter in H. apply RunSafety.filter_elem in H.
  now apply list_elem_of_omap in H.
Qed.

Lemma credit_ranked_date cutoff links r :
  r ∈ Credit.ranked cutoff links ->
  1 <= Calendar.year (Credit.date r) <= 9999
  /\ 1 <= Calendar.month (Credit.date r) <= 12
  /\ 1 <= Calendar.day (Credit.date r) <= 31
  /\ Calendar.usec (Credit.date r) = 0.
Proof.
  intros H. apply credit_ranked_classified in H as (link & _ & Hc).
  unfold Credit.classify in Hc.
  destruct (_ && _); [|discriminate].
  destruct (Re.search _ _) as [[w [|day [|ms [|yr [|x caps]]]]]|];
    try discriminate.
  destruct (Calendar.month_of ms) as [mo|]; [|discriminate].
  destruct (Calendar.mk_datetime _ _ _) as [d|] eqn:Ed; [|discriminate].
  injection Hc as <-. simpl.
  apply ConcallScan.mk_datetime_ok in Ed as (-> & Hy & Hm & Hd). simpl.
  assert (Calendar.days_in_month (int yr) mo <= 31).
  { unfold Calendar.days_in_month.
    destruct (mo =? 2); [destruct (Calendar.is_leap _); lia|].
    destruct (_ || _); lia. }
  repeat split; lia.
Qed.

Lemma quarterly_ranked_date num links r :
  r ∈ Quarterly.ranked num links ->
  exists yr mo,
    Quarterly.date_str r = yr ++ lit "-" ++ fixed_digits 2 mo
    /\ Quarterly.date r = Calendar.DateTime (int yr) mo 1 0
    /\ Shape.all is_digit yr /\ length yr = 4%nat
    /\ 1 <= mo <= 12.
Proof.
  intros H. unfold Quarterly.ranked in H.
  apply ConcallScan.limit_subseteq in H.
  rewrite SortFacts.sort_desc_perm in H.
  rewrite QuarterlyScan.quarterly_scan_by_stage in H.
  apply list_elem_of_omap in H as (link & _ & Hc).
  apply QuarterlyScan.quarterly_classify_accepts in Hc
    as (_ & _ & _ & hdrs & ci & h & w & ms & yr & mo & _ & _ & _ & _ & Hmy
        & _ & Hd & Hy & Hm & _ & Hs).
  destruct Hmy as (ws & _ & _ & _ & _ & Hdig & Hlen).
  exists yr, mo. now repeat split.
Qed.

Lemma date_eq a b :
  Calendar.year a = Calendar.year b -> Calendar.month a = Calendar.month b ->
  Calendar.day a = Calendar.day b -> Calendar.usec a = Calendar.usec b ->
  a = b.
Proof. destruct a, b. simpl. now intros -> -> -> ->. Qed.

End NameFacts.


(** X21: when the first of two annual reports of one year is downloaded
    with 1000 to 5000 bytes, the file is not skipped for the second: the
    second is requested and written over the first.  If it has 1000 bytes
    or more, both count as downloaded and the one file holds the second; if
    it has fewer, the file is removed and nothing is left of either, while
    the first still counts as downloaded. *)
Theorem second_copy_replaces_small_first
    (net : list str -> str -> Fetch.response) (writable : str -> bool)
    (stat_fails : list str -> str -> bool)
    (company_dir : str) (r1 r2 : Annual.report) (w : Fetch.world)
    (status1 status2 : Z) (chunks1 chunks2 : list (list Byte.byte)) :
  Annual.year r1 = Annual.year r2 ->
  Fetch.to_fetch 5000 (Fetch.annual_path company_dir r1) w ->
  writable (Fetch.annual_path company_dir r1) = true ->
  net (Fetch.requests w) (Annual.url r1)
  = Fetch.Reply status1 chunks1 true ->
  (400 <=? status1) && (status1 <? 600) = false ->
  1000 <= Z.of_nat (length (concat chunks1)) <= 5000 ->
  net (Fetch.requests w ++ [Annual.url r1]) (Annual.url r2)
  = Fetch.Reply status2 chunks2 true ->
  (400 <=? status2) && (status2 <? 600) = false ->
  exists w',
    Fetch.fetch_annual net writable stat_fails company_dir [r1; r2] w
    = (w', Ok [Fetch.downloaded;
               if Z.of_nat (length (concat chunks2)) <? 1000
               then Fetch.failed else Fetch.downloaded])
    /\ Fetch.files w' !! Fetch.annual_path company_dir r1
       = (if Z.of_nat (length (concat chunks2)) <? 1000
          then None else Some (concat chunks2))
    /\ Fetch.requests w'
       = Fetch.requests w ++ [Annual.url r1; Annual.url r2]
    /\ Fetch.downloaded_count w'
       = Fetch.downloaded_count w
         + (if Z.of_nat (length (concat chunks2)) <? 1000 then 1 else 2)
    /\ Fetch.skipped_count w' = Fetch.skipped_count w.
Proof.
  intros Hy Hto Hw Hn1 Hs1 Hlen Hn2 Hs2.
  assert (Hp : Fetch.annual_path company_dir r2
               = Fetch.annual_path company_dir r1).
  { unfold Fetch.annual_path. now rewrite Hy. }
  pose proof (fetch_by_size net writable stat_fails 5000 (Annual.url r1)
                (Fetch.annual_path company_dir r1) w status1 chunks1
                Hto Hn1 Hs1 Hw) as H1.
  destruct (Z.ltb_spec (Z.of_nat (length (concat chunks1))) 1000) as [|_];
    [lia|].
  set (w1 := Fetch.World
               (<[Fetch.annual_path company_dir r1 := concat chunks1]>
                  (Fetch.files w))
               (Fetch.requests w ++ [Annual.url r1])
               (Fetch.downloaded_count w + 1) (Fetch.skipped_count w)
               (Fetch.failed_count w)) in *.
  assert (Hto1 : Fetch.to_fetch 5000 (Fetch.annual_path company_dir r1) w1).
  { unfold Fetch.to_fetch, w1. simpl. rewrite lookup_insert_eq. lia. }
  pose proof (fetch_by_size net writable stat_fails 5000 (Annual.url r2)
                (Fetch.annual_path company_dir r1) w1 status2 chunks2
                Hto1 Hn2 Hs2 Hw) as H2.
  unfold Fetch.fetch_annual. simpl.
  unfold Fetch.bind at 1 2. rewrite H1. simpl.
  unfold Fetch.bind at 1 2 3. rewrite Hp, H2.
  destruct (Z.of_nat (length (concat chunks2)) <? 1000); simpl;
    eexists; (split; [reflexivity|]); simpl.
  - rewrite lookup_delete_eq, <- app_assoc. repeat split; lia.
  - rewrite lookup_insert_eq, <- app_assoc. repeat split; lia.
Qed.

Lemma second_copy_replaces_small_first_witness :
  exists w',
    Fetch.fetch_annual (Cases.shrinking 3000 500)
      Sample.any_path Sample.no_stat_error
      Sample.company_dir [Sample.report_2022; Cases.report_2022_nse]
      Sample.fresh
    = (w', Ok [Fetch.downloaded;
               if Z.of_nat (length (concat (Cases.body 500))) <? 1000
               then Fetch.failed else Fetch.downloaded])
    /\ Fetch.files w'
         !! Fetch.annual_path Sample.company_dir Sample.report_2022
       = (if Z.of_nat (length (concat (Cases.body 500))) <? 1000
          then None else Some (concat (Cases.body 500)))
    /\ Fetch.requests w'
       = Fetch.requests Sample.fresh
         ++ [Annual.url Sample.report_2022; Annual.url Cases.report_2022_nse]
    /\ Fetch.downloaded_count w'
       = Fetch.downloaded_count Sample.fresh
         + (if Z.of_nat (length (concat (Cases.body 500))) <? 1000
            then 1 else 2)
    /\ Fetch.skipped_count w' = Fetch.skipped_count Sample.fresh.
Proof.
  apply (second_copy_replaces_small_first (Cases.shrinking 3000 500)
           Sample.any_path Sample.no_stat_error Sample.company_dir
           Sample.report_2022
           Cases.report_2022_nse Sample.fresh 200 200
           (Cases.body 3000) (Cases.body 500)).
  - reflexivity.
  - exact I.
  - reflexivity.
  - reflexivity.
  - reflexivity.
  - vm_compute. split; discriminate.
  - reflexivity.
  - reflexivity.
Defined.

(** ** The summary *)

Module SummaryFacts.
Import Fetch Tally Summary.

Lemma counted_total w w' os :
  counted w w' os -> total w' = total w + Z.of_nat (length os).
Proof.
  intros (H1 & H2 & H3). pose proof (LoopFacts.occurrences_total os).
  unfold total. lia.
Qed.

Section Environment.
Variable net : list str -> str -> response.
Variable writable : str -> bool.
Variable stat_fails : list str -> str -> bool.
(** Every destination can be looked at. *)
Hypothesis examined :
  forall fp w, stat_raises writable stat_fails fp w = false.

Lemma loop_total {A} min_size (u p : A -> str) (l : list A) w :
  exists w' os,
    for_each
      (fun x => bind (fetch net writable stat_fails min_size (u x) (p x))
                  (fun o => ret [o]))
      l w
    = (w', Ok os)
    /\ total w' = total w + Z.of_nat (length l).
Proof.
  destruct (LoopFacts.loop_returns net writable stat_fails min_size u p l w
              examined) as (w' & os & E & Hl & Hc & _).
  exists w', os. split; [exact E|].
  rewrite (counted_total _ _ _ Hc), Hl. reflexivity.
Qed.

Lemma optional_total (on : bool) (target : option str) fp w :
  exists w' os,
    match target with
    | Some u =>
        if on && Text.nonempty u
        then bind (fetch net writable stat_fails 1000 u fp) (fun o => ret [o])
        else ret []
    | None => ret []
    end w = (w', Ok os)
    /\ total w' = total w + (if on && present target then 1 else 0).
Proof.
  destruct target as [u|]; simpl.
  - destruct (on && Text.nonempty u).
    + destruct (LoopFacts.fetch_accounts net writable stat_fails 1000 u fp w
                  (examined fp w)) as (w1 & o & Hf & Hc & _).
      exists w1, [o]. unfold bind. rewrite Hf. split; [reflexivity|].
      now rewrite (counted_total _ _ _ Hc).
    + exists w, []. split; [reflexivity | lia].
  - exists w, []. split; [reflexivity|]. rewrite andb_false_r. lia.
Qed.

Lemma concall_total (company_dir : str)
    (d_transcripts d_presentations : bool)
    (concalls_data : gmap str Concall.bucket) (keys : list str) w :
  Forall (fun k => is_Some (concalls_data !! k)) keys ->
  exists w' os,
    fetch_concalls net writable stat_fails company_dir d_transcripts
      d_presentations
      concalls_data keys w
    = (w', Ok os)
    /\ total w'
       = total w
         + concall_documents d_transcripts d_presentations concalls_data
             keys.
Proof.
  intros Hkeys. revert w.
  induction Hkeys as [|k keys [b Hb] _ IH]; intros w.
  - exists w, []. split; [reflexivity | simpl; lia].
  - destruct (optional_total d_transcripts (Concall.transcript b)
                (transcript_path company_dir k) w) as (w1 & os1 & H1 & T1).
    destruct (optional_total d_presentations (Concall.ppt b)
                (ppt_path company_dir k) w1) as (w2 & os2 & H2 & T2).
    destruct (IH w2) as (w3 & os3 & H3 & T3).
    exists w3, ((os1 ++ os2) ++ os3).
    unfold fetch_concalls in *. simpl. rewrite Hb.
    unfold bind at 1 2. rewrite H1. unfold bind at 1. rewrite H2.
    unfold ret at 1. unfold bind at 1. rewrite H3. unfold ret at 1.
    split; [reflexivity|]. rewrite T3, T2, T1. unfold wanted. lia.
Qed.

Variable company_dir : str.
Variable o : App.options.
Variable p : App.session.

(** A section that is done when its box is ticked. *)
Lemma when_total (b : bool) (m : M (list FetchOutcome)) (n : Z) w :
  (exists w' os, m w = (w', Ok os) /\ total w' = total w + n) ->
  exists w',
    App.when b m w = (w', Ok tt)
    /\ total w' = total w + (if b then n else 0).
Proof.
  intros (w' & os & E & T). unfold App.when. destruct b.
  - exists w'. unfold bind. rewrite E. split; [reflexivity | exact T].
  - exists w. split; [reflexivity | lia].
Qed.

Lemma annual_section_total cutoff w :
  cutoff_date (App.now_annual p) (App.num_annual o) = Ok cutoff ->
  exists w' os,
    App.annual_section net writable stat_fails company_dir o p w = (w', Ok os)
    /\ total w'
       = total w
         + Z.of_nat (length (Annual.ranked cutoff (App.links_annual p))).
Proof.
  intros Hc. unfold App.annual_section, bind, App.lift. rewrite Hc.
  apply (loop_total 5000 Annual.url (annual_path company_dir)).
Qed.

Lemma credit_section_total cutoff w :
  cutoff_date (App.now_credit p) (App.num_credit o) = Ok cutoff ->
  exists w' os,
    App.credit_section net writable stat_fails company_dir o p w = (w', Ok os)
    /\ total w'
       = total w
         + Z.of_nat (length (Credit.ranked cutoff (App.links_credit p))).
Proof.
  intros Hc. unfold App.credit_section, bind, App.lift. rewrite Hc.
  apply (loop_total 5000 Credit.url (rating_path company_dir)).
Qed.

Lemma concall_section_total w :
  exists w' os,
    App.concall_section net writable stat_fails company_dir o p w = (w', Ok os)
    /\ total w'
       = total w
         + concall_documents (App.d_transcripts o) (App.d_presentations o)
             (Concall.scan (App.links_concalls p))
             (Concall.sorted_dates (App.num_concalls o)
                (Concall.scan (App.links_concalls p))).
Proof.
  unfold App.concall_section. cbv zeta. apply concall_total.
  apply Forall_forall. intros k. apply ConcallScan.sorted_dates_present.
Qed.

Lemma quarterly_section_total w :
  exists w' os,
    App.quarterly_section net writable stat_fails company_dir o p w
    = (w', Ok os)
    /\ total w'
       = total w
         + Z.of_nat
             (length (Quarterly.ranked (App.num_quarterly o)
                        (App.links_quarterly p))).
Proof.
  unfold App.quarterly_section.
  apply (loop_total 5000 Quarterly.url (quarterly_path company_dir)).
Qed.

End Environment.

End SummaryFacts.

(** X22: when both cutoffs can be taken and every destination can be
    looked at, a run goes through every ticked section, and the three
    numbers of its summary grow together by the number of documents found:
    one for each ranked annual report, rating and quarterly report of a
    ticked section, and for each chosen quarter one for its transcript and
    one for its presentation, where the box is ticked and the bucket has
    the target.  Every document found is counted once, as downloaded,
    skipped or failed. *)
Theorem summary_counts_every_document
    (net : list str -> str -> Fetch.response) (writable : str -> bool)
    (stat_fails : list str -> str -> bool)
    (company_dir : str) (o : App.options) (p : App.session)
    (w : Fetch.world)
    (annual_cutoff_date credit_cutoff_date : option Calendar.datetime) :
  cutoff_date (App.now_annual p) (App.num_annual o) = Ok annual_cutoff_date ->
  cutoff_date (App.now_credit p) (App.num_credit o) = Ok credit_cutoff_date ->
  (forall fp w0, Fetch.stat_raises writable stat_fails fp w0 = false) ->
  exists w',
    App.run net writable stat_fails company_dir o p w = (w', Ok tt)
    /\ Summary.total w'
       = Summary.total w
         + (if App.d_annual o
            then Z.of_nat (length (Annual.ranked annual_cutoff_date
                                     (App.links_annual p)))
            else 0)
         + (if App.d_credit o
            then Z.of_nat (length (Credit.ranked credit_cutoff_date
                                     (App.links_credit p)))
            else 0)
         + (if App.d_transcripts o || App.d_presentations o
            then Summary.concall_documents (App.d_transcripts o)
                   (App.d_presentations o)
                   (Concall.scan (App.links_concalls p))
                   (Concall.sorted_dates (App.num_concalls o)
                      (Concall.scan (App.links_concalls p)))
            else 0)
         + (if App.d_quarterly o
            then Z.of_nat (length (Quarterly.ranked (App.num_quarterly o)
                                     (App.links_quarterly p)))
            else 0).
Proof.
  intros Ha Hc Hx.
  destruct (SummaryFacts.when_total (App.d_annual o) _ _ w
              (SummaryFacts.annual_section_total net writable stat_fails Hx
                 company_dir o p annual_cutoff_date w Ha))
    as (w1 & E1 & T1).
  destruct (SummaryFacts.when_total (App.d_credit o) _ _ w1
              (SummaryFacts.credit_section_total net writable stat_fails Hx
                 company_dir o p credit_cutoff_date w1 Hc))
    as (w2 & E2 & T2).
  destruct (SummaryFacts.when_total
              (App.d_transcripts o || App.d_presentations o) _ _ w2
              (SummaryFacts.concall_section_total net writable stat_fails Hx
                 company_dir o p w2)) as (w3 & E3 & T3).
  destruct (SummaryFacts.when_total (App.d_quarterly o) _ _ w3
              (SummaryFacts.quarterly_section_total net writable stat_fails
                 Hx company_dir o p w3)) as (w4 & E4 & T4).
  exists w4. split; [|lia].
  unfold App.run, Fetch.try_except, App.sections.
  unfold Fetch.bind at 1. rewrite E1.
  unfold Fetch.bind at 1. rewrite E2.
  unfold Fetch.bind at 1. rewrite E3.
  now rewrite E4.
Qed.

Lemma summary_counts_every_document_witness :
  exists w',
    App.run (Sample.serve 6000)
      Sample.any_path Sample.no_stat_error Sample.company_dir
      (Cases.all_ticked 0) Cases.page Sample.fresh
    = (w', Ok tt)
    /\ Summary.total w'
       = Summary.total Sample.fresh
         + (if App.d_annual (Cases.all_ticked 0)
            then Z.of_nat (length (Annual.ranked None
                                     (App.links_annual Cases.page)))
            else 0)
         + (if App.d_credit (Cases.all_ticked 0)
            then Z.of_nat
                   (length (Credit.ranked
                              (Some (Calendar.DateTime 2023 3 2 43200000000))
                              (App.links_credit Cases.page)))
            else 0)
         + (if App.d_transcripts (Cases.all_ticked 0)
               || App.d_presentations (Cases.all_ticked 0)
            then Summary.concall_documents
                   (App.d_transcripts (Cases.all_ticked 0))
                   (App.d_presentations (Cases.all_ticked 0))
                   (Concall.scan (App.links_concalls Cases.page))
                   (Concall.sorted_dates
                      (App.num_concalls (Cases.all_ticked 0))
                      (Concall.scan (App.links_concalls Cases.page)))
            else 0)
         + (if App.d_quarterly (Cases.all_ticked 0)
            then Z.of_nat
                   (length (Quarterly.ranked
                              (App.num_quarterly (Cases.all_ticked 0))
                              (App.links_quarterly Cases.page)))
            else 0).
Proof.
  apply (summary_counts_every_document (Sample.serve 6000) Sample.any_path
           Sample.no_stat_error Sample.company_dir (Cases.all_ticked 0)
           Cases.page Sample.fresh None
           (Some (Calendar.DateTime 2023 3 2 43200000000))).
  - reflexivity.
  - vm_compute. reflexivity.
  - intros fp w0. apply FetchFacts.stat_raises_writable. reflexivity.
Defined.
